(** * Playback synchronisation engine of the feed viewer (src/index.tsx)

    A shallow embedding of the viewport-driven playback code: the two
    intersection-observer callbacks, [startSlideshow] with its nested
    [speakAndAdvance] closure and its audio event handlers, and
    [stopSlideshow].  Module-level [let] bindings, the parts of the document
    the code reads or writes, and the browser's media state are fields of one
    [World] record; every function of the source is a computation in a small
    state-and-exception monad over it.

    Around the engine, the file also embeds the code that feeds and drives
    it: the construction of the feed ([addTikTokToFeed], the history loop),
    replay and the click listener, the choice of a beat, and the settings of
    the page (API keys, theme, voice list) with [generate] up to its first
    [await]. *)

From Stdlib Require Import ZArith QArith Qround Qpower Qabs List String Ascii
  DecimalString Lia Lqa.
From stdpp Require Import base list option gmap.

Open Scope nat_scope.

(** ** Strings and numbers *)

(** A JavaScript string is a sequence of UTF-16 code units. *)
Definition jsstring := list N.

Definition lit (s : string) : jsstring :=
  map N_of_ascii (list_ascii_of_string s).
Arguments lit s%_string : simpl never.

(** Template-literal rendering of a non-negative integer. *)
Definition decimal (n : nat) : jsstring :=
  lit (NilEmpty.string_of_uint (Nat.to_uint n)).

(** ECMAScript WhiteSpace and LineTerminator code points, the characters
    [String.prototype.trim] strips. *)
Definition is_ws (c : N) : bool :=
  ((9 <=? c) && (c <=? 13) || (c =? 32) || (c =? 160) || (c =? 5760)
   || (8192 <=? c) && (c <=? 8202) || (c =? 8232) || (c =? 8233)
   || (c =? 8239) || (c =? 8287) || (c =? 12288) || (c =? 65279))%N.

Fixpoint trimStart (s : jsstring) : jsstring :=
  match s with
  | c :: s' => if is_ws c then trimStart s' else s
  | [] => []
  end.

Definition trim (s : jsstring) : jsstring :=
  rev (trimStart (rev (trimStart s))).

(** Truthiness of a [string | null | undefined] value: only a non-empty
    string is truthy. *)
Definition truthy (o : option jsstring) : bool :=
  match o with
  | Some (_ :: _) => true
  | _ => false
  end.

(** JavaScript numbers as far as the time arithmetic of the engine needs
    them: NaN, the two infinities, and the finite values as the rationals
    they denote.  A quotient is rounded to binary64 ([round64] below).  The
    sign of a zero is not kept: it would show only in a division by a zero
    that came from a negative number, and the listener divides by a slide
    duration, the quotient of a positive duration and a count. *)
Inductive number : Type :=
| NaN
| PosInf
| NegInf
| Fin (q : Q).

Definition of_nat (n : nat) : number := Fin (inject_Z (Z.of_nat n)).

(** [!x] for a number. *)
Definition num_falsy (x : number) : bool :=
  match x with
  | NaN => true
  | Fin q => Qeq_bool q 0
  | _ => false
  end.

(** *** Rounding to binary64

    IEEE 754 binary64 in the default rounding mode: 53 significant bits,
    subnormal numbers down to [2 ^ -1074], round to nearest with ties to the
    even significand, overflow to an infinity from [2 ^ 1024] on. *)

(** [2 ^ e]. *)
Definition pow2 (e : Z) : Q := Qpower 2 e.

(** The integer nearest to [x]; of two equally near, the even one. *)
Definition round_half_even (x : Q) : Z :=
  let f := Qfloor x in
  match Qcompare (x - inject_Z f) (1 # 2) with
  | Lt => f
  | Gt => (f + 1)%Z
  | Eq => if Z.even f then f else (f + 1)%Z
  end.

(** [floor (log2 x)] of a positive [x]. *)
Definition ilog2 (x : Q) : Z :=
  let l := (Z.log2 (Qnum x) - Z.log2 (Zpos (Qden x)))%Z in
  if Qle_bool (pow2 l) x then l else (l - 1)%Z.

(** The exponent of the unit in the last place of a positive [x]: 52 below
    its leading bit, but not below that of the subnormal numbers. *)
Definition exponent (x : Q) : Z := Z.max (ilog2 x - 52) (-1074).

(** A positive [x] rounded to a multiple of its unit in the last place. *)
Definition round_magnitude (x : Q) : Q :=
  let e := exponent x in
  Qred (inject_Z (round_half_even (x / pow2 e)) * pow2 e).

(** The JavaScript number a real result [x] is rounded to. *)
Definition round64 (x : Q) : number :=
  match Qcompare x 0 with
  | Eq => Fin 0
  | Gt =>
      let r := round_magnitude x in
      if Qle_bool (pow2 1024) r then PosInf else Fin r
  | Lt =>
      let r := round_magnitude (- x) in
      if Qle_bool (pow2 1024) r then NegInf else Fin (- r)
  end.

(** The number a decimal literal of the source denotes: its value rounded
    to binary64 ([0.2] is not one fifth). *)
Definition literal (q : Q) : Q :=
  match round64 q with
  | Fin r => r
  | _ => q
  end.

(** [x / y]. *)
Definition num_div (x y : number) : number :=
  match x, y with
  | NaN, _ | _, NaN => NaN
  | Fin a, Fin b =>
      if Qeq_bool b 0
      then if Qeq_bool a 0 then NaN
           else if Qle_bool 0 a then PosInf else NegInf
      else round64 (a / b)
  | Fin _, _ => Fin 0
  | PosInf, Fin b => if Qle_bool 0 b then PosInf else NegInf
  | NegInf, Fin b => if Qle_bool 0 b then NegInf else PosInf
  | _, _ => NaN
  end.

(** [Math.floor]. *)
Definition num_floor (x : number) : number :=
  match x with
  | Fin q => Fin (inject_Z (Qfloor q))
  | _ => x
  end.

(** [x !== y]. *)
Definition num_neq (x y : number) : bool :=
  match x, y with
  | NaN, _ | _, NaN => true
  | PosInf, PosInf | NegInf, NegInf => false
  | Fin a, Fin b => negb (Qeq_bool a b)
  | _, _ => true
  end.

(** [x < y]. *)
Definition num_lt (x y : number) : bool :=
  match x, y with
  | NaN, _ | _, NaN => false
  | Fin a, Fin b => negb (Qle_bool b a)
  | NegInf, NegInf => false
  | NegInf, _ => true
  | _, PosInf => match x with PosInf => false | _ => true end
  | _, _ => false
  end.

(** The array index a number denotes in [children[x]], if any. *)
Definition as_index (x : number) : option nat :=
  match x with
  | Fin q =>
      if Qle_bool 0 q && Qeq_bool q (inject_Z (Qfloor q))
      then Some (Z.to_nat (Qfloor q)) else None
  | _ => None
  end.

(** ** Data model *)

Record SlideData : Type := mkSlideData {
  lyrics : jsstring;
  imageSrc : jsstring
}.

(** The [TikTok] interface; [character], [prompt] and [element] are not read
    by the playback code and are left out. *)
Record TikTok : Type := mkTikTok {
  id : jsstring;
  slides : list SlideData;
  songSrc : option jsstring;
  instrumentalSrc : option jsstring;
  instrumentalId : option jsstring;
  useBrowserTTS : bool;
  voiceName : option jsstring
}.

(** Elements are referred to by their position in the store that holds
    them; elements are never removed. *)
Abbreviation ContainerId := nat (only parsing).
Abbreviation AudioId := nat (only parsing).
Abbreviation ObserverId := nat (only parsing).
Abbreviation ActivationId := nat (only parsing).

(** A slide element is a child of some container's horizontal slider. *)
Definition SlideRef : Type := ContainerId * nat.

Record SlideEl : Type := mkSlideEl {
  is_visible : bool                      (* class 'is-visible' *)
}.

(** A [.tiktok-item-container] element. *)
Record Container : Type := mkContainer {
  dataset_tiktokId : option jsstring;
  horizontal_slider : option (list SlideEl)   (* children of '.horizontal-slider' *)
}.

Record MediaError : Type := mkMediaError {
  me_message : jsstring;
  me_code : nat
}.

(** An [HTMLAudioElement].  [a_listener] is the activation of
    [startSlideshow] whose [onended], [onerror] and [timeupdate] handlers
    are attached to the element; [a_owner] records the activation that last
    stored the element in [currentAudio] or [currentInstrumentalAudio] (it
    is never read by the code). *)
Record AudioEl : Type := mkAudioEl {
  a_id : option jsstring;
  a_src : jsstring;
  paused : bool;
  currentTime : Q;
  duration : number;
  loop : bool;
  volume : Q;
  error : option MediaError;
  a_listener : option ActivationId;
  a_owner : option ActivationId
}.

(** A [SpeechSynthesisUtterance]; [u_activation] is the activation whose
    [speakAndAdvance] set its [onend] and [onerror] handlers. *)
Record Utterance : Type := mkUtterance {
  u_text : jsstring;
  u_voice : option jsstring;             (* None: engine default *)
  u_activation : ActivationId
}.

(** The variables a call of [startSlideshow] binds and its callbacks close
    over. *)
Record Activation : Type := mkActivation {
  act_tiktok : TikTok;
  act_slider : ContainerId;
  currentSlideIndex : nat;
  lastSlideIndex : number
}.

Inductive Overflow : Type := overflow_auto | overflow_hidden.

(** Calls into scrolling, audio and speech interfaces, in program order. *)
Inductive Call : Type :=
| scrollIntoView (c : ContainerId) (i : nat)
| speak (u : Utterance)
| cancel
| play (a : AudioId)
| pause (a : AudioId)
| load (a : AudioId).

Record World : Type := mkWorld {
  (* module-level bindings *)
  isPlaying : bool;
  savedTikToks : list TikTok;
  slideObserver : option ObserverId;
  activeTikTokContainer : option ContainerId;
  currentAudio : option AudioId;
  currentInstrumentalAudio : option AudioId;
  (* activation records of startSlideshow *)
  activations : list Activation;
  (* document *)
  body_slideshow_paused : bool;          (* body has class 'slideshow-paused' *)
  slideshow_overflowY : Overflow;
  containers : list Container;
  errorModalMessage : jsstring;
  modalOverlay_hidden : bool;
  errorModal_hidden : bool;
  (* browser *)
  audios : list AudioEl;
  observers : list (list SlideRef);      (* targets of each IntersectionObserver *)
  speechQueue : list Utterance;
  cancelledUtterances : list Utterance;  (* removed by cancel, event not yet fired *)
  voices : list jsstring;                (* names of speechSynthesis.getVoices() *)
  calls : list Call
}.

Definition set_isPlaying (v : bool) (w : World) : World :=
  mkWorld v (savedTikToks w) (slideObserver w) (activeTikTokContainer w)
    (currentAudio w) (currentInstrumentalAudio w) (activations w)
    (body_slideshow_paused w) (slideshow_overflowY w) (containers w)
    (errorModalMessage w) (modalOverlay_hidden w) (errorModal_hidden w)
    (audios w) (observers w) (speechQueue w) (cancelledUtterances w) (voices
    w) (calls w).

Definition set_slideObserver (v : option ObserverId) (w : World) : World :=
  mkWorld (isPlaying w) (savedTikToks w) v (activeTikTokContainer w)
    (currentAudio w) (currentInstrumentalAudio w) (activations w)
    (body_slideshow_paused w) (slideshow_overflowY w) (containers w)
    (errorModalMessage w) (modalOverlay_hidden w) (errorModal_hidden w)
    (audios w) (observers w) (speechQueue w) (cancelledUtterances w) (voices
    w) (calls w).

Definition set_activeTikTokContainer (v : option ContainerId) (w : World) : World :=
  mkWorld (isPlaying w) (savedTikToks w) (slideObserver w) v (currentAudio
    w) (currentInstrumentalAudio w) (activations w) (body_slideshow_paused
    w) (slideshow_overflowY w) (containers w) (errorModalMessage w)
    (modalOverlay_hidden w) (errorModal_hidden w) (audios w) (observers w)
    (speechQueue w) (cancelledUtterances w) (voices w) (calls w).

Definition set_currentAudio (v : option AudioId) (w : World) : World :=
  mkWorld (isPlaying w) (savedTikToks w) (slideObserver w)
    (activeTikTokContainer w) v (currentInstrumentalAudio w) (activations w)
    (body_slideshow_paused w) (slideshow_overflowY w) (containers w)
    (errorModalMessage w) (modalOverlay_hidden w) (errorModal_hidden w)
    (audios w) (observers w) (speechQueue w) (cancelledUtterances w) (voices
    w) (calls w).

Definition set_currentInstrumentalAudio (v : option AudioId) (w : World) : World :=
  mkWorld (isPlaying w) (savedTikToks w) (slideObserver w)
    (activeTikTokContainer w) (currentAudio w) v (activations w)
    (body_slideshow_paused w) (slideshow_overflowY w) (containers w)
    (errorModalMessage w) (modalOverlay_hidden w) (errorModal_hidden w)
    (audios w) (observers w) (speechQueue w) (cancelledUtterances w) (voices
    w) (calls w).

Definition set_activations (v : list Activation) (w : World) : World :=
  mkWorld (isPlaying w) (savedTikToks w) (slideObserver w)
    (activeTikTokContainer w) (currentAudio w) (currentInstrumentalAudio w)
    v (body_slideshow_paused w) (slideshow_overflowY w) (containers w)
    (errorModalMessage w) (modalOverlay_hidden w) (errorModal_hidden w)
    (audios w) (observers w) (speechQueue w) (cancelledUtterances w) (voices
    w) (calls w).

Definition set_body_slideshow_paused (v : bool) (w : World) : World :=
  mkWorld (isPlaying w) (savedTikToks w) (slideObserver w)
    (activeTikTokContainer w) (currentAudio w) (currentInstrumentalAudio w)
    (activations w) v (slideshow_overflowY w) (containers w)
    (errorModalMessage w) (modalOverlay_hidden w) (errorModal_hidden w)
    (audios w) (observers w) (speechQueue w) (cancelledUtterances w) (voices
    w) (calls w).

Definition set_slideshow_overflowY (v : Overflow) (w : World) : World :=
  mkWorld (isPlaying w) (savedTikToks w) (slideObserver w)
    (activeTikTokContainer w) (currentAudio w) (currentInstrumentalAudio w)
    (activations w) (body_slideshow_paused w) v (containers w)
    (errorModalMessage w) (modalOverlay_hidden w) (errorModal_hidden w)
    (audios w) (observers w) (speechQueue w) (cancelledUtterances w) (voices
    w) (calls w).

Definition set_containers (v : list Container) (w : World) : World :=
  mkWorld (isPlaying w) (savedTikToks w) (slideObserver w)
    (activeTikTokContainer w) (currentAudio w) (currentInstrumentalAudio w)
    (activations w) (body_slideshow_paused w) (slideshow_overflowY w) v
    (errorModalMessage w) (modalOverlay_hidden w) (errorModal_hidden w)
    (audios w) (observers w) (speechQueue w) (cancelledUtterances w) (voices
    w) (calls w).

Definition set_errorModalMessage (v : jsstring) (w : World) : World :=
  mkWorld (isPlaying w) (savedTikToks w) (slideObserver w)
    (activeTikTokContainer w) (currentAudio w) (currentInstrumentalAudio w)
    (activations w) (body_slideshow_paused w) (slideshow_overflowY w)
    (containers w) v (modalOverlay_hidden w) (errorModal_hidden w) (audios
    w) (observers w) (speechQueue w) (cancelledUtterances w) (voices w)
    (calls w).

Definition set_modalOverlay_hidden (v : bool) (w : World) : World :=
  mkWorld (isPlaying w) (savedTikToks w) (slideObserver w)
    (activeTikTokContainer w) (currentAudio w) (currentInstrumentalAudio w)
    (activations w) (body_slideshow_paused w) (slideshow_overflowY w)
    (containers w) (errorModalMessage w) v (errorModal_hidden w) (audios w)
    (observers w) (speechQueue w) (cancelledUtterances w) (voices w) (calls
    w).

Definition set_errorModal_hidden (v : bool) (w : World) : World :=
  mkWorld (isPlaying w) (savedTikToks w) (slideObserver w)
    (activeTikTokContainer w) (currentAudio w) (currentInstrumentalAudio w)
    (activations w) (body_slideshow_paused w) (slideshow_overflowY w)
    (containers w) (errorModalMessage w) (modalOverlay_hidden w) v (audios
    w) (observers w) (speechQueue w) (cancelledUtterances w) (voices w)
    (calls w).

Definition set_audios (v : list AudioEl) (w : World) : World :=
  mkWorld (isPlaying w) (savedTikToks w) (slideObserver w)
    (activeTikTokContainer w) (currentAudio w) (currentInstrumentalAudio w)
    (activations w) (body_slideshow_paused w) (slideshow_overflowY w)
    (containers w) (errorModalMessage w) (modalOverlay_hidden w)
    (errorModal_hidden w) v (observers w) (speechQueue w)
    (cancelledUtterances w) (voices w) (calls w).

Definition set_observers (v : list (list SlideRef)) (w : World) : World :=
  mkWorld (isPlaying w) (savedTikToks w) (slideObserver w)
    (activeTikTokContainer w) (currentAudio w) (currentInstrumentalAudio w)
    (activations w) (body_slideshow_paused w) (slideshow_overflowY w)
    (containers w) (errorModalMessage w) (modalOverlay_hidden w)
    (errorModal_hidden w) (audios w) v (speechQueue w) (cancelledUtterances
    w) (voices w) (calls w).

Definition set_speechQueue (v : list Utterance) (w : World) : World :=
  mkWorld (isPlaying w) (savedTikToks w) (slideObserver w)
    (activeTikTokContainer w) (currentAudio w) (currentInstrumentalAudio w)
    (activations w) (body_slideshow_paused w) (slideshow_overflowY w)
    (containers w) (errorModalMessage w) (modalOverlay_hidden w)
    (errorModal_hidden w) (audios w) (observers w) v (cancelledUtterances w)
    (voices w) (calls w).

Definition set_cancelledUtterances (v : list Utterance) (w : World) : World :=
  mkWorld (isPlaying w) (savedTikToks w) (slideObserver w)
    (activeTikTokContainer w) (currentAudio w) (currentInstrumentalAudio w)
    (activations w) (body_slideshow_paused w) (slideshow_overflowY w)
    (containers w) (errorModalMessage w) (modalOverlay_hidden w)
    (errorModal_hidden w) (audios w) (observers w) (speechQueue w) v (voices
    w) (calls w).

Definition set_calls (v : list Call) (w : World) : World :=
  mkWorld (isPlaying w) (savedTikToks w) (slideObserver w)
    (activeTikTokContainer w) (currentAudio w) (currentInstrumentalAudio w)
    (activations w) (body_slideshow_paused w) (slideshow_overflowY w)
    (containers w) (errorModalMessage w) (modalOverlay_hidden w)
    (errorModal_hidden w) (audios w) (observers w) (speechQueue w)
    (cancelledUtterances w) (voices w) v.


(** ** Computations over the world

    A function of the source is a state transformer that may end in an
    uncaught exception; the world at the point of the throw is kept, since
    an exception does not undo earlier assignments. *)

Inductive Exn : Type :=
| TypeError            (* property access on null or undefined *)
| OutOfFuel.           (* recursion budget of the embedding exhausted *)

Inductive Res (A : Type) : Type :=
| Done (a : A) (w : World)
| Throw (e : Exn) (w : World).
Arguments Done {A} a w.
Arguments Throw {A} e w.

Definition M (A : Type) : Type := World -> Res A.

Definition ret {A} (a : A) : M A := fun w => Done a w.

Definition bind {A B} (c : M A) (k : A -> M B) : M B :=
  fun w =>
    match c w with
    | Done a w' => k a w'
    | Throw e w' => Throw e w'
    end.

Notation "x <- c ;; k" := (bind c (fun x => k))
  (at level 100, c at next level, right associativity).
Notation "c ;; k" := (bind c (fun _ => k))
  (at level 100, right associativity).

Definition get : M World := fun w => Done w w.
Definition modify (f : World -> World) : M unit := fun w => Done tt (f w).
Definition throw {A} (e : Exn) : M A := fun w => Throw e w.
Definition when (b : bool) (c : M unit) : M unit := if b then c else ret tt.

(** The world a handler leaves behind, whether it returned or threw. *)
Definition world_of {A} (r : Res A) : World :=
  match r with
  | Done _ w => w
  | Throw _ w => w
  end.

Definition record (c : Call) : M unit :=
  modify (fun w => set_calls (calls w ++ [c]) w).

(** ** Browser interfaces *)

Definition set_paused (b : bool) (el : AudioEl) : AudioEl :=
  mkAudioEl (a_id el) (a_src el) b (currentTime el) (duration el) (loop el)
    (volume el) (error el) (a_listener el) (a_owner el).
Definition set_currentTime (t : Q) (el : AudioEl) : AudioEl :=
  mkAudioEl (a_id el) (a_src el) (paused el) t (duration el) (loop el)
    (volume el) (error el) (a_listener el) (a_owner el).
Definition set_duration (d : number) (el : AudioEl) : AudioEl :=
  mkAudioEl (a_id el) (a_src el) (paused el) (currentTime el) d (loop el)
    (volume el) (error el) (a_listener el) (a_owner el).
Definition set_loop (b : bool) (el : AudioEl) : AudioEl :=
  mkAudioEl (a_id el) (a_src el) (paused el) (currentTime el) (duration el) b
    (volume el) (error el) (a_listener el) (a_owner el).
Definition set_volume (v : Q) (el : AudioEl) : AudioEl :=
  mkAudioEl (a_id el) (a_src el) (paused el) (currentTime el) (duration el)
    (loop el) v (error el) (a_listener el) (a_owner el).
Definition set_error (e : option MediaError) (el : AudioEl) : AudioEl :=
  mkAudioEl (a_id el) (a_src el) (paused el) (currentTime el) (duration el)
    (loop el) (volume el) e (a_listener el) (a_owner el).
Definition set_a_listener (s : option ActivationId) (el : AudioEl) : AudioEl :=
  mkAudioEl (a_id el) (a_src el) (paused el) (currentTime el) (duration el)
    (loop el) (volume el) (error el) s (a_owner el).
Definition set_a_owner (s : option ActivationId) (el : AudioEl) : AudioEl :=
  mkAudioEl (a_id el) (a_src el) (paused el) (currentTime el) (duration el)
    (loop el) (volume el) (error el) (a_listener el) s.

(** Assignment to, or method call on, the element behind a handle. *)
Definition update_audio (a : AudioId) (f : AudioEl -> AudioEl) : M unit :=
  modify (fun w => set_audios (alter f a (audios w)) w).

(** [new Audio(src)]: a fresh, paused element without metadata. *)
Definition blank_audio (src : jsstring) : AudioEl :=
  mkAudioEl None src true 0%Q NaN false 1%Q None None None.

Definition new_Audio (src : jsstring) : M AudioId :=
  w <- get ;;
  modify (set_audios (audios w ++ [blank_audio src])) ;;
  ret (length (audios w)).

(** Reading a field through a handle. *)
Definition audio_at (w : World) (a : AudioId) : AudioEl :=
  default (blank_audio []) (audios w !! a).

(** A member access [h.m(...)] through a nullable binding [h]: a
    [TypeError] when the binding holds null. *)
Definition via {A} (h : World -> option AudioId) (m : AudioId -> M A) : M A :=
  w <- get ;;
  match h w with
  | Some a => m a
  | None => throw TypeError
  end.

(** [el.pause()]. *)
Definition audio_pause (a : AudioId) : M unit :=
  update_audio a (set_paused true) ;; record (pause a).

(** [el.play()]; the returned promise settles later, see [Event]. *)
Definition audio_play (a : AudioId) : M unit :=
  update_audio a (set_paused false) ;; record (play a).

(** [el.load()]: the media element load algorithm resets the element. *)
Definition audio_load (a : AudioId) : M unit :=
  update_audio a (fun el =>
    set_error None (set_duration NaN (set_currentTime 0%Q (set_paused true el)))) ;;
  record (load a).

(** [document.querySelector('#' + id)] for the pre-rendered beat loops, the
    only elements the code looks up by id: [generate] writes no other
    [instrumentalId] than 'beat-upbeat', 'beat-ballad' and 'beat-epic', for
    which the selector is valid and names the page's audio element of that
    id, if the page has one.  An id that names another element of the
    document, or that makes no valid selector, is outside this model. *)
Fixpoint find_audio_by_id (i : jsstring) (k : nat) (l : list AudioEl)
  : option AudioId :=
  match l with
  | [] => None
  | el :: l' =>
      if bool_decide (a_id el = Some i) then Some k
      else find_audio_by_id i (S k) l'
  end.

Definition querySelector_audio (i : jsstring) (w : World) : option AudioId :=
  find_audio_by_id i 0 (audios w).

(** The speech engine speaks the head of its queue as soon as there is one:
    [speechSynthesis.speaking] holds exactly while the queue is non-empty.
    [cancel] empties the queue; the engine still owes each removed utterance
    its final event, which it fires later. *)
Definition speechSynthesis_speaking (w : World) : bool :=
  match speechQueue w with
  | [] => false
  | _ :: _ => true
  end.

Definition speechSynthesis_cancel : M unit :=
  modify (fun w =>
    set_speechQueue []
      (set_cancelledUtterances (cancelledUtterances w ++ speechQueue w) w)) ;;
  record cancel.

Definition speechSynthesis_speak (u : Utterance) : M unit :=
  modify (fun w => set_speechQueue (speechQueue w ++ [u]) w) ;;
  record (speak u).

(** A lookup of a container that is not in the document behaves as a
    detached element: no data attribute, no slider. *)
Definition container_at (w : World) (c : ContainerId) : Container :=
  default (mkContainer None None) (containers w !! c).

Definition slider_children (w : World) (c : ContainerId) : list SlideEl :=
  default [] (horizontal_slider (container_at w c)).

(** [slider.children[i]?.scrollIntoView({...})]. *)
Definition scroll_child (c : ContainerId) (i : option nat) : M unit :=
  w <- get ;;
  match i with
  | Some i =>
      match slider_children w c !! i with
      | Some _ => record (scrollIntoView c i)
      | None => ret tt
      end
  | None => ret tt
  end.

(** ** The source functions *)

Definition showErrorPopup (message : jsstring) : M unit :=
  modify (set_errorModalMessage message) ;;
  modify (set_modalOverlay_hidden false) ;;
  modify (set_errorModal_hidden false).

Definition stopSlideshow : M unit :=
  modify (set_isPlaying false) ;;
  modify (set_body_slideshow_paused true) ;;
  (w <- get ;;
   when (bool_decide (is_Some (currentAudio w)))
     (via currentAudio audio_pause ;;
      modify (set_currentAudio None))) ;;
  (w <- get ;;
   when (bool_decide (is_Some (currentInstrumentalAudio w)))
     (via currentInstrumentalAudio audio_pause ;;
      modify (set_currentInstrumentalAudio None))) ;;
  w <- get ;;
  when (speechSynthesis_speaking w) speechSynthesis_cancel.

(** *** Playback controls *)

Definition set_currentSlideIndex (i : nat) (act : Activation) : Activation :=
  mkActivation (act_tiktok act) (act_slider act) i (lastSlideIndex act).
Definition set_lastSlideIndex (x : number) (act : Activation) : Activation :=
  mkActivation (act_tiktok act) (act_slider act) (currentSlideIndex act) x.

Definition update_activation (sid : ActivationId) (f : Activation -> Activation)
  : M unit :=
  modify (fun w => set_activations (alter f sid (activations w)) w).

(** Entering the body of [startSlideshow] binds [tiktok] and [slider];
    [currentSlideIndex] starts at 0 and [lastSlideIndex] at -1. *)
Definition new_activation (tiktok : TikTok) (slider : ContainerId)
  : M ActivationId :=
  w <- get ;;
  modify (set_activations
            (activations w ++ [mkActivation tiktok slider 0 (Fin (-1))])) ;;
  ret (length (activations w)).

(** [voices.find((voice) => voice.name === tiktok.voiceName)], applied only
    when [tiktok.voiceName] is truthy. *)
Definition selectedVoice (tiktok : TikTok) (w : World) : option jsstring :=
  if truthy (voiceName tiktok)
  then find (fun name => bool_decide (Some name = voiceName tiktok)) (voices w)
  else None.

(** The closure [speakAndAdvance] of activation [sid].  It calls itself
    after skipping a slide without text; [fuel] bounds the depth of that
    recursion. *)
Fixpoint speakAndAdvance_rec (fuel : nat) (sid : ActivationId) : M unit :=
  match fuel with
  | 0 => throw OutOfFuel
  | S fuel' =>
      w <- get ;;
      match activations w !! sid with
      | None => ret tt
      | Some act =>
          let tiktok := act_tiktok act in
          if (length (slides tiktok) <=? currentSlideIndex act)
             || negb (isPlaying w)
          then stopSlideshow
          else
            scroll_child (act_slider act) (Some (currentSlideIndex act)) ;;
            match slides tiktok !! currentSlideIndex act with
            | None => throw TypeError
            | Some slideData =>
                match trim (lyrics slideData) with
                | [] =>
                    update_activation sid
                      (set_currentSlideIndex (S (currentSlideIndex act))) ;;
                    speakAndAdvance_rec fuel' sid
                | _ :: _ =>
                    w' <- get ;;
                    speechSynthesis_speak
                      (mkUtterance (lyrics slideData)
                         (selectedVoice tiktok w') sid)
                end
            end
      end
  end.

(** Slides left from the cursor of activation [sid], plus the final call
    that finds the cursor past the end. *)
Definition budget (sid : ActivationId) (w : World) : nat :=
  match activations w !! sid with
  | Some act => S (length (slides (act_tiktok act)) - currentSlideIndex act)
  | None => 1
  end.

Definition speakAndAdvance (sid : ActivationId) : M unit :=
  w <- get ;;
  speakAndAdvance_rec (budget sid w) sid.

(** [utterance.onend]. *)
Definition utterance_onend (sid : ActivationId) : M unit :=
  update_activation sid
    (fun act => set_currentSlideIndex (S (currentSlideIndex act)) act) ;;
  speakAndAdvance sid.

(** [utterance.onerror]; [code] is the event's [error] attribute. *)
Definition utterance_onerror (code : jsstring) : M unit :=
  showErrorPopup (lit "Speech synthesis failed: " ++ code) ;;
  stopSlideshow.

(** The rejection handler of the instrumental [play()] promise (both the
    beat element and the generated track). *)
Definition instrumental_play_catch (message : jsstring) : M unit :=
  showErrorPopup (lit "Instrumental playback failed:" ++ [10%N] ++ message).

(** The rejection handler of the narration [play()] promise. *)
Definition vocal_play_catch (message : jsstring) : M unit :=
  showErrorPopup (lit "Vocal playback failed:" ++ [10%N] ++ message) ;;
  stopSlideshow.

(** [currentAudio.onended]. *)
Definition audio_onended : M unit := stopSlideshow.

(** [currentAudio.onerror]: reads the error of whatever [currentAudio]
    holds when the event fires. *)
Definition audio_onerror : M unit :=
  w <- get ;;
  let audioError :=
    match currentAudio w with
    | Some a => error (audio_at w a)
    | None => None
    end in
  let errorMessage :=
    match audioError with
    | Some e => me_message e ++ lit " (code: " ++ decimal (me_code e) ++ lit ")"
    | None => lit "An unknown error occurred."
    end in
  showErrorPopup (lit "Vocal playback failed:" ++ [10%N] ++ errorMessage) ;;
  stopSlideshow.

(** The ['timeupdate'] listener of activation [sid]. *)
Definition audio_ontimeupdate (sid : ActivationId) : M unit :=
  w <- get ;;
  match activations w !! sid, currentAudio w with
  | None, _ => ret tt
  | Some _, None => ret tt
  | Some act, Some a =>
      let el := audio_at w a in
      if paused el || num_falsy (duration el) then ret tt
      else
        let n := length (slides (act_tiktok act)) in
        let slideDuration := num_div (duration el) (of_nat n) in
        let index := num_floor (num_div (Fin (currentTime el)) slideDuration) in
        if num_neq index (lastSlideIndex act) && num_lt index (of_nat n)
        then
          scroll_child (act_slider act) (as_index index) ;;
          update_activation sid (set_lastSlideIndex index)
        else ret tt
  end.

(** The instrumental track, common to both narration modes: the shared
    beat element named by [instrumentalId], else a new element for
    [instrumentalSrc]. *)
Definition start_instrumental (tiktok : TikTok) (sid : ActivationId) : M unit :=
  if truthy (instrumentalId tiktok) then
    w <- get ;;
    match querySelector_audio (default [] (instrumentalId tiktok)) w with
    | Some instrumentalEl =>
        modify (set_currentInstrumentalAudio (Some instrumentalEl)) ;;
        via currentInstrumentalAudio (fun a =>
          update_audio a (set_a_owner (Some sid))) ;;
        via currentInstrumentalAudio (fun a =>
          update_audio a (set_currentTime 0%Q)) ;;
        via currentInstrumentalAudio (fun a =>
          update_audio a (set_volume (literal (1 # 5)))) ;;
        via currentInstrumentalAudio audio_load ;;
        via currentInstrumentalAudio audio_play
    | None => ret tt
    end
  else if truthy (instrumentalSrc tiktok) then
    a <- new_Audio (default [] (instrumentalSrc tiktok)) ;;
    modify (set_currentInstrumentalAudio (Some a)) ;;
    via currentInstrumentalAudio (fun a =>
      update_audio a (set_a_owner (Some sid))) ;;
    via currentInstrumentalAudio (fun a => update_audio a (set_loop true)) ;;
    via currentInstrumentalAudio (fun a =>
      update_audio a (set_volume (literal (2 # 5)))) ;;
    via currentInstrumentalAudio audio_play
  else ret tt.

(** The narration branch: browser speech, else the pre-rendered song. *)
Definition start_narration (tiktok : TikTok) (sid : ActivationId) : M unit :=
  if useBrowserTTS tiktok then
    speakAndAdvance sid
  else if truthy (songSrc tiktok) then
    a <- new_Audio (default [] (songSrc tiktok)) ;;
    modify (set_currentAudio (Some a)) ;;
    via currentAudio (fun a => update_audio a (set_a_owner (Some sid))) ;;
    via currentAudio audio_play ;;
    via currentAudio (fun a => update_audio a (set_a_listener (Some sid)))
  else ret tt.

(** What [startSlideshow] does once its guards have passed and
    [stopSlideshow()] has returned. *)
Definition start_session (tiktok : TikTok) (sid : ActivationId) : M unit :=
  modify (set_isPlaying true) ;;
  modify (set_body_slideshow_paused false) ;;
  start_instrumental tiktok sid ;;
  start_narration tiktok sid.

(** The item the guards of [startSlideshow] let through: the active
    container, when it names a saved item and its slider has a child. *)
Definition start_target (w : World) : option (ContainerId * TikTok) :=
  match activeTikTokContainer w with
  | None => None
  | Some c =>
      let tiktokId := dataset_tiktokId (container_at w c) in
      let tiktok :=
        find (fun t => bool_decide (Some (id t) = tiktokId)) (savedTikToks w) in
      let slider := horizontal_slider (container_at w c) in
      match slider, tiktok with
      | None, _ | _, None => None
      | Some [], _ => None
      | Some (_ :: _), Some tiktok => Some (c, tiktok)
      end
  end.

Definition startSlideshow : M unit :=
  w <- get ;;
  match start_target w with
  | None => ret tt
  | Some (slider, tiktok) =>
      sid <- new_activation tiktok slider ;;
      stopSlideshow ;;
      start_session tiktok sid
  end.

(** The click listener on the feed, for a click outside every action icon:
    [isPlaying ? stopSlideshow() : startSlideshow()]. *)
Definition tap : M unit :=
  w <- get ;;
  if isPlaying w then stopSlideshow else startSlideshow.

(** *** Observers *)

Fixpoint forEach {A} (l : list A) (f : A -> M unit) : M unit :=
  match l with
  | [] => ret tt
  | x :: l' => f x ;; forEach l' f
  end.

(** [new IntersectionObserver(...)]: no targets yet. *)
Definition new_IntersectionObserver : M ObserverId :=
  w <- get ;;
  modify (set_observers (observers w ++ [[]])) ;;
  ret (length (observers w)).

Definition observer_disconnect (o : ObserverId) : M unit :=
  modify (fun w => set_observers (<[o := []]> (observers w)) w).

Definition observer_observe (target : SlideRef) (o : ObserverId) : M unit :=
  modify (fun w => set_observers (alter (fun ts => ts ++ [target]) o (observers w)) w).

Definition setupSlideObserverForActiveTikTok : M unit :=
  (w <- get ;;
   when (bool_decide (is_Some (slideObserver w)))
     (via slideObserver observer_disconnect)) ;;
  w <- get ;;
  match activeTikTokContainer w with
  | None => ret tt
  | Some c =>
      let horizontalSlider := horizontal_slider (container_at w c) in
      o <- new_IntersectionObserver ;;
      modify (set_slideObserver (Some o)) ;;
      match horizontalSlider with
      | None => throw TypeError
      | Some children =>
          forEach (seq 0 (length children))
            (fun i => via slideObserver (observer_observe (c, i)))
      end
  end.

(** One entry of a batch delivered to the item-level observer: the target
    container and its [isIntersecting] flag (threshold 0.8). *)
Definition tiktok_entry (entry : ContainerId * bool) : M unit :=
  let (target, isIntersecting) := entry in
  if isIntersecting then
    w <- get ;;
    if bool_decide (activeTikTokContainer w <> Some target) then
      stopSlideshow ;;
      modify (set_activeTikTokContainer (Some target)) ;;
      setupSlideObserverForActiveTikTok
    else ret tt
  else ret tt.

Definition tiktokObserver_callback (entries : list (ContainerId * bool))
  : M unit :=
  forEach entries tiktok_entry.

Definition previousElementSibling (w : World) (slide : SlideRef)
  : option SlideRef :=
  let (c, i) := slide in
  match slider_children w c !! i, i with
  | Some _, S j => Some (c, j)
  | _, _ => None
  end.

Definition nextElementSibling (w : World) (slide : SlideRef)
  : option SlideRef :=
  let (c, i) := slide in
  match slider_children w c !! i, slider_children w c !! S i with
  | Some _, Some _ => Some (c, S i)
  | _, _ => None
  end.

(** [slide.classList.toggle('is-visible', force)]. *)
Definition toggle_is_visible (slide : SlideRef) (force : bool) : M unit :=
  let (c, i) := slide in
  modify (fun w =>
    set_containers
      (alter (fun ct =>
         mkContainer (dataset_tiktokId ct)
           (alter (fun _ => mkSlideEl force) i <$> horizontal_slider ct))
         c (containers w)) w).

(** The body of the [forEach] in the slide-level callback; [isAtBounds] is
    the local flag it may set. *)
Fixpoint slide_entries (entries : list (SlideRef * bool)) (isAtBounds : bool)
  : M bool :=
  match entries with
  | [] => ret isAtBounds
  | (slide, isIntersecting) :: rest =>
      toggle_is_visible slide isIntersecting ;;
      w <- get ;;
      let isAtBounds' :=
        if isIntersecting then
          let isFirst := negb (bool_decide (is_Some (previousElementSibling w slide))) in
          let isLast := negb (bool_decide (is_Some (nextElementSibling w slide))) in
          if isFirst || isLast then true else isAtBounds
        else isAtBounds in
      slide_entries rest isAtBounds'
  end.

Definition slideObserver_callback (entries : list (SlideRef * bool)) : M unit :=
  isAtBounds <- slide_entries entries false ;;
  modify (set_slideshow_overflowY
            (if isAtBounds then overflow_auto else overflow_hidden)).

(** ** Events

    Everything runs on one event loop: a user gesture, an observer batch, or
    a media callback runs its handler to completion on the current world.  An
    exception that escapes a handler ends that handler only. *)

Inductive Event : Type :=
| Tap                                         (* click on the feed surface *)
| CallStart                                   (* startSlideshow() *)
| CallStop                                    (* stopSlideshow() *)
| ItemsIntersect (entries : list (ContainerId * bool))
| SlidesIntersect (entries : list (SlideRef * bool))
| SpeechEnd                                   (* head utterance spoken to its end *)
| SpeechError (code : jsstring)               (* head utterance failed *)
| CancelledSpeechEnd                          (* 'end' of a cancelled utterance *)
| CancelledSpeechError (code : jsstring)      (* 'error' of a cancelled utterance *)
| InstrumentalPlayRejected (message : jsstring)
| VocalPlayRejected (message : jsstring)
| LoadedMetadata (a : AudioId) (d : number)
| TimeUpdate (a : AudioId) (t : Q)
| AudioEnded (a : AudioId)
| AudioError (a : AudioId) (e : option MediaError).

(** Run the handlers attached to audio element [a], if any. *)
Definition with_listener (a : AudioId) (h : ActivationId -> M unit) : M unit :=
  w <- get ;;
  match a_listener (audio_at w a) with
  | Some sid => h sid
  | None => ret tt
  end.

Definition handler (e : Event) : M unit :=
  match e with
  | Tap => tap
  | CallStart => startSlideshow
  | CallStop => stopSlideshow
  | ItemsIntersect entries => tiktokObserver_callback entries
  | SlidesIntersect entries => slideObserver_callback entries
  | SpeechEnd =>
      w <- get ;;
      match speechQueue w with
      | u :: rest =>
          modify (set_speechQueue rest) ;; utterance_onend (u_activation u)
      | [] => ret tt
      end
  | SpeechError code =>
      w <- get ;;
      match speechQueue w with
      | _ :: rest => modify (set_speechQueue rest) ;; utterance_onerror code
      | [] => ret tt
      end
  | CancelledSpeechEnd =>
      w <- get ;;
      match cancelledUtterances w with
      | u :: rest =>
          modify (set_cancelledUtterances rest) ;;
          utterance_onend (u_activation u)
      | [] => ret tt
      end
  | CancelledSpeechError code =>
      w <- get ;;
      match cancelledUtterances w with
      | _ :: rest =>
          modify (set_cancelledUtterances rest) ;; utterance_onerror code
      | [] => ret tt
      end
  | InstrumentalPlayRejected message => instrumental_play_catch message
  | VocalPlayRejected message => vocal_play_catch message
  | LoadedMetadata a d => update_audio a (set_duration d)
  | TimeUpdate a t =>
      update_audio a (set_currentTime t) ;;
      with_listener a audio_ontimeupdate
  | AudioEnded a =>
      update_audio a (set_paused true) ;;
      with_listener a (fun _ => audio_onended)
  | AudioError a e =>
      update_audio a (set_error e) ;;
      with_listener a (fun _ => audio_onerror)
  end.

Definition exec (e : Event) (w : World) : World := world_of (handler e w).

Definition run (es : list Event) (w : World) : World :=
  fold_left (fun w e => exec e w) es w.

(** ** Vocabulary of the statements *)

(** The world [stopSlideshow] leaves, statement by statement. *)
Definition narration_paused (w : World) : World :=
  match currentAudio w with
  | Some a =>
      set_currentAudio None
        (set_calls (calls w ++ [pause a])
           (set_audios (alter (set_paused true) a (audios w)) w))
  | None => w
  end.

Definition instrumental_paused (w : World) : World :=
  match currentInstrumentalAudio w with
  | Some a =>
      set_currentInstrumentalAudio None
        (set_calls (calls w ++ [pause a])
           (set_audios (alter (set_paused true) a (audios w)) w))
  | None => w
  end.

Definition speech_cancelled (w : World) : World :=
  match speechQueue w with
  | [] => w
  | _ :: _ =>
      set_calls (calls w ++ [cancel])
        (set_speechQueue []
           (set_cancelledUtterances (cancelledUtterances w ++ speechQueue w) w))
  end.

Definition stop_result (w : World) : World :=
  speech_cancelled
    (instrumental_paused
       (narration_paused
          (set_body_slideshow_paused true (set_isPlaying false w)))).

Definition pause_handle (h : option AudioId) (l : list AudioEl) : list AudioEl :=
  match h with
  | Some a => alter (set_paused true) a l
  | None => l
  end.

(** No audio element is playing and no utterance is queued. *)
Definition quiet (w : World) : Prop :=
  (forall a el, audios w !! a = Some el -> paused el = true)
  /\ speechQueue w = [].

(** Every playing audio element is the one behind a global handle. *)
Definition handles_cover (w : World) : Prop :=
  forall a el, audios w !! a = Some el -> paused el = false ->
    currentAudio w = Some a \/ currentInstrumentalAudio w = Some a.

(** Session [sid] holds a live resource: a queued utterance whose handlers
    belong to it, or a playing audio element it acquired. *)
Definition holds (w : World) (sid : ActivationId) : Prop :=
  (exists u, u ∈ speechQueue w /\ u_activation u = sid)
  \/ (exists a el, audios w !! a = Some el /\ paused el = false
                   /\ a_owner el = Some sid).

Definition at_most_one_session (w : World) : Prop :=
  forall s1 s2, holds w s1 -> holds w s2 -> s1 = s2.

(** All live resources are reachable from the global handles and were
    acquired by activation [sid]. *)
Definition owned_by (sid : ActivationId) (w : World) : Prop :=
  (forall a el, audios w !! a = Some el -> paused el = false ->
     (currentAudio w = Some a \/ currentInstrumentalAudio w = Some a)
     /\ a_owner el = Some sid)
  /\ (forall u, u ∈ speechQueue w -> u_activation u = sid).

Definition session_inv (w : World) : Prop := exists sid, owned_by sid w.

(** The part of the world that playback consists of. *)
Definition playback_state (w : World)
  : bool * bool * option AudioId * option AudioId * list AudioEl * list Utterance :=
  (isPlaying w, body_slideshow_paused w, currentAudio w,
   currentInstrumentalAudio w, audios w, speechQueue w).

(** The state [stopSlideshow] establishes. *)
Definition stopped (w : World) : Prop :=
  isPlaying w = false /\ body_slideshow_paused w = true
  /\ currentAudio w = None /\ currentInstrumentalAudio w = None
  /\ speechQueue w = [].

(** *** A sample page

    Two saved items: a narrated-audio item of four slides and a
    browser-speech item whose middle slide has no text; one beat element;
    nothing active, nothing playing. *)
Definition sample_slide (text : string) : SlideData :=
  mkSlideData (lit text) (lit "data:image/png").

Definition sample_song : TikTok :=
  mkTikTok (lit "1700000000002")
    [sample_slide "one"; sample_slide "two"; sample_slide "three";
     sample_slide "four"]
    (Some (lit "data:audio/mpeg;vocals"))
    (Some (lit "data:audio/mpeg;instrumental")) None false None.

Definition sample_speech : TikTok :=
  mkTikTok (lit "1700000000001")
    [sample_slide "Hello"; sample_slide "  "; sample_slide "World"]
    None None (Some (lit "beat-upbeat")) true (Some (lit "Alice")).

Definition sample_container (t : TikTok) : Container :=
  mkContainer (Some (id t)) (Some (map (fun _ => mkSlideEl false) (slides t))).

Definition sample_beat : AudioEl :=
  mkAudioEl (Some (lit "beat-upbeat")) (lit "beat-upbeat.mp3") true 0%Q NaN
    true 1%Q None None None.

Definition sample_world : World :=
  mkWorld false [sample_song; sample_speech] None None None None []
    false overflow_auto [sample_container sample_song; sample_container sample_speech]
    [] true true [sample_beat] [] [] [] [lit "Bob"; lit "Alice"] [].

(** The ids [generate] gives to [instrumentalId]: the results of
    [selectBeatForStyle]. *)
Definition beat_ids : list jsstring :=
  [lit "beat-upbeat"; lit "beat-ballad"; lit "beat-epic"].

(** The world [start_instrumental] leaves. *)
Definition beat_started (sid : ActivationId) (a : AudioId) (w : World) : World :=
  set_calls ((calls w ++ [load a]) ++ [play a])
    (set_audios
       (alter (set_paused false)
          a (alter (fun el => set_error None (set_duration NaN
                      (set_currentTime 0%Q (set_paused true el))))
          a (alter (set_volume (literal (1 # 5)))
          a (alter (set_currentTime 0%Q)
          a (alter (set_a_owner (Some sid)) a (audios w))))))
       (set_currentInstrumentalAudio (Some a) w)).

Definition track_started (sid : ActivationId) (src : jsstring) (w : World)
  : World :=
  let a := length (audios w) in
  set_calls (calls w ++ [play a])
    (set_audios
       (alter (set_paused false)
          a (alter (set_volume (literal (2 # 5)))
          a (alter (set_loop true)
          a (alter (set_a_owner (Some sid)) a (audios w ++ [blank_audio src])))))
       (set_currentInstrumentalAudio (Some a) w)).

Definition instrumental_result (tiktok : TikTok) (sid : ActivationId) (w : World)
  : World :=
  if truthy (instrumentalId tiktok) then
    match querySelector_audio (default [] (instrumentalId tiktok)) w with
    | Some a => beat_started sid a w
    | None => w
    end
  else if truthy (instrumentalSrc tiktok) then
    track_started sid (default [] (instrumentalSrc tiktok)) w
  else w.

(** The world the narrated-audio branch of [start_narration] leaves. *)
Definition song_started (sid : ActivationId) (src : jsstring) (w : World)
  : World :=
  let a := length (audios w) in
  set_calls (calls w ++ [play a])
    (set_audios
       (alter (set_a_listener (Some sid))
          a (alter (set_paused false)
          a (alter (set_a_owner (Some sid)) a (audios w ++ [blank_audio src]))))
       (set_currentAudio (Some a) w)).

(** A slide without text to speak: [!lyrics?.trim()]. *)
Definition blank (s : SlideData) : bool :=
  match trim (lyrics s) with
  | [] => true
  | _ :: _ => false
  end.

(** The world after [slider.children[i]?.scrollIntoView()]. *)
Definition scroll_result (c : ContainerId) (i : nat) (w : World) : World :=
  match slider_children w c !! i with
  | Some _ => set_calls (calls w ++ [scrollIntoView c i]) w
  | None => w
  end.

Definition set_cursor (sid : ActivationId) (i : nat) (w : World) : World :=
  set_activations (alter (set_currentSlideIndex i) sid (activations w)) w.

Definition spoken (u : Utterance) (w : World) : World :=
  set_calls (calls w ++ [speak u]) (set_speechQueue (speechQueue w ++ [u]) w).

(** One run of [speakAndAdvance] while playing, as a recursion over the
    slides [rest] from the cursor [i] on: scroll to the slide; skip it when
    blank; speak it otherwise; stop when there is none left. *)
Fixpoint narrate_from (rest : list SlideData) (sid : ActivationId)
    (tiktok : TikTok) (c : ContainerId) (i : nat) (w : World) : World :=
  match rest with
  | [] => stop_result w
  | s :: rest' =>
      let w1 := scroll_result c i w in
      if blank s
      then narrate_from rest' sid tiktok c (S i) (set_cursor sid (S i) w1)
      else spoken (mkUtterance (lyrics s) (selectedVoice tiktok w1) sid) w1
  end.

Definition speak_result (sid : ActivationId) (w : World) : World :=
  match activations w !! sid with
  | None => w
  | Some act =>
      if isPlaying w
      then narrate_from (drop (currentSlideIndex act) (slides (act_tiktok act)))
             sid (act_tiktok act) (act_slider act) (currentSlideIndex act) w
      else stop_result w
  end.

(** The world [start_session] leaves: flags set, instrumental started,
    narration begun. *)
Definition narration_result (tiktok : TikTok) (sid : ActivationId) (w : World)
  : World :=
  if useBrowserTTS tiktok then speak_result sid w
  else if truthy (songSrc tiktok)
       then song_started sid (default [] (songSrc tiktok)) w
       else w.

Definition session_result (tiktok : TikTok) (sid : ActivationId) (w : World)
  : World :=
  narration_result tiktok sid
    (instrumental_result tiktok sid
       (set_body_slideshow_paused false (set_isPlaying true w))).

(** The world with the activation record of a new call of [startSlideshow]. *)
Definition activated (tiktok : TikTok) (slider : ContainerId) (w : World)
  : World :=
  set_activations (activations w ++ [mkActivation tiktok slider 0 (Fin (-1))]) w.

Definition start_result (w : World) : World :=
  match start_target w with
  | None => w
  | Some (slider, tiktok) =>
      session_result tiktok (length (activations w))
        (stop_result (activated tiktok slider w))
  end.

Definition popup (message : jsstring) (w : World) : World :=
  set_errorModal_hidden false
    (set_modalOverlay_hidden false (set_errorModalMessage message w)).

(** [currentSlideIndex++] in activation [sid]. *)
Definition bump (sid : ActivationId) (w : World) : World :=
  set_activations
    (alter (fun act => set_currentSlideIndex (S (currentSlideIndex act)) act)
       sid (activations w)) w.

(** The slide-level observer after [slideObserver.disconnect()]. *)
Definition disconnected (w : World) : World :=
  match slideObserver w with
  | Some o => set_observers (<[o := []]> (observers w)) w
  | None => w
  end.

(** The slide elements of container [c]: children [0 .. n-1] of its slider. *)
Definition slide_refs (c : ContainerId) (n : nat) : list SlideRef :=
  map (pair c) (seq 0 n).

(** The outcome of [setupSlideObserverForActiveTikTok]. *)
Definition setup_result (w : World) : Res unit :=
  let w1 := disconnected w in
  match activeTikTokContainer w1 with
  | None => Done tt w1
  | Some c =>
      let o := length (observers w1) in
      let w2 := set_slideObserver (Some o)
                  (set_observers (observers w1 ++ [[]]) w1) in
      match horizontal_slider (container_at w1 c) with
      | None => Throw TypeError w2
      | Some children =>
          Done tt (set_observers
                     (observers w1 ++ [slide_refs c (length children)]) w2)
      end
  end.

(** The outcome of the item-level callback on one entry. *)
Definition entry_result (entry : ContainerId * bool) (w : World) : Res unit :=
  if snd entry && bool_decide (activeTikTokContainer w <> Some (fst entry))
  then setup_result
         (set_activeTikTokContainer (Some (fst entry)) (stop_result w))
  else Done tt w.

(** [!slide.previousElementSibling || !slide.nextElementSibling]. *)
Definition at_edge (w : World) (slide : SlideRef) : bool :=
  negb (bool_decide (is_Some (previousElementSibling w slide)))
  || negb (bool_decide (is_Some (nextElementSibling w slide))).

(** The world after [classList.toggle('is-visible', force)] on [slide]. *)
Definition toggled (slide : SlideRef) (force : bool) (w : World) : World :=
  set_containers
    (alter (fun ct =>
       mkContainer (dataset_tiktokId ct)
         (alter (fun _ => mkSlideEl force) (snd slide) <$> horizontal_slider ct))
       (fst slide) (containers w)) w.

Fixpoint marked (entries : list (SlideRef * bool)) (w : World) : World :=
  match entries with
  | [] => w
  | (slide, isIntersecting) :: rest => marked rest (toggled slide isIntersecting w)
  end.

(** Some intersecting slide of the batch has no previous or no next
    sibling. *)
Definition batch_at_bounds (w : World) (entries : list (SlideRef * bool)) : bool :=
  existsb (fun e => snd e && at_edge w (fst e)) entries.

(** [x <= y] on numbers, false when one of them is NaN. *)
Definition num_le (x y : number) : Prop :=
  match x, y with
  | NaN, _ | _, NaN => False
  | NegInf, _ => True
  | _, PosInf => True
  | Fin a, Fin b => (a <= b)%Q
  | _, _ => False
  end.

(** The slide a time-progress sample points at:
    [Math.floor(currentTime / (duration / slides.length))], both quotients
    rounded to binary64. *)
Definition target_index (el : AudioEl) (n : nat) : number :=
  num_floor (num_div (Fin (currentTime el)) (num_div (duration el) (of_nat n))).

Definition scroll_result_opt (c : ContainerId) (i : option nat) (w : World)
  : World :=
  match i with
  | Some i => scroll_result c i w
  | None => w
  end.

(** The world the ['timeupdate'] listener of activation [sid] leaves. *)
Definition timeupdate_result (sid : ActivationId) (w : World) : World :=
  match activations w !! sid, currentAudio w with
  | Some act, Some a =>
      let el := audio_at w a in
      if paused el || num_falsy (duration el) then w
      else
        let n := length (slides (act_tiktok act)) in
        let index := target_index el n in
        if num_neq index (lastSlideIndex act) && num_lt index (of_nat n)
        then
          let w1 := scroll_result_opt (act_slider act) (as_index index) w in
          set_activations
            (alter (set_lastSlideIndex index) sid (activations w1)) w1
        else w
  | _, _ => w
  end.

(** The message [currentAudio.onerror] shows. *)
Definition audio_error_message (w : World) : jsstring :=
  lit "Vocal playback failed:" ++ [10%N] ++
  match currentAudio w with
  | Some a =>
      match error (audio_at w a) with
      | Some e => me_message e ++ lit " (code: " ++ decimal (me_code e) ++ lit ")"
      | None => lit "An unknown error occurred."
      end
  | None => lit "An unknown error occurred."
  end.

(** Audio, handles and speech queue are the same in both worlds. *)
Definition same_media (w w' : World) : Prop :=
  audios w' = audios w
  /\ currentAudio w' = currentAudio w
  /\ currentInstrumentalAudio w' = currentInstrumentalAudio w
  /\ speechQueue w' = speechQueue w.

(** Events the browser delivers for resources that are still live, and
    calls of the program's own entry points: everything except the ['end']
    event of an utterance that [cancel] removed. *)
Definition natural (e : Event) : Prop := e <> CancelledSpeechEnd.

(** Calls that release a resource. *)
Definition is_release (c : Call) : bool :=
  match c with
  | pause _ | cancel => true
  | _ => false
  end.

(** The utterances handed to [speechSynthesis.speak], and the slides
    scrolled into view, in call order. *)
Fixpoint speaks (l : list Call) : list Utterance :=
  match l with
  | [] => []
  | speak u :: l' => u :: speaks l'
  | _ :: l' => speaks l'
  end.

Fixpoint scrolls (l : list Call) : list (ContainerId * nat) :=
  match l with
  | [] => []
  | scrollIntoView c i :: l' => (c, i) :: scrolls l'
  | _ :: l' => scrolls l'
  end.

(** Slides without text at the head of [rest]. *)
Fixpoint leading_blanks (rest : list SlideData) : nat :=
  match rest with
  | s :: rest' => if blank s then S (leading_blanks rest') else 0
  | [] => 0
  end.

(** The first slide of [rest] that has text. *)
Fixpoint first_text (rest : list SlideData) : option SlideData :=
  match rest with
  | s :: rest' => if blank s then first_text rest' else Some s
  | [] => None
  end.

(** Indices the cursor visits when it starts at [i] with slides [rest]
    ahead: every blank slide, and the first slide with text. *)
Fixpoint reached (rest : list SlideData) (i : nat) : list nat :=
  match rest with
  | s :: rest' => i :: (if blank s then reached rest' (S i) else [])
  | [] => []
  end.

(** The utterance [speakAndAdvance] of activation [sid] builds for a slide. *)
Definition utterance_for (tiktok : TikTok) (sid : ActivationId) (w : World)
    (s : SlideData) : Utterance :=
  mkUtterance (lyrics s) (selectedVoice tiktok w) sid.

(** What does not change while an item plays. *)
Definition same_page (w w' : World) : Prop :=
  containers w' = containers w
  /\ voices w' = voices w
  /\ savedTikToks w' = savedTikToks w
  /\ activeTikTokContainer w' = activeTikTokContainer w
  /\ slideObserver w' = slideObserver w
  /\ observers w' = observers w.

(** Activation [sid] of item [tiktok] on slider [c] is speaking slide [i]:
    playback is on, the cursor is at [i], slide [i] has text, and its
    utterance is the only one queued.  [w0] is the world the session was
    started from. *)
Definition speech_live (sid : ActivationId) (tiktok : TikTok) (c : ContainerId)
    (i : nat) (w0 w : World) : Prop :=
  isPlaying w = true
  /\ same_page w0 w
  /\ (exists act,
        activations w !! sid = Some act /\ act_tiktok act = tiktok
        /\ act_slider act = c /\ currentSlideIndex act = i)
  /\ (exists s,
        slides tiktok !! i = Some s /\ blank s = false
        /\ speechQueue w = [utterance_for tiktok sid w0 s]).

(** The outcome of one run of [speakAndAdvance] in a session: where the
    cursor stops, or that the session has ended; which utterance was handed
    over; and, when the slider has an element for every slide, which slides
    were scrolled into view. *)
Definition narrated (sid : ActivationId) (tiktok : TikTok) (c : ContainerId)
    (i : nat) (w0 x w' : World) : Prop :=
  let rest := drop i (slides tiktok) in
  (length (slides tiktok) <= length (slider_children w0 c) ->
   scrolls (calls w')
   = scrolls (calls x) ++ map (pair c) (seq i (length (reached rest i))))
  /\ match first_text rest with
     | Some s =>
         speaks (calls w') = speaks (calls x) ++ [utterance_for tiktok sid w0 s]
         /\ speech_live sid tiktok c (i + leading_blanks rest) w0 w'
     | None =>
         speaks (calls w') = speaks (calls x)
         /\ stopped w' /\ same_page w0 w'
     end.

(** A fatal error: [message] is shown in the error modal, the session is
    stopped, nothing plays and nothing is queued, and the only calls made
    release resources (nothing is played or spoken again). *)
Definition fatal_outcome (message : jsstring) (w w' : World) : Prop :=
  errorModalMessage w' = message
  /\ errorModal_hidden w' = false /\ modalOverlay_hidden w' = false
  /\ stopped w' /\ quiet w'
  /\ exists released,
       calls w' = calls w ++ released /\ forallb is_release released = true.


(** Every slide scrolled into view between [w] and [w'] has text. *)
Definition scrolls_only_text (tiktok : TikTok) (w w' : World) : Prop :=
  forall c i,
    In (c, i) (scrolls (calls w')) -> ~ In (c, i) (scrolls (calls w)) ->
    exists s, slides tiktok !! i = Some s /\ blank s = false.

(** The events that play the sample song: the item becomes active, a tap
    starts it, its narration element (audio 2) reports a duration of 20
    seconds. *)
Definition song_playing : World :=
  run [ItemsIntersect [(0, true)]; Tap; LoadedMetadata 2 (Fin 20)] sample_world.

(** A narrated-audio item of fourteen slides, alone on its page, playing:
    its narration element (audio 2) reports a duration of 18 seconds. *)
Definition long_song : TikTok :=
  mkTikTok (lit "1700000000003") (repeat (sample_slide "la") 14)
    (Some (lit "data:audio/mpeg;vocals"))
    (Some (lit "data:audio/mpeg;instrumental")) None false None.

Definition long_song_playing : World :=
  run [ItemsIntersect [(0, true)]; Tap; LoadedMetadata 2 (Fin 18)]
    (mkWorld false [long_song] None None None None []
       false overflow_auto [sample_container long_song]
       [] true true [sample_beat] [] [] [] [] []).

(** The last-displayed index recorded by the first activation. *)
Definition displayed (w : World) : option number :=
  lastSlideIndex <$> activations w !! 0.




(** The sample speech item is active and its first utterance is being
    spoken. *)
Definition speech_playing : World :=
  run [ItemsIntersect [(1, true)]; Tap] sample_world.

(** Only the observer bound to [slideObserver] has targets. *)
Definition observers_bound (w : World) : Prop :=
  forall o ts, observers w !! o = Some ts -> ts <> [] -> slideObserver w = Some o.

(** The [isIntersecting] flag of the last entry for [slide] in a batch, or
    [b0] when the batch has none. *)
Fixpoint last_flag (entries : list (SlideRef * bool)) (slide : SlideRef)
    (b0 : bool) : bool :=
  match entries with
  | [] => b0
  | (s, b) :: rest =>
      last_flag rest slide (if bool_decide (s = slide) then b else b0)
  end.

(** ** The rest of the page

    The functions around the playback code: the choice of a beat for a
    generated item, the error modal, the insertion of items into the feed,
    and the replay control. *)

(** [s.includes(sub)]. *)
Fixpoint starts_with (sub s : jsstring) : bool :=
  match sub, s with
  | [], _ => true
  | _ :: _, [] => false
  | x :: sub', y :: s' => (x =? y)%N && starts_with sub' s'
  end.

Fixpoint includes (s sub : jsstring) : bool :=
  starts_with sub s
  || match s with
     | [] => false
     | _ :: s' => includes s' sub
     end.

Section BeatSelection.

(** [String.prototype.toLowerCase], whose Unicode case tables are not
    part of the program. *)
Variable toLowerCase : jsstring -> jsstring.

Definition selectBeatForStyle (style : jsstring) : jsstring :=
  let lowerStyle := toLowerCase style in
  if includes lowerStyle (lit "upbeat")
     || includes lowerStyle (lit "pop")
     || includes lowerStyle (lit "happy")
     || includes lowerStyle (lit "rock")
  then lit "beat-upbeat"
  else if includes lowerStyle (lit "ballad")
          || includes lowerStyle (lit "gentle")
          || includes lowerStyle (lit "slow")
          || includes lowerStyle (lit "acoustic")
  then lit "beat-ballad"
  else if includes lowerStyle (lit "epic")
          || includes lowerStyle (lit "cinematic")
          || includes lowerStyle (lit "score")
  then lit "beat-epic"
  else lit "beat-upbeat".

End BeatSelection.

(** Lower-casing of the letters A to Z, the part of [toLowerCase] that ASCII
    text needs. *)
Definition ascii_toLowerCase (s : jsstring) : jsstring :=
  map (fun c => if (65 <=? c)%N && (c <=? 90)%N then (c + 32)%N else c) s.

(** [closeErrorPopup]. *)
Definition closeErrorPopup : M unit :=
  modify (set_modalOverlay_hidden true) ;;
  modify (set_errorModal_hidden true).

(** State of the page beside the [World]: the item-level observer
    ([None] while the binding [tiktokObserver] is still undefined, else the
    containers it observes), the children of [#slideshow] from the first to
    the last, the [element] property of the items (by item id), the pending
    [setTimeout(startSlideshow, 500)] callbacks, and the sliders on which
    [scrollTo({left: 0})] was called. *)
Record Page : Type := mkPage {
  world : World;
  tiktokObserver : option (list ContainerId);
  feed : list ContainerId;
  element_of : list (jsstring * ContainerId);
  timers : nat;
  scrollTo_calls : list ContainerId
}.

Inductive PageRes : Type :=
| PageDone (p : Page)
| PageThrow (e : Exn) (p : Page).

Definition page_of (r : PageRes) : Page :=
  match r with
  | PageDone p => p
  | PageThrow _ p => p
  end.

Definition set_world (w : World) (p : Page) : Page :=
  mkPage w (tiktokObserver p) (feed p) (element_of p) (timers p)
    (scrollTo_calls p).

(** Run a function of the playback code on the page. *)
Definition on_world (c : M unit) (p : Page) : PageRes :=
  match c (world p) with
  | Done _ w => PageDone (set_world w p)
  | Throw e w => PageThrow e (set_world w p)
  end.

(** [setupTikTokObserver]. *)
Definition setupTikTokObserver (p : Page) : PageRes :=
  PageDone (mkPage (world p) (Some []) (feed p) (element_of p) (timers p)
              (scrollTo_calls p)).

(** The container [addTikTokToFeed] builds: the item's id in its data
    attribute and a slider with one slide element per slide. *)
Definition tiktokContainer_for (tiktok : TikTok) : Container :=
  mkContainer (Some (id tiktok))
    (Some (map (fun _ => mkSlideEl false) (slides tiktok))).

(** [addTikTokToFeed]: build the container, prepend it to the feed, observe
    it, and store it in [tiktok.element]. *)
Definition addTikTokToFeed (tiktok : TikTok) (p : Page) : PageRes :=
  let w := world p in
  let c := length (containers w) in
  let p1 :=
    mkPage (set_containers (containers w ++ [tiktokContainer_for tiktok]) w)
      (tiktokObserver p) (c :: feed p) (element_of p) (timers p)
      (scrollTo_calls p) in
  match tiktokObserver p1 with
  | None => PageThrow TypeError p1
  | Some targets =>
      PageDone (mkPage (world p1) (Some (targets ++ [c])) (feed p1)
                  ((id tiktok, c) :: element_of p1) (timers p1)
                  (scrollTo_calls p1))
  end.

Fixpoint page_forEach {A} (l : list A) (f : A -> Page -> PageRes) (p : Page)
  : PageRes :=
  match l with
  | [] => PageDone p
  | x :: l' =>
      match f x p with
      | PageDone p' => page_forEach l' f p'
      | PageThrow e p' => PageThrow e p'
      end
  end.

(** [[...savedTikToks].reverse().forEach(addTikTokToFeed)], the statement of
    [loadHistoryFromDB] that fills the feed. *)
Definition feed_history (p : Page) : PageRes :=
  page_forEach (rev (savedTikToks (world p))) addTikTokToFeed p.

(** [handleReplay]. *)
Definition handleReplay (p : Page) : PageRes :=
  match activeTikTokContainer (world p) with
  | None => PageDone p
  | Some c =>
      let p1 :=
        match horizontal_slider (container_at (world p) c) with
        | Some _ =>
            mkPage (world p) (tiktokObserver p) (feed p) (element_of p)
              (timers p) (scrollTo_calls p ++ [c])
        | None => p
        end in
      match on_world stopSlideshow p1 with
      | PageDone p2 =>
          PageDone (mkPage (world p2) (tiktokObserver p2) (feed p2)
                      (element_of p2) (S (timers p2)) (scrollTo_calls p2))
      | PageThrow e p2 => PageThrow e p2
      end
  end.

(** A pending timer of [handleReplay] fires: [startSlideshow()]. *)
Definition replay_timer (p : Page) : PageRes :=
  match timers p with
  | 0 => PageDone p
  | S n =>
      on_world startSlideshow
        (mkPage (world p) (tiktokObserver p) (feed p) (element_of p) n
           (scrollTo_calls p))
  end.

(** Where a click on the feed landed: on the replay icon, on another action
    icon, or outside every action icon. *)
Inductive ClickTarget : Type :=
| replay_btn
| other_action_icon
| feed_surface.

(** The click listener of [#slideshow]. *)
Definition slideshow_click (target : ClickTarget) (p : Page) : PageRes :=
  match target with
  | replay_btn => handleReplay p
  | other_action_icon => PageDone p
  | feed_surface => on_world tap p
  end.

(** ** Settings, theme and the entry to generation

    The functions of the page outside the playback engine that run without
    waiting for the network: the API-key form, the theme switch, the voice
    list, and [generate] up to its first [await]. *)

(** A Gemini client, as far as the page is concerned: the key it was made
    with. *)
Record GoogleGenAI : Type := mkGoogleGenAI { apiKey : jsstring }.

(** [#theme-toggle]: the [style.display] of its [.sun-icon] and [.moon-icon]
    children, [None] where [querySelector] finds no such child. *)
Record ThemeToggle : Type := mkThemeToggle {
  sun_icon : option jsstring;
  moon_icon : option jsstring
}.

Record Panel : Type := mkPanel {
  (* playback *)
  panel_world : World;                     (* the playback state of the page *)
  (* module-level bindings *)
  geminiApiKey : option jsstring;
  elevenLabsApiKey : option jsstring;
  ai : option GoogleGenAI;                 (* [None]: undefined *)
  isGenerating : bool;
  (* browser *)
  localStorage : gmap jsstring jsstring;
  (* document *)
  body_light_mode : bool;                  (* body has class 'light-mode' *)
  themeToggle : option ThemeToggle;        (* [None]: no #theme-toggle *)
  geminiApiKeyInput : jsstring;            (* value of #gemini-api-key *)
  elevenLabsApiKeyInput : jsstring;        (* value of #elevenlabs-api-key *)
  apiKeyModal_hidden : bool;
  geminiFormGroup_hidden : bool;
  elevenLabsFormGroup_hidden : bool;
  apiModalMessage : jsstring;
  userInput : jsstring;                    (* value of #input *)
  userInput_focus : nat;                   (* calls of userInput.focus() *)
  characterInput : jsstring;               (* value of #character-input *)
  voiceSelector : jsstring;                (* value of #voice-selector *)
  generateBtn_disabled : bool;
  generateBtn_textContent : jsstring;
  error_innerHTML : jsstring;
  error_hidden : bool;
  initialMessage_hidden : bool;
  slideshow_hidden : bool
}.

Definition with_panel_world (v : World) (p : Panel) : Panel :=
  mkPanel v (geminiApiKey p) (elevenLabsApiKey p) (ai p) (isGenerating p)
    (localStorage p) (body_light_mode p) (themeToggle p) (geminiApiKeyInput
    p) (elevenLabsApiKeyInput p) (apiKeyModal_hidden p)
    (geminiFormGroup_hidden p) (elevenLabsFormGroup_hidden p)
    (apiModalMessage p) (userInput p) (userInput_focus p) (characterInput p)
    (voiceSelector p) (generateBtn_disabled p) (generateBtn_textContent p)
    (error_innerHTML p) (error_hidden p) (initialMessage_hidden p)
    (slideshow_hidden p).

Definition with_geminiApiKey (v : option jsstring) (p : Panel) : Panel :=
  mkPanel (panel_world p) v (elevenLabsApiKey p) (ai p) (isGenerating p)
    (localStorage p) (body_light_mode p) (themeToggle p) (geminiApiKeyInput
    p) (elevenLabsApiKeyInput p) (apiKeyModal_hidden p)
    (geminiFormGroup_hidden p) (elevenLabsFormGroup_hidden p)
    (apiModalMessage p) (userInput p) (userInput_focus p) (characterInput p)
    (voiceSelector p) (generateBtn_disabled p) (generateBtn_textContent p)
    (error_innerHTML p) (error_hidden p) (initialMessage_hidden p)
    (slideshow_hidden p).

Definition with_elevenLabsApiKey (v : option jsstring) (p : Panel) : Panel :=
  mkPanel (panel_world p) (geminiApiKey p) v (ai p) (isGenerating p)
    (localStorage p) (body_light_mode p) (themeToggle p) (geminiApiKeyInput
    p) (elevenLabsApiKeyInput p) (apiKeyModal_hidden p)
    (geminiFormGroup_hidden p) (elevenLabsFormGroup_hidden p)
    (apiModalMessage p) (userInput p) (userInput_focus p) (characterInput p)
    (voiceSelector p) (generateBtn_disabled p) (generateBtn_textContent p)
    (error_innerHTML p) (error_hidden p) (initialMessage_hidden p)
    (slideshow_hidden p).

Definition with_ai (v : option GoogleGenAI) (p : Panel) : Panel :=
  mkPanel (panel_world p) (geminiApiKey p) (elevenLabsApiKey p) v
    (isGenerating p) (localStorage p) (body_light_mode p) (themeToggle p)
    (geminiApiKeyInput p) (elevenLabsApiKeyInput p) (apiKeyModal_hidden p)
    (geminiFormGroup_hidden p) (elevenLabsFormGroup_hidden p)
    (apiModalMessage p) (userInput p) (userInput_focus p) (characterInput p)
    (voiceSelector p) (generateBtn_disabled p) (generateBtn_textContent p)
    (error_innerHTML p) (error_hidden p) (initialMessage_hidden p)
    (slideshow_hidden p).

Definition with_isGenerating (v : bool) (p : Panel) : Panel :=
  mkPanel (panel_world p) (geminiApiKey p) (elevenLabsApiKey p) (ai p) v
    (localStorage p) (body_light_mode p) (themeToggle p) (geminiApiKeyInput
    p) (elevenLabsApiKeyInput p) (apiKeyModal_hidden p)
    (geminiFormGroup_hidden p) (elevenLabsFormGroup_hidden p)
    (apiModalMessage p) (userInput p) (userInput_focus p) (characterInput p)
    (voiceSelector p) (generateBtn_disabled p) (generateBtn_textContent p)
    (error_innerHTML p) (error_hidden p) (initialMessage_hidden p)
    (slideshow_hidden p).

Definition with_localStorage (v : gmap jsstring jsstring) (p : Panel) : Panel :=
  mkPanel (panel_world p) (geminiApiKey p) (elevenLabsApiKey p) (ai p)
    (isGenerating p) v (body_light_mode p) (themeToggle p)
    (geminiApiKeyInput p) (elevenLabsApiKeyInput p) (apiKeyModal_hidden p)
    (geminiFormGroup_hidden p) (elevenLabsFormGroup_hidden p)
    (apiModalMessage p) (userInput p) (userInput_focus p) (characterInput p)
    (voiceSelector p) (generateBtn_disabled p) (generateBtn_textContent p)
    (error_innerHTML p) (error_hidden p) (initialMessage_hidden p)
    (slideshow_hidden p).

Definition with_body_light_mode (v : bool) (p : Panel) : Panel :=
  mkPanel (panel_world p) (geminiApiKey p) (elevenLabsApiKey p) (ai p)
    (isGenerating p) (localStorage p) v (themeToggle p) (geminiApiKeyInput
    p) (elevenLabsApiKeyInput p) (apiKeyModal_hidden p)
    (geminiFormGroup_hidden p) (elevenLabsFormGroup_hidden p)
    (apiModalMessage p) (userInput p) (userInput_focus p) (characterInput p)
    (voiceSelector p) (generateBtn_disabled p) (generateBtn_textContent p)
    (error_innerHTML p) (error_hidden p) (initialMessage_hidden p)
    (slideshow_hidden p).

Definition with_themeToggle (v : option ThemeToggle) (p : Panel) : Panel :=
  mkPanel (panel_world p) (geminiApiKey p) (elevenLabsApiKey p) (ai p)
    (isGenerating p) (localStorage p) (body_light_mode p) v
    (geminiApiKeyInput p) (elevenLabsApiKeyInput p) (apiKeyModal_hidden p)
    (geminiFormGroup_hidden p) (elevenLabsFormGroup_hidden p)
    (apiModalMessage p) (userInput p) (userInput_focus p) (characterInput p)
    (voiceSelector p) (generateBtn_disabled p) (generateBtn_textContent p)
    (error_innerHTML p) (error_hidden p) (initialMessage_hidden p)
    (slideshow_hidden p).

Definition with_geminiApiKeyInput (v : jsstring) (p : Panel) : Panel :=
  mkPanel (panel_world p) (geminiApiKey p) (elevenLabsApiKey p) (ai p)
    (isGenerating p) (localStorage p) (body_light_mode p) (themeToggle p) v
    (elevenLabsApiKeyInput p) (apiKeyModal_hidden p) (geminiFormGroup_hidden
    p) (elevenLabsFormGroup_hidden p) (apiModalMessage p) (userInput p)
    (userInput_focus p) (characterInput p) (voiceSelector p)
    (generateBtn_disabled p) (generateBtn_textContent p) (error_innerHTML p)
    (error_hidden p) (initialMessage_hidden p) (slideshow_hidden p).

Definition with_elevenLabsApiKeyInput (v : jsstring) (p : Panel) : Panel :=
  mkPanel (panel_world p) (geminiApiKey p) (elevenLabsApiKey p) (ai p)
    (isGenerating p) (localStorage p) (body_light_mode p) (themeToggle p)
    (geminiApiKeyInput p) v (apiKeyModal_hidden p) (geminiFormGroup_hidden
    p) (elevenLabsFormGroup_hidden p) (apiModalMessage p) (userInput p)
    (userInput_focus p) (characterInput p) (voiceSelector p)
    (generateBtn_disabled p) (generateBtn_textContent p) (error_innerHTML p)
    (error_hidden p) (initialMessage_hidden p) (slideshow_hidden p).

Definition with_apiKeyModal_hidden (v : bool) (p : Panel) : Panel :=
  mkPanel (panel_world p) (geminiApiKey p) (elevenLabsApiKey p) (ai p)
    (isGenerating p) (localStorage p) (body_light_mode p) (themeToggle p)
    (geminiApiKeyInput p) (elevenLabsApiKeyInput p) v
    (geminiFormGroup_hidden p) (elevenLabsFormGroup_hidden p)
    (apiModalMessage p) (userInput p) (userInput_focus p) (characterInput p)
    (voiceSelector p) (generateBtn_disabled p) (generateBtn_textContent p)
    (error_innerHTML p) (error_hidden p) (initialMessage_hidden p)
    (slideshow_hidden p).

Definition with_geminiFormGroup_hidden (v : bool) (p : Panel) : Panel :=
  mkPanel (panel_world p) (geminiApiKey p) (elevenLabsApiKey p) (ai p)
    (isGenerating p) (localStorage p) (body_light_mode p) (themeToggle p)
    (geminiApiKeyInput p) (elevenLabsApiKeyInput p) (apiKeyModal_hidden p) v
    (elevenLabsFormGroup_hidden p) (apiModalMessage p) (userInput p)
    (userInput_focus p) (characterInput p) (voiceSelector p)
    (generateBtn_disabled p) (generateBtn_textContent p) (error_innerHTML p)
    (error_hidden p) (initialMessage_hidden p) (slideshow_hidden p).

Definition with_elevenLabsFormGroup_hidden (v : bool) (p : Panel) : Panel :=
  mkPanel (panel_world p) (geminiApiKey p) (elevenLabsApiKey p) (ai p)
    (isGenerating p) (localStorage p) (body_light_mode p) (themeToggle p)
    (geminiApiKeyInput p) (elevenLabsApiKeyInput p) (apiKeyModal_hidden p)
    (geminiFormGroup_hidden p) v (apiModalMessage p) (userInput p)
    (userInput_focus p) (characterInput p) (voiceSelector p)
    (generateBtn_disabled p) (generateBtn_textContent p) (error_innerHTML p)
    (error_hidden p) (initialMessage_hidden p) (slideshow_hidden p).

Definition with_apiModalMessage (v : jsstring) (p : Panel) : Panel :=
  mkPanel (panel_world p) (geminiApiKey p) (elevenLabsApiKey p) (ai p)
    (isGenerating p) (localStorage p) (body_light_mode p) (themeToggle p)
    (geminiApiKeyInput p) (elevenLabsApiKeyInput p) (apiKeyModal_hidden p)
    (geminiFormGroup_hidden p) (elevenLabsFormGroup_hidden p) v (userInput
    p) (userInput_focus p) (characterInput p) (voiceSelector p)
    (generateBtn_disabled p) (generateBtn_textContent p) (error_innerHTML p)
    (error_hidden p) (initialMessage_hidden p) (slideshow_hidden p).

Definition with_userInput (v : jsstring) (p : Panel) : Panel :=
  mkPanel (panel_world p) (geminiApiKey p) (elevenLabsApiKey p) (ai p)
    (isGenerating p) (localStorage p) (body_light_mode p) (themeToggle p)
    (geminiApiKeyInput p) (elevenLabsApiKeyInput p) (apiKeyModal_hidden p)
    (geminiFormGroup_hidden p) (elevenLabsFormGroup_hidden p)
    (apiModalMessage p) v (userInput_focus p) (characterInput p)
    (voiceSelector p) (generateBtn_disabled p) (generateBtn_textContent p)
    (error_innerHTML p) (error_hidden p) (initialMessage_hidden p)
    (slideshow_hidden p).

Definition with_userInput_focus (v : nat) (p : Panel) : Panel :=
  mkPanel (panel_world p) (geminiApiKey p) (elevenLabsApiKey p) (ai p)
    (isGenerating p) (localStorage p) (body_light_mode p) (themeToggle p)
    (geminiApiKeyInput p) (elevenLabsApiKeyInput p) (apiKeyModal_hidden p)
    (geminiFormGroup_hidden p) (elevenLabsFormGroup_hidden p)
    (apiModalMessage p) (userInput p) v (characterInput p) (voiceSelector p)
    (generateBtn_disabled p) (generateBtn_textContent p) (error_innerHTML p)
    (error_hidden p) (initialMessage_hidden p) (slideshow_hidden p).

Definition with_characterInput (v : jsstring) (p : Panel) : Panel :=
  mkPanel (panel_world p) (geminiApiKey p) (elevenLabsApiKey p) (ai p)
    (isGenerating p) (localStorage p) (body_light_mode p) (themeToggle p)
    (geminiApiKeyInput p) (elevenLabsApiKeyInput p) (apiKeyModal_hidden p)
    (geminiFormGroup_hidden p) (elevenLabsFormGroup_hidden p)
    (apiModalMessage p) (userInput p) (userInput_focus p) v (voiceSelector
    p) (generateBtn_disabled p) (generateBtn_textContent p) (error_innerHTML
    p) (error_hidden p) (initialMessage_hidden p) (slideshow_hidden p).

Definition with_voiceSelector (v : jsstring) (p : Panel) : Panel :=
  mkPanel (panel_world p) (geminiApiKey p) (elevenLabsApiKey p) (ai p)
    (isGenerating p) (localStorage p) (body_light_mode p) (themeToggle p)
    (geminiApiKeyInput p) (elevenLabsApiKeyInput p) (apiKeyModal_hidden p)
    (geminiFormGroup_hidden p) (elevenLabsFormGroup_hidden p)
    (apiModalMessage p) (userInput p) (userInput_focus p) (characterInput p)
    v (generateBtn_disabled p) (generateBtn_textContent p) (error_innerHTML
    p) (error_hidden p) (initialMessage_hidden p) (slideshow_hidden p).

Definition with_generateBtn_disabled (v : bool) (p : Panel) : Panel :=
  mkPanel (panel_world p) (geminiApiKey p) (elevenLabsApiKey p) (ai p)
    (isGenerating p) (localStorage p) (body_light_mode p) (themeToggle p)
    (geminiApiKeyInput p) (elevenLabsApiKeyInput p) (apiKeyModal_hidden p)
    (geminiFormGroup_hidden p) (elevenLabsFormGroup_hidden p)
    (apiModalMessage p) (userInput p) (userInput_focus p) (characterInput p)
    (voiceSelector p) v (generateBtn_textContent p) (error_innerHTML p)
    (error_hidden p) (initialMessage_hidden p) (slideshow_hidden p).

Definition with_generateBtn_textContent (v : jsstring) (p : Panel) : Panel :=
  mkPanel (panel_world p) (geminiApiKey p) (elevenLabsApiKey p) (ai p)
    (isGenerating p) (localStorage p) (body_light_mode p) (themeToggle p)
    (geminiApiKeyInput p) (elevenLabsApiKeyInput p) (apiKeyModal_hidden p)
    (geminiFormGroup_hidden p) (elevenLabsFormGroup_hidden p)
    (apiModalMessage p) (userInput p) (userInput_focus p) (characterInput p)
    (voiceSelector p) (generateBtn_disabled p) v (error_innerHTML p)
    (error_hidden p) (initialMessage_hidden p) (slideshow_hidden p).

Definition with_error_innerHTML (v : jsstring) (p : Panel) : Panel :=
  mkPanel (panel_world p) (geminiApiKey p) (elevenLabsApiKey p) (ai p)
    (isGenerating p) (localStorage p) (body_light_mode p) (themeToggle p)
    (geminiApiKeyInput p) (elevenLabsApiKeyInput p) (apiKeyModal_hidden p)
    (geminiFormGroup_hidden p) (elevenLabsFormGroup_hidden p)
    (apiModalMessage p) (userInput p) (userInput_focus p) (characterInput p)
    (voiceSelector p) (generateBtn_disabled p) (generateBtn_textContent p) v
    (error_hidden p) (initialMessage_hidden p) (slideshow_hidden p).

Definition with_error_hidden (v : bool) (p : Panel) : Panel :=
  mkPanel (panel_world p) (geminiApiKey p) (elevenLabsApiKey p) (ai p)
    (isGenerating p) (localStorage p) (body_light_mode p) (themeToggle p)
    (geminiApiKeyInput p) (elevenLabsApiKeyInput p) (apiKeyModal_hidden p)
    (geminiFormGroup_hidden p) (elevenLabsFormGroup_hidden p)
    (apiModalMessage p) (userInput p) (userInput_focus p) (characterInput p)
    (voiceSelector p) (generateBtn_disabled p) (generateBtn_textContent p)
    (error_innerHTML p) v (initialMessage_hidden p) (slideshow_hidden p).

Definition with_initialMessage_hidden (v : bool) (p : Panel) : Panel :=
  mkPanel (panel_world p) (geminiApiKey p) (elevenLabsApiKey p) (ai p)
    (isGenerating p) (localStorage p) (body_light_mode p) (themeToggle p)
    (geminiApiKeyInput p) (elevenLabsApiKeyInput p) (apiKeyModal_hidden p)
    (geminiFormGroup_hidden p) (elevenLabsFormGroup_hidden p)
    (apiModalMessage p) (userInput p) (userInput_focus p) (characterInput p)
    (voiceSelector p) (generateBtn_disabled p) (generateBtn_textContent p)
    (error_innerHTML p) (error_hidden p) v (slideshow_hidden p).

Definition with_slideshow_hidden (v : bool) (p : Panel) : Panel :=
  mkPanel (panel_world p) (geminiApiKey p) (elevenLabsApiKey p) (ai p)
    (isGenerating p) (localStorage p) (body_light_mode p) (themeToggle p)
    (geminiApiKeyInput p) (elevenLabsApiKeyInput p) (apiKeyModal_hidden p)
    (geminiFormGroup_hidden p) (elevenLabsFormGroup_hidden p)
    (apiModalMessage p) (userInput p) (userInput_focus p) (characterInput p)
    (voiceSelector p) (generateBtn_disabled p) (generateBtn_textContent p)
    (error_innerHTML p) (error_hidden p) (initialMessage_hidden p) v.

(** Run a function of the playback code on the panel's world.
    [showErrorPopup] and [stopSlideshow], the two that are run this way,
    never throw. *)
Definition in_world (c : M unit) (p : Panel) : Panel :=
  with_panel_world (world_of (c (panel_world p))) p.

(** [localStorage.setItem(key, value)]. *)
Definition setItem (key value : jsstring) (p : Panel) : Panel :=
  with_localStorage (<[key := value]> (localStorage p)) p.

(** [Array.prototype.join]. *)
Fixpoint join (sep : jsstring) (l : list jsstring) : jsstring :=
  match l with
  | [] => []
  | [x] => x
  | x :: l' => x ++ sep ++ join sep l'
  end.

(** *** API keys *)

Definition loadApiKeys (p : Panel) : Panel :=
  let p := with_geminiApiKey (localStorage p !! lit "GEMINI_API_KEY") p in
  let p := with_elevenLabsApiKey (localStorage p !! lit "ELEVENLABS_API_KEY") p in
  let p := match geminiApiKey p with
           | Some k => if truthy (Some k) then with_geminiApiKeyInput k p else p
           | None => p
           end in
  match elevenLabsApiKey p with
  | Some k => if truthy (Some k) then with_elevenLabsApiKeyInput k p else p
  | None => p
  end.

Definition toggleApiKeyModal (show : bool) (p : Panel) : Panel :=
  let p := with_panel_world
             (set_modalOverlay_hidden (negb show) (panel_world p)) p in
  with_apiKeyModal_hidden (negb show) p.

Definition showApiKeyModalWithContext (requireGemini requireElevenLabs : bool)
    (p : Panel) : Panel :=
  let message := lit "Please enter your " in
  let missingKeys := [] in
  let p := with_geminiFormGroup_hidden (negb requireGemini) p in
  let missingKeys :=
    if requireGemini then missingKeys ++ [lit "Gemini API Key"]
    else missingKeys in
  let p := with_elevenLabsFormGroup_hidden (negb requireElevenLabs) p in
  let missingKeys :=
    if requireElevenLabs then missingKeys ++ [lit "ElevenLabs API Key"]
    else missingKeys in
  let message := message ++ join (lit " and ") missingKeys in
  let message := message ++ lit " to proceed." in
  let p := with_apiModalMessage message p in
  toggleApiKeyModal true p.

Section Client.

(** [new GoogleGenAI({apiKey})] belongs to a library: [GoogleGenAI_throws
    key] is [String(e)] for the exception [e] it throws for this key, or
    [None] when it returns a client. *)
Variable GoogleGenAI_throws : jsstring -> option jsstring.

(** [getInstructionsForSong], whose emoji pattern needs the Unicode
    tables. *)
Variable getInstructionsForSong : jsstring -> jsstring.

Definition initializeGenAI (p : Panel) : Panel :=
  match geminiApiKey p with
  | Some key =>
      if truthy (Some key)
      then match GoogleGenAI_throws key with
           | None => with_ai (Some (mkGoogleGenAI key)) p
           | Some e =>
               let p := with_ai None p in
               in_world
                 (showErrorPopup
                    (lit "Failed to initialize Gemini Client: " ++ e)) p
           end
      else with_ai None p
  | None => with_ai None p
  end.

Definition saveApiKeys (p : Panel) : Panel :=
  let geminiKey := trim (geminiApiKeyInput p) in
  let elevenLabsKey := trim (elevenLabsApiKeyInput p) in
  let p :=
    if truthy (Some geminiKey)
    then
      let p := setItem (lit "GEMINI_API_KEY") geminiKey p in
      let p := with_geminiApiKey (Some geminiKey) p in
      initializeGenAI p
    else p in
  let p :=
    if truthy (Some elevenLabsKey)
    then
      let p := setItem (lit "ELEVENLABS_API_KEY") elevenLabsKey p in
      with_elevenLabsApiKey (Some elevenLabsKey) p
    else p in
  toggleApiKeyModal false p.

(** *** [generate], up to its first [await] *)

(** How a call of [generate] goes on: it has returned, or it is suspended
    at [await ai.models.generateContent] with the request's [contents]. *)
Inductive Generation : Type :=
| Returned (p : Panel)
| Awaiting (contents : jsstring) (p : Panel).

Definition panel_of (g : Generation) : Panel :=
  match g with
  | Returned p => p
  | Awaiting _ p => p
  end.

(** The [finally] block. *)
Definition generate_finally (p : Panel) : Panel :=
  let p := with_isGenerating false p in
  let p := with_generateBtn_disabled false p in
  let p := with_generateBtn_textContent (lit "Generate TikTok") p in
  with_userInput_focus (S (userInput_focus p)) p.

Definition generate (p : Panel) : Generation :=
  let message := trim (userInput p) in
  let voiceChoice := voiceSelector p in
  if negb (truthy (Some message)) || isGenerating p then Returned p else
  let isGeminiKeyMissing := negb (truthy (geminiApiKey p)) in
  let isElevenLabsKeyNeeded := bool_decide (voiceChoice = lit "elevenlabs") in
  let isElevenLabsKeyMissing :=
    isElevenLabsKeyNeeded && negb (truthy (elevenLabsApiKey p)) in
  if isGeminiKeyMissing || isElevenLabsKeyMissing
  then Returned
         (showApiKeyModalWithContext isGeminiKeyMissing
            isElevenLabsKeyMissing p)
  else
  match ai p with
  | None =>
      let p :=
        in_world
          (showErrorPopup
             (lit "The Gemini client is not initialized. Please check your API key."))
          p in
      Returned (toggleApiKeyModal true p)
  | Some _ =>
      let p := with_isGenerating true p in
      let p := with_generateBtn_disabled true p in
      let p := with_generateBtn_textContent (lit "Generating...") p in
      let p := in_world stopSlideshow p in
      let p := with_error_innerHTML [] p in
      let p := with_error_hidden true p in
      let p := with_initialMessage_hidden true p in
      let p := with_slideshow_hidden false p in
      let finalCharacter := trim (characterInput p) in
      if negb (truthy (Some finalCharacter))
      then
        let p :=
          in_world
            (showErrorPopup (lit "Please enter or select a narrator.")) p in
        Returned (generate_finally p)
      else
        let instructions := getInstructionsForSong finalCharacter in
        Awaiting (message ++ [10%N] ++ instructions) p
  end.

End Client.

(** The checks of [generate] before it touches the page: a prompt, no
    generation in progress, the keys the chosen voice needs, and a client. *)
Definition admitted (p : Panel) : Prop :=
  trim (userInput p) <> []
  /\ isGenerating p = false
  /\ truthy (geminiApiKey p) = true
  /\ (voiceSelector p = lit "elevenlabs" -> truthy (elevenLabsApiKey p) = true)
  /\ ai p <> None.

(** The page as [generate] leaves it when it has passed these checks and
    reaches its [try] block. *)
Definition generation_started (p : Panel) : Panel :=
  with_slideshow_hidden false
    (with_initialMessage_hidden true
       (with_error_hidden true
          (with_error_innerHTML []
             (with_panel_world (stop_result (panel_world p))
                (with_generateBtn_textContent (lit "Generating...")
                   (with_generateBtn_disabled true
                      (with_isGenerating true p))))))).

(** The keys [generate] finds missing. *)
Definition gemini_key_missing (p : Panel) : bool :=
  negb (truthy (geminiApiKey p)).

Definition elevenLabs_key_missing (p : Panel) : bool :=
  bool_decide (voiceSelector p = lit "elevenlabs")
  && negb (truthy (elevenLabsApiKey p)).

(** *** Theme *)

Definition updateThemeIcons (isLight : bool) (p : Panel) : Panel :=
  match themeToggle p with
  | Some (mkThemeToggle (Some _) (Some _)) =>
      with_themeToggle
        (Some (mkThemeToggle
                 (Some (if isLight then lit "none" else lit "block"))
                 (Some (if isLight then lit "block" else lit "none")))) p
  | _ => p
  end.

Definition setupTheme (p : Panel) : Panel :=
  let savedTheme := localStorage p !! lit "theme" in
  if bool_decide (savedTheme = Some (lit "light"))
  then
    let p := with_body_light_mode true p in
    updateThemeIcons true p
  else updateThemeIcons false p.

Definition toggleTheme (p : Panel) : Panel :=
  let isLight := negb (body_light_mode p) in
  let p := with_body_light_mode isLight p in
  let p := setItem (lit "theme") (if isLight then lit "light" else lit "dark") p in
  updateThemeIcons isLight p.

(** The theme after [n] clicks on the theme switch. *)
Fixpoint toggles (n : nat) (p : Panel) : Panel :=
  match n with
  | 0 => p
  | S n' => toggles n' (toggleTheme p)
  end.

(** The icons, where the switch has both, show the theme [isLight]. *)
Definition icons_show (isLight : bool) (p : Panel) : Prop :=
  match themeToggle p with
  | Some (mkThemeToggle (Some sun) (Some moon)) =>
      sun = (if isLight then lit "none" else lit "block")
      /\ moon = (if isLight then lit "block" else lit "none")
  | _ => True
  end.

(** *** Voices *)

Record SpeechSynthesisVoice : Type := mkVoice {
  voice_name : jsstring;
  voice_lang : jsstring
}.

(** An [<option>] of [#browser-voices-group]. *)
Record VoiceOption : Type := mkVoiceOption {
  option_value : jsstring;
  option_textContent : jsstring
}.

(** [populateVoices], on the result of [speechSynthesis.getVoices()] and the
    children of [#browser-voices-group] ([None]: no such element). *)
Definition populateVoices (getVoices : list SpeechSynthesisVoice)
    (voiceGroup : option (list VoiceOption)) : option (list VoiceOption) :=
  match voiceGroup with
  | None => None
  | Some _ =>
      Some
        (fold_left
           (fun children voice =>
              children
                ++ [mkVoiceOption (voice_name voice)
                      (voice_name voice ++ lit " (" ++ voice_lang voice
                         ++ lit ")")])
           (List.filter
              (fun voice => starts_with (lit "en") (voice_lang voice))
              getVoices)
           [])
  end.

(** A panel on a page that was just loaded: nothing stored, no key, both
    theme icons present. *)
Definition sample_panel : Panel :=
  mkPanel sample_world None None None false ∅ false
    (Some (mkThemeToggle (Some (lit "block")) (Some (lit "none"))))
    [] [] true false false [] [] 0 [] [] false (lit "Generate TikTok")
    [] true false true.

(** ** Evaluation of computations *)

Ltac munfold :=
  unfold when, via, audio_pause, audio_play, audio_load,
    speechSynthesis_cancel, speechSynthesis_speak, speechSynthesis_speaking,
    showErrorPopup, new_Audio, new_activation, update_activation,
    scroll_child in *;
  unfold update_audio, record in *;
  unfold bind, ret, get, modify, throw in *.

Lemma stopSlideshow_done (w : World) : stopSlideshow w = Done tt (stop_result w).
Proof.
  destruct w as [? ? ? ? ca ci ? ? ? ? ? ? ? ? ? q ? ? ?].
  destruct ca, ci, q; lazy; reflexivity.
Qed.

Lemma stopSlideshow_world (w : World) :
  world_of (stopSlideshow w) = stop_result w.
Proof. rewrite stopSlideshow_done. reflexivity. Qed.

(** Field by field. *)
Ltac stop_fields w :=
  destruct w as [? ? ? ? ca ci ? ? ? ? ? ? ? ? ? q ? ? ?];
  destruct ca, ci, q; lazy; reflexivity.

Lemma stop_result_isPlaying w : isPlaying (stop_result w) = false.
Proof. stop_fields w. Qed.
Lemma stop_result_body w : body_slideshow_paused (stop_result w) = true.
Proof. stop_fields w. Qed.
Lemma stop_result_currentAudio w : currentAudio (stop_result w) = None.
Proof. stop_fields w. Qed.
Lemma stop_result_instrumental w : currentInstrumentalAudio (stop_result w) = None.
Proof. stop_fields w. Qed.
Lemma stop_result_speechQueue w : speechQueue (stop_result w) = [].
Proof. stop_fields w. Qed.
Lemma stop_result_audios w :
  audios (stop_result w)
  = pause_handle (currentInstrumentalAudio w)
      (pause_handle (currentAudio w) (audios w)).
Proof. stop_fields w. Qed.
Lemma stop_result_activations w : activations (stop_result w) = activations w.
Proof. stop_fields w. Qed.
Lemma stop_result_containers w : containers (stop_result w) = containers w.
Proof. stop_fields w. Qed.
Lemma stop_result_voices w : voices (stop_result w) = voices w.
Proof. stop_fields w. Qed.
Lemma stop_result_savedTikToks w : savedTikToks (stop_result w) = savedTikToks w.
Proof. stop_fields w. Qed.
Lemma stop_result_active w :
  activeTikTokContainer (stop_result w) = activeTikTokContainer w.
Proof. stop_fields w. Qed.
Lemma stop_result_slideObserver w : slideObserver (stop_result w) = slideObserver w.
Proof. stop_fields w. Qed.
Lemma stop_result_observers w : observers (stop_result w) = observers w.
Proof. stop_fields w. Qed.
Lemma stop_result_overflow w :
  slideshow_overflowY (stop_result w) = slideshow_overflowY w.
Proof. stop_fields w. Qed.
Lemma stop_result_errorModal w :
  errorModalMessage (stop_result w) = errorModalMessage w
  /\ errorModal_hidden (stop_result w) = errorModal_hidden w
  /\ modalOverlay_hidden (stop_result w) = modalOverlay_hidden w.
Proof.
  destruct w as [? ? ? ? ca ci ? ? ? ? ? ? ? ? ? q ? ? ?];
  destruct ca, ci, q; lazy; repeat split; reflexivity.
Qed.

Lemma stop_result_containers_at w c :
  container_at (set_activeTikTokContainer (Some c) (stop_result w)) c
  = container_at w c.
Proof. unfold container_at. simpl. now rewrite stop_result_containers. Qed.

Lemma lookup_alter_inv {A} (f : A -> A) (i a : nat) (l : list A) (x : A) :
  alter f i l !! a = Some x ->
  (a = i /\ exists y, l !! i = Some y /\ x = f y) \/ (a <> i /\ l !! a = Some x).
Proof.
  intros H. destruct (Nat.eq_dec a i) as [Heq|Hne].
  - subst a. left. split; [reflexivity|].
    rewrite list_lookup_alter_eq in H.
    apply fmap_Some in H as (y & Hy & ->). now exists y.
  - right. split; [assumption|].
    now rewrite list_lookup_alter_ne in H by congruence.
Qed.

Lemma pause_handle_lookup (h : option AudioId) (l : list AudioEl) a el :
  pause_handle h l !! a = Some el ->
  paused el = true \/ (h <> Some a /\ l !! a = Some el).
Proof.
  destruct h as [i|]; simpl; intros H.
  - apply lookup_alter_inv in H as [[-> (y & _ & ->)]|[Hne H]].
    + now left.
    + right. split; [congruence|assumption].
  - right. split; [discriminate|assumption].
Qed.

Lemma stop_result_paused (w : World) a el :
  audios (stop_result w) !! a = Some el ->
  paused el = true
  \/ (audios w !! a = Some el /\ currentAudio w <> Some a
      /\ currentInstrumentalAudio w <> Some a).
Proof.
  rewrite stop_result_audios. intros H.
  apply pause_handle_lookup in H as [H|[Hi H]]; [now left|].
  apply pause_handle_lookup in H as [H|[Hc H]]; [now left|].
  right. auto.
Qed.

Lemma stop_result_quiet (w : World) : handles_cover w -> quiet (stop_result w).
Proof.
  intros Hc. split; [|apply stop_result_speechQueue].
  intros a el H.
  apply stop_result_paused in H as [H|(H & Hn1 & Hn2)]; [assumption|].
  destruct (paused el) eqn:Hp; [reflexivity|].
  destruct (Hc a el H Hp); contradiction.
Qed.

Lemma stop_result_stopped (w : World) : stopped (stop_result w).
Proof.
  unfold stopped.
  rewrite stop_result_isPlaying, stop_result_body, stop_result_currentAudio,
    stop_result_instrumental, stop_result_speechQueue. auto.
Qed.

Lemma stopped_stop_result (w : World) : stopped w -> stop_result w = w.
Proof.
  destruct w as [? ? ? ? ca ci ? ? ? ? ? ? ? ? ? q ? ? ?].
  unfold stopped. simpl. intros (-> & -> & -> & -> & ->). reflexivity.
Qed.

Lemma stop_result_idem (w : World) : stop_result (stop_result w) = stop_result w.
Proof. apply stopped_stop_result, stop_result_stopped. Qed.

(** C8 — [stopSlideshow] never throws, a second stop right after a stop
    changes nothing at all (no state change, no call), and on a world with
    both audio handles null and no speech in progress it only clears
    [isPlaying] and marks the body paused. *)
Theorem stopSlideshow_idempotent (w : World) :
  exists w1,
    stopSlideshow w = Done tt w1
    /\ stopSlideshow w1 = Done tt w1
    /\ (currentAudio w = None -> currentInstrumentalAudio w = None ->
        speechSynthesis_speaking w = false ->
        w1 = set_body_slideshow_paused true (set_isPlaying false w)).
Proof.
  exists (stop_result w). split; [apply stopSlideshow_done|]. split.
  - rewrite stopSlideshow_done. now rewrite stop_result_idem.
  - destruct w as [? ? ? ? ca ci ? ? ? ? ? ? ? ? ? q ? ? ?]. simpl.
    intros -> ->. destruct q; [reflexivity|discriminate].
Qed.

Lemma stopSlideshow_idempotent_witness :
  stopSlideshow sample_world
  = Done tt (set_body_slideshow_paused true (set_isPlaying false sample_world)).
Proof.
  destruct (stopSlideshow_idempotent sample_world) as (w1 & H1 & _ & H3).
  rewrite H1. f_equal. apply H3; reflexivity.
Defined.

Lemma start_instrumental_done (tiktok : TikTok) (sid : ActivationId) (w : World) :
  start_instrumental tiktok sid w = Done tt (instrumental_result tiktok sid w).
Proof.
  unfold start_instrumental, instrumental_result.
  destruct (truthy (instrumentalId tiktok)).
  - unfold bind at 1, get at 1.
    destruct (querySelector_audio _ w); lazy; reflexivity.
  - destruct (truthy (instrumentalSrc tiktok)); lazy; reflexivity.
Qed.

Lemma start_song_done (tiktok : TikTok) (sid : ActivationId) (w : World) :
  useBrowserTTS tiktok = false -> truthy (songSrc tiktok) = true ->
  start_narration tiktok sid w
  = Done tt (song_started sid (default [] (songSrc tiktok)) w).
Proof.
  intros H1 H2. unfold start_narration. rewrite H1, H2. lazy. reflexivity.
Qed.

Lemma scroll_child_done (c : ContainerId) (i : nat) (w : World) :
  scroll_child c (Some i) w = Done tt (scroll_result c i w).
Proof.
  unfold scroll_child, scroll_result. munfold.
  destruct (slider_children w c !! i); reflexivity.
Qed.

Lemma scroll_result_activations c i w :
  activations (scroll_result c i w) = activations w.
Proof. unfold scroll_result. destruct (_ !! _); reflexivity. Qed.

Lemma scroll_result_isPlaying c i w :
  isPlaying (scroll_result c i w) = isPlaying w.
Proof. unfold scroll_result. destruct (_ !! _); reflexivity. Qed.

Lemma speakAndAdvance_rec_done (n : nat) :
  forall (fuel : nat) (sid : ActivationId) (w : World) (act : Activation),
    activations w !! sid = Some act ->
    isPlaying w = true ->
    length (slides (act_tiktok act)) - currentSlideIndex act = n ->
    n < fuel ->
    speakAndAdvance_rec fuel sid w
    = Done tt (narrate_from
                 (drop (currentSlideIndex act) (slides (act_tiktok act)))
                 sid (act_tiktok act) (act_slider act)
                 (currentSlideIndex act) w).
Proof.
  induction n as [|n IH]; intros fuel sid w act Hact Hplay Hn Hfuel;
    (destruct fuel as [|fuel]; [lia|]); simpl; unfold bind at 1, get at 1;
    rewrite Hact, Hplay.
  - assert (Hle : length (slides (act_tiktok act)) <= currentSlideIndex act) by lia.
    apply Nat.leb_le in Hle as Hb. rewrite Hb. simpl.
    rewrite drop_ge by assumption. simpl. apply stopSlideshow_done.
  - assert (Hlt : currentSlideIndex act < length (slides (act_tiktok act))) by lia.
    apply Nat.leb_gt in Hlt as Hb. rewrite Hb. simpl.
    unfold bind at 1. rewrite scroll_child_done.
    destruct (lookup_lt_is_Some_2 _ _ Hlt) as [s Hs]. rewrite Hs.
    rewrite (drop_S _ _ _ Hs). simpl. unfold blank.
    destruct (trim (lyrics s)) eqn:Ht.
    + unfold bind at 1, update_activation, modify. unfold set_cursor.
      apply (IH fuel sid _ (set_currentSlideIndex (S (currentSlideIndex act)) act)).
      * simpl. rewrite scroll_result_activations, list_lookup_alter_eq, Hact.
        reflexivity.
      * simpl. now rewrite scroll_result_isPlaying.
      * simpl. lia.
      * lia.
    + reflexivity.
Qed.

Lemma speakAndAdvance_done (sid : ActivationId) (w : World) :
  speakAndAdvance sid w = Done tt (speak_result sid w).
Proof.
  unfold speakAndAdvance, speak_result, budget, bind, get.
  destruct (activations w !! sid) as [act|] eqn:Hact.
  - destruct (isPlaying w) eqn:Hplay.
    + eapply speakAndAdvance_rec_done; eauto; lia.
    + simpl. unfold bind, get. rewrite Hact, Hplay, orb_true_r. simpl.
      apply stopSlideshow_done.
  - simpl. unfold bind, get. rewrite Hact. reflexivity.
Qed.

Lemma start_narration_done (tiktok : TikTok) (sid : ActivationId) (w : World) :
  start_narration tiktok sid w = Done tt (narration_result tiktok sid w).
Proof.
  unfold start_narration, narration_result.
  destruct (useBrowserTTS tiktok); [exact (speakAndAdvance_done sid w)|].
  destruct (truthy (songSrc tiktok)); lazy; reflexivity.
Qed.

Lemma start_session_done (tiktok : TikTok) (sid : ActivationId) (w : World) :
  start_session tiktok sid w = Done tt (session_result tiktok sid w).
Proof.
  unfold start_session, session_result, bind, modify.
  rewrite start_instrumental_done. cbv beta iota.
  exact (start_narration_done tiktok sid _).
Qed.

Lemma startSlideshow_done (w : World) :
  startSlideshow w = Done tt (start_result w).
Proof.
  unfold startSlideshow, start_result, bind, get.
  destruct (start_target w) as [[c tiktok]|]; [|reflexivity].
  unfold new_activation, bind, get, modify, ret. cbv beta iota.
  rewrite stopSlideshow_done. cbv beta iota.
  exact (start_session_done tiktok _ _).
Qed.

Lemma showErrorPopup_done (message : jsstring) (w : World) :
  showErrorPopup message w = Done tt (popup message w).
Proof. reflexivity. Qed.

Lemma utterance_onend_done (sid : ActivationId) (w : World) :
  utterance_onend sid w = Done tt (speak_result sid (bump sid w)).
Proof.
  unfold utterance_onend, bind, update_activation, modify. cbv beta iota.
  exact (speakAndAdvance_done sid _).
Qed.

Lemma utterance_onerror_done (code : jsstring) (w : World) :
  utterance_onerror code w
  = Done tt (stop_result (popup (lit "Speech synthesis failed: " ++ code) w)).
Proof.
  unfold utterance_onerror, bind. rewrite showErrorPopup_done. cbv beta iota.
  exact (stopSlideshow_done _).
Qed.

Lemma vocal_play_catch_done (message : jsstring) (w : World) :
  vocal_play_catch message w
  = Done tt (stop_result
               (popup (lit "Vocal playback failed:" ++ [10%N] ++ message) w)).
Proof.
  unfold vocal_play_catch, bind. rewrite showErrorPopup_done. cbv beta iota.
  exact (stopSlideshow_done _).
Qed.

Lemma tap_done (w : World) :
  tap w = Done tt (if isPlaying w then stop_result w else start_result w).
Proof.
  unfold tap, bind, get.
  destruct (isPlaying w);
    [exact (stopSlideshow_done w)|exact (startSlideshow_done w)].
Qed.

(** ** Ownership of live resources *)

Lemma owned_by_frame (sid : ActivationId) (w w' : World) :
  audios w' = audios w ->
  currentAudio w' = currentAudio w ->
  currentInstrumentalAudio w' = currentInstrumentalAudio w ->
  speechQueue w' = speechQueue w ->
  owned_by sid w -> owned_by sid w'.
Proof.
  unfold owned_by. intros -> -> -> ->. auto.
Qed.

Lemma quiet_owned_by (sid : ActivationId) (w : World) :
  quiet w -> owned_by sid w.
Proof.
  intros [Ha Hq]. split.
  - intros a el H Hp. rewrite (Ha a el H) in Hp. discriminate.
  - rewrite Hq. intros u Hu. inversion Hu.
Qed.

Lemma owned_by_cover (sid : ActivationId) (w : World) :
  owned_by sid w -> handles_cover w.
Proof. intros [Ha _] a el H Hp. apply (Ha a el H Hp). Qed.

Lemma owned_by_stop (sid sid' : ActivationId) (w : World) :
  owned_by sid w -> owned_by sid' (stop_result w).
Proof.
  intros H. apply quiet_owned_by, stop_result_quiet.
  exact (owned_by_cover sid w H).
Qed.

Lemma session_inv_at_most_one (w : World) :
  session_inv w -> at_most_one_session w.
Proof.
  intros [sid [Ha Hq]] s1 s2 H1 H2.
  assert (Hs : forall s, holds w s -> s = sid).
  { intros s [(u & Hu & <-)|(a & el & Hl & Hp & Ho)].
    - apply Hq, Hu.
    - destruct (Ha a el Hl Hp) as [_ Ho']. congruence. }
  rewrite (Hs s1 H1), (Hs s2 H2). reflexivity.
Qed.

Lemma scroll_result_frame (c : ContainerId) (i : nat) (w : World) :
  audios (scroll_result c i w) = audios w
  /\ currentAudio (scroll_result c i w) = currentAudio w
  /\ currentInstrumentalAudio (scroll_result c i w) = currentInstrumentalAudio w
  /\ speechQueue (scroll_result c i w) = speechQueue w.
Proof. unfold scroll_result. destruct (_ !! _); auto. Qed.

Lemma owned_by_scroll sid c i w :
  owned_by sid w -> owned_by sid (scroll_result c i w).
Proof.
  destruct (scroll_result_frame c i w) as (H1 & H2 & H3 & H4).
  now apply owned_by_frame.
Qed.

Lemma owned_by_spoken sid u w :
  u_activation u = sid -> owned_by sid w -> owned_by sid (spoken u w).
Proof.
  intros Hu [Ha Hq]. split; [exact Ha|].
  simpl. intros u' Hin. apply elem_of_app in Hin as [Hin|Hin]; [auto|].
  apply list_elem_of_singleton in Hin. now subst.
Qed.

Lemma owned_by_narrate (rest : list SlideData) :
  forall sid tiktok c i w,
    owned_by sid w -> owned_by sid (narrate_from rest sid tiktok c i w).
Proof.
  induction rest as [|s rest IH]; intros sid tiktok c i w H; simpl.
  - now apply (owned_by_stop sid).
  - destruct (blank s).
    + apply IH. apply (owned_by_frame sid (scroll_result c i w)); try reflexivity.
      now apply owned_by_scroll.
    + apply owned_by_spoken; [reflexivity|]. now apply owned_by_scroll.
Qed.

Lemma owned_by_speak_result sid w :
  owned_by sid w -> owned_by sid (speak_result sid w).
Proof.
  intros H. unfold speak_result.
  destruct (activations w !! sid) as [act|]; [|assumption].
  destruct (isPlaying w); [now apply owned_by_narrate|].
  now apply (owned_by_stop sid).
Qed.

Lemma owned_by_alter (sid : ActivationId) (a : AudioId)
    (f : AudioEl -> AudioEl) (l : list AudioEl) (w w' : World) :
  audios w' = alter f a l ->
  speechQueue w' = speechQueue w ->
  (forall a' el, l !! a' = Some el -> paused el = false ->
     a' <> a ->
     (currentAudio w' = Some a' \/ currentInstrumentalAudio w' = Some a')
     /\ a_owner el = Some sid) ->
  (forall el, l !! a = Some el -> paused (f el) = false ->
     (currentAudio w' = Some a \/ currentInstrumentalAudio w' = Some a)
     /\ a_owner (f el) = Some sid) ->
  (forall u, u ∈ speechQueue w -> u_activation u = sid) ->
  owned_by sid w'.
Proof.
  intros Hau Hq Hother Hself Hqueue. split.
  - intros a' el H Hp. rewrite Hau in H.
    apply lookup_alter_inv in H as [[-> (y & Hy & ->)]|[Hne H]]; eauto.
  - rewrite Hq. exact Hqueue.
Qed.

Lemma lookup_snoc_ne {A} (l : list A) (x el : A) (a : nat) :
  (l ++ [x]) !! a = Some el -> a <> length l -> l !! a = Some el.
Proof.
  intros H Hne. apply lookup_app_Some in H as [H|[Hge H]]; [assumption|].
  apply lookup_lt_Some in H as Hlt. simpl in Hlt. lia.
Qed.

Lemma owned_by_beat_started sid a w :
  owned_by sid w -> currentInstrumentalAudio w = None ->
  owned_by sid (beat_started sid a w).
Proof.
  intros [Ha Hq] Hi.
  eapply (owned_by_alter sid a _ (audios w) w).
  - unfold beat_started. simpl. rewrite !list_alter_alter_eq. reflexivity.
  - reflexivity.
  - intros a' el H Hp Hne. simpl.
    destruct (Ha a' el H Hp) as [[Hc|Hc] Ho]; [auto|congruence].
  - intros el H Hp. simpl. auto.
  - exact Hq.
Qed.

Lemma owned_by_track_started sid src w :
  owned_by sid w -> currentInstrumentalAudio w = None ->
  owned_by sid (track_started sid src w).
Proof.
  intros [Ha Hq] Hi.
  eapply (owned_by_alter sid (length (audios w)) _
            (audios w ++ [blank_audio src]) w).
  - unfold track_started. simpl. rewrite !list_alter_alter_eq. reflexivity.
  - reflexivity.
  - intros a' el H Hp Hne. simpl.
    apply lookup_snoc_ne in H; [|assumption].
    destruct (Ha a' el H Hp) as [[Hc|Hc] Ho]; [auto|congruence].
  - intros el H Hp. simpl. auto.
  - exact Hq.
Qed.

Lemma owned_by_song_started sid src w :
  owned_by sid w -> currentAudio w = None ->
  owned_by sid (song_started sid src w).
Proof.
  intros [Ha Hq] Hi.
  eapply (owned_by_alter sid (length (audios w)) _
            (audios w ++ [blank_audio src]) w).
  - unfold song_started. simpl. rewrite !list_alter_alter_eq. reflexivity.
  - reflexivity.
  - intros a' el H Hp Hne. simpl.
    apply lookup_snoc_ne in H; [|assumption].
    destruct (Ha a' el H Hp) as [[Hc|Hc] Ho]; [congruence|auto].
  - intros el H Hp. simpl. auto.
  - exact Hq.
Qed.

Lemma instrumental_result_currentAudio tiktok sid w :
  currentAudio (instrumental_result tiktok sid w) = currentAudio w.
Proof.
  unfold instrumental_result.
  destruct (truthy (instrumentalId tiktok));
    [destruct (querySelector_audio _ w); reflexivity|].
  destruct (truthy (instrumentalSrc tiktok)); reflexivity.
Qed.

Lemma owned_by_instrumental tiktok sid w :
  owned_by sid w -> currentInstrumentalAudio w = None ->
  owned_by sid (instrumental_result tiktok sid w).
Proof.
  intros H Hi. unfold instrumental_result.
  destruct (truthy (instrumentalId tiktok)).
  - destruct (querySelector_audio _ w); [|assumption].
    now apply owned_by_beat_started.
  - destruct (truthy (instrumentalSrc tiktok)); [|assumption].
    now apply owned_by_track_started.
Qed.

Lemma owned_by_narration tiktok sid w :
  owned_by sid w -> currentAudio w = None ->
  owned_by sid (narration_result tiktok sid w).
Proof.
  intros H Hc. unfold narration_result.
  destruct (useBrowserTTS tiktok); [now apply owned_by_speak_result|].
  destruct (truthy (songSrc tiktok)); [|assumption].
  now apply owned_by_song_started.
Qed.

Lemma owned_by_session tiktok sid w :
  quiet w -> currentAudio w = None -> currentInstrumentalAudio w = None ->
  owned_by sid (session_result tiktok sid w).
Proof.
  intros Hq Hc Hi. unfold session_result.
  apply owned_by_narration.
  - apply owned_by_instrumental; [|exact Hi].
    apply (owned_by_frame sid w); try reflexivity. now apply quiet_owned_by.
  - rewrite instrumental_result_currentAudio. exact Hc.
Qed.

Lemma session_inv_start (w : World) :
  session_inv w -> session_inv (start_result w).
Proof.
  intros [sid H]. unfold start_result.
  destruct (start_target w) as [[c tiktok]|]; [|now exists sid].
  exists (length (activations w)).
  apply owned_by_session.
  - apply stop_result_quiet. apply (owned_by_cover sid).
    now apply (owned_by_frame sid w).
  - apply stop_result_currentAudio.
  - apply stop_result_instrumental.
Qed.

Lemma session_inv_stop (w : World) :
  session_inv w -> session_inv (stop_result w).
Proof. intros [sid H]. exists sid. now apply (owned_by_stop sid). Qed.

(** ** Observers *)

Lemma set_observers_twice l1 l2 w :
  set_observers l1 (set_observers l2 w) = set_observers l1 w.
Proof. reflexivity. Qed.

Lemma observe_each (c : ContainerId) (o : ObserverId) (n : nat) :
  forall (s : nat) (w : World) (l : list (list SlideRef)) (ts : list SlideRef),
    slideObserver w = Some o ->
    observers w = l ++ [ts] -> o = length l ->
    forEach (seq s n) (fun i => via slideObserver (observer_observe (c, i))) w
    = Done tt (set_observers (l ++ [ts ++ map (pair c) (seq s n)]) w).
Proof.
  induction n as [|n IH]; intros s w l ts Ho Hobs Hlen; simpl.
  - rewrite app_nil_r, <- Hobs. destruct w; reflexivity.
  - unfold bind at 1, via at 1, bind at 1, get at 1. rewrite Ho.
    unfold observer_observe, modify.
    rewrite (IH (S s) _ l (ts ++ [(c, s)])).
    + simpl. rewrite <- app_assoc. reflexivity.
    + exact Ho.
    + simpl. rewrite Hobs, Hlen.
      rewrite alter_app_r_alt by lia. rewrite Nat.sub_diag. reflexivity.
    + exact Hlen.
Qed.

Lemma disconnected_frame (w : World) :
  activeTikTokContainer (disconnected w) = activeTikTokContainer w
  /\ containers (disconnected w) = containers w
  /\ slideObserver (disconnected w) = slideObserver w
  /\ length (observers (disconnected w)) = length (observers w).
Proof.
  unfold disconnected. destruct (slideObserver w) eqn:E; simpl; auto.
  rewrite length_insert. auto.
Qed.

Lemma setupSlideObserver_done (w : World) :
  setupSlideObserverForActiveTikTok w = setup_result w.
Proof.
  unfold setupSlideObserverForActiveTikTok, setup_result.
  unfold bind at 1, bind at 1, get at 1.
  assert (Hd : when (bool_decide (is_Some (slideObserver w)))
                 (via slideObserver observer_disconnect) w
               = Done tt (disconnected w)).
  { unfold disconnected, via, bind, get.
    destruct (slideObserver w) eqn:E; simpl; [rewrite E|]; reflexivity. }
  rewrite Hd. unfold bind at 1, get at 1.
  destruct (activeTikTokContainer (disconnected w)) as [c|]; [|reflexivity].
  unfold bind at 1, new_IntersectionObserver, bind at 1, get at 1,
    bind at 1, modify at 1, ret. unfold bind at 1, modify at 1.
  destruct (horizontal_slider (container_at (disconnected w) c)) as [ch|];
    [|reflexivity].
  rewrite (observe_each c (length (observers (disconnected w))) (length ch) 0 _
             (observers (disconnected w)) []); reflexivity.
Qed.

Lemma tiktok_entry_done (entry : ContainerId * bool) (w : World) :
  tiktok_entry entry w = entry_result entry w.
Proof.
  destruct entry as [target b]. unfold tiktok_entry, entry_result. simpl.
  destruct b; [|reflexivity]. unfold bind at 1, get at 1. simpl.
  destruct (bool_decide (activeTikTokContainer w <> Some target)); [|reflexivity].
  unfold bind at 1. rewrite stopSlideshow_done.
  unfold bind at 1, modify. apply setupSlideObserver_done.
Qed.

(** ** Slide visibility and scroll containment *)

Lemma at_edge_length (w : World) (c : ContainerId) (i : nat) :
  at_edge w (c, i)
  = (i =? 0) || (length (slider_children w c) <=? S i).
Proof.
  unfold at_edge, previousElementSibling, nextElementSibling.
  destruct (slider_children w c !! i) as [x|] eqn:Hi.
  - apply lookup_lt_Some in Hi as Hlt.
    destruct (slider_children w c !! S i) as [y|] eqn:Hs.
    + apply lookup_lt_Some in Hs as Hlt'.
      destruct i; simpl.
      * reflexivity.
      * symmetry. apply Nat.leb_gt. lia.
    + apply lookup_ge_None in Hs.
      destruct i; simpl; [reflexivity|].
      symmetry. apply Nat.leb_le. lia.
  - apply lookup_ge_None in Hi. simpl.
    symmetry. apply orb_true_iff. right. apply Nat.leb_le. lia.
Qed.

Lemma toggled_children_length slide force w c :
  length (slider_children (toggled slide force w) c)
  = length (slider_children w c).
Proof.
  destruct slide as [c0 i]. unfold slider_children, container_at, toggled.
  simpl. destruct (Nat.eq_dec c c0) as [->|Hne].
  - rewrite list_lookup_alter_eq.
    destruct (containers w !! c0) as [ct|]; simpl; [|reflexivity].
    destruct (horizontal_slider ct); simpl; [|reflexivity].
    apply length_alter.
  - rewrite list_lookup_alter_ne by congruence. reflexivity.
Qed.

Lemma at_edge_toggled slide force w s :
  at_edge (toggled slide force w) s = at_edge w s.
Proof.
  destruct s as [c i]. rewrite !at_edge_length.
  now rewrite toggled_children_length.
Qed.

Lemma batch_at_bounds_toggled slide force w entries :
  batch_at_bounds (toggled slide force w) entries = batch_at_bounds w entries.
Proof.
  unfold batch_at_bounds. induction entries as [|e entries IH]; simpl.
  - reflexivity.
  - now rewrite at_edge_toggled, IH.
Qed.

Lemma slide_entries_done (entries : list (SlideRef * bool)) :
  forall (b : bool) (w : World),
    slide_entries entries b w
    = Done (b || batch_at_bounds w entries) (marked entries w).
Proof.
  induction entries as [|[slide isIntersecting] rest IH]; intros b w; simpl.
  - now rewrite orb_false_r.
  - unfold bind at 1. unfold toggle_is_visible. destruct slide as [c i].
    unfold modify at 1. unfold bind at 1, get at 1.
    change (set_containers _ w) with (toggled (c, i) isIntersecting w).
    rewrite IH. f_equal.
    rewrite batch_at_bounds_toggled.
    fold (at_edge (toggled (c, i) isIntersecting w) (c, i)).
    rewrite at_edge_toggled.
    destruct isIntersecting, (at_edge w (c, i)), b; reflexivity.
Qed.

Lemma slideObserver_callback_done (entries : list (SlideRef * bool)) (w : World) :
  slideObserver_callback entries w
  = Done tt (set_slideshow_overflowY
               (if batch_at_bounds w entries then overflow_auto
                else overflow_hidden)
               (marked entries w)).
Proof.
  unfold slideObserver_callback, bind. rewrite slide_entries_done. reflexivity.
Qed.

Lemma batch_at_bounds_single (w : World) (c : ContainerId) (i : nat)
    (entries : list (SlideRef * bool)) :
  (forall e, e ∈ entries -> snd e = true -> fst e = (c, i)) ->
  ((c, i), true) ∈ entries ->
  batch_at_bounds w entries = at_edge w (c, i).
Proof.
  intros Hall Hin. unfold batch_at_bounds.
  destruct (at_edge w (c, i)) eqn:He.
  - apply existsb_exists. exists ((c, i), true). split.
    + now apply list_elem_of_In.
    + simpl. exact He.
  - apply not_true_is_false. intros Hex.
    apply existsb_exists in Hex as ([s b] & Hs & Hb). simpl in Hb.
    apply andb_true_iff in Hb as [Hb1 Hb2]. subst b.
    apply list_elem_of_In in Hs.
    specialize (Hall _ Hs eq_refl). simpl in Hall. subst s. congruence.
Qed.

(** C5 — after every batch the containment mode is [auto] (free) if some
    intersecting slide of the batch lacks a previous or a next sibling and
    [hidden] (locked) otherwise, whatever it was before; for a slider of five
    slides and a batch whose only intersecting slide is slide [i], it is free
    exactly for [i = 0] and [i = 4]. *)
Theorem containment_follows_batch (w : World) (entries : list (SlideRef * bool)) :
  exists w',
    slideObserver_callback entries w = Done tt w'
    /\ slideshow_overflowY w'
       = (if batch_at_bounds w entries then overflow_auto else overflow_hidden)
    /\ (forall c i,
          length (slider_children w c) = 5 -> i < 5 ->
          (forall e, e ∈ entries -> snd e = true -> fst e = (c, i)) ->
          ((c, i), true) ∈ entries ->
          (slideshow_overflowY w' = overflow_auto <-> i = 0 \/ i = 4)
          /\ (slideshow_overflowY w' = overflow_hidden <-> 1 <= i <= 3)).
Proof.
  eexists. split; [apply slideObserver_callback_done|]. split; [reflexivity|].
  intros c i Hlen Hi Hall Hin. simpl.
  rewrite (batch_at_bounds_single w c i entries Hall Hin).
  rewrite at_edge_length, Hlen.
  destruct i as [|[|[|[|[|i]]]]]; simpl; try lia;
    (split; split; intros H; try discriminate H; try reflexivity; lia).
Qed.

Lemma containment_follows_batch_witness :
  slideshow_overflowY
    (world_of (slideObserver_callback [((0, 1), false); ((0, 0), true)]
                 (set_containers
                    [mkContainer None (Some (replicate 5 (mkSlideEl false)))]
                    sample_world)))
  = overflow_auto.
Proof.
  pose (w := set_containers
               [mkContainer None (Some (replicate 5 (mkSlideEl false)))]
               sample_world).
  destruct (containment_follows_batch w [((0, 1), false); ((0, 0), true)])
    as (w' & Hrun & _ & Hfive).
  fold w. rewrite Hrun. simpl.
  apply (Hfive 0 0).
  - reflexivity.
  - lia.
  - intros e He Hs.
    apply elem_of_cons in He as [->|He]; [discriminate Hs|].
    apply list_elem_of_singleton in He. now subst e.
  - apply elem_of_cons. right. apply list_elem_of_singleton. reflexivity.
  - now left.
Defined.

(** ** Audio handlers *)

Lemma scroll_child_opt_done c i w :
  scroll_child c i w = Done tt (scroll_result_opt c i w).
Proof.
  destruct i as [i|]; [apply scroll_child_done|reflexivity].
Qed.

Lemma audio_ontimeupdate_done (sid : ActivationId) (w : World) :
  audio_ontimeupdate sid w = Done tt (timeupdate_result sid w).
Proof.
  unfold audio_ontimeupdate, timeupdate_result, target_index, bind at 1, get at 1.
  destruct (activations w !! sid) as [act|]; [|reflexivity].
  destruct (currentAudio w) as [a|]; [|reflexivity].
  destruct (paused (audio_at w a) || num_falsy (duration (audio_at w a)));
    [reflexivity|].
  match goal with |- (if ?b then _ else _) _ = _ => destruct b end;
    [|reflexivity].
  unfold bind at 1. rewrite scroll_child_opt_done. reflexivity.
Qed.

Lemma audio_onerror_done (w : World) :
  audio_onerror w = Done tt (stop_result (popup (audio_error_message w) w)).
Proof.
  unfold audio_onerror, audio_error_message, bind at 1, get at 1.
  destruct (currentAudio w) as [a|];
    [destruct (error (audio_at w a))|];
    (unfold bind at 1; rewrite showErrorPopup_done; cbv beta iota;
     exact (stopSlideshow_done _)).
Qed.

Lemma same_media_refl w : same_media w w.
Proof. repeat split. Qed.

Lemma same_media_trans w1 w2 w3 :
  same_media w1 w2 -> same_media w2 w3 -> same_media w1 w3.
Proof.
  intros (A1 & A2 & A3 & A4) (B1 & B2 & B3 & B4).
  repeat split; congruence.
Qed.

Lemma owned_by_same_media sid w w' :
  same_media w w' -> owned_by sid w -> owned_by sid w'.
Proof. intros (A1 & A2 & A3 & A4). now apply owned_by_frame. Qed.

Lemma session_inv_same_media w w' :
  same_media w w' -> session_inv w -> session_inv w'.
Proof. intros H [sid Ho]. exists sid. now apply (owned_by_same_media sid w). Qed.

Lemma same_media_scroll c i w : same_media w (scroll_result c i w).
Proof. exact (scroll_result_frame c i w). Qed.

Lemma same_media_timeupdate sid w : same_media w (timeupdate_result sid w).
Proof.
  unfold timeupdate_result.
  destruct (activations w !! sid) as [act|]; [|apply same_media_refl].
  destruct (currentAudio w) as [a|] eqn:Hc; [|apply same_media_refl].
  destruct (_ || _); [apply same_media_refl|].
  destruct (_ && _); [|apply same_media_refl].
  destruct (as_index _) as [i|]; simpl.
  - destruct (scroll_result_frame (act_slider act) i w) as (A1 & A2 & A3 & A4).
    repeat split; simpl; congruence.
  - repeat split; simpl; congruence.
Qed.

Lemma same_media_marked entries : forall w, same_media w (marked entries w).
Proof.
  induction entries as [|[s b] rest IH]; intros w; simpl.
  - apply same_media_refl.
  - apply (same_media_trans _ (toggled s b w)); [repeat split|apply IH].
Qed.

Lemma same_media_disconnected w : same_media w (disconnected w).
Proof.
  unfold disconnected. destruct (slideObserver w); repeat split.
Qed.

Lemma same_media_setup w : same_media w (world_of (setup_result w)).
Proof.
  unfold setup_result.
  destruct (same_media_disconnected w) as (A1 & A2 & A3 & A4).
  destruct (activeTikTokContainer (disconnected w)) as [c|];
    [|simpl; repeat split; assumption].
  destruct (horizontal_slider _); simpl; repeat split; assumption.
Qed.

(** ** The session invariant along runs *)

Lemma handles_cover_ext w w' :
  audios w' = audios w -> currentAudio w' = currentAudio w ->
  currentInstrumentalAudio w' = currentInstrumentalAudio w ->
  handles_cover w -> handles_cover w'.
Proof.
  intros A1 A2 A3 H a el. rewrite A1, A2, A3. apply H.
Qed.

Lemma session_inv_cover w : session_inv w -> handles_cover w.
Proof. intros [sid H]. exact (owned_by_cover sid w H). Qed.

Lemma session_inv_stop_cover w : handles_cover w -> session_inv (stop_result w).
Proof.
  intros H. exists 0. apply quiet_owned_by. now apply stop_result_quiet.
Qed.

Lemma owned_by_alter_keep sid a f w :
  (forall el, paused (f el) = false -> paused el = false) ->
  (forall el, a_owner (f el) = a_owner el) ->
  owned_by sid w -> owned_by sid (set_audios (alter f a (audios w)) w).
Proof.
  intros Hp Ho [Ha Hq].
  apply (owned_by_alter sid a f (audios w) w); try reflexivity.
  - intros a' el H Hpa _. exact (Ha a' el H Hpa).
  - intros el H Hpa. simpl. destruct (Ha a el H (Hp el Hpa)) as [Hh Hown].
    split; [exact Hh|]. now rewrite Ho.
  - exact Hq.
Qed.

Lemma session_inv_alter_keep a f w :
  (forall el, paused (f el) = false -> paused el = false) ->
  (forall el, a_owner (f el) = a_owner el) ->
  session_inv w -> session_inv (set_audios (alter f a (audios w)) w).
Proof.
  intros Hp Ho [sid H]. exists sid. now apply owned_by_alter_keep.
Qed.

Lemma forEach_preserves {A} (P : World -> Prop) (f : A -> M unit) :
  (forall x w, P w -> P (world_of (f x w))) ->
  forall l w, P w -> P (world_of (forEach l f w)).
Proof.
  intros Hf l. induction l as [|x l IH]; intros w Hw; simpl.
  - exact Hw.
  - unfold bind. specialize (Hf x w Hw).
    destruct (f x w) as [[] w'|e w']; simpl in *; auto.
Qed.

Lemma session_inv_entry entry w :
  session_inv w -> session_inv (world_of (tiktok_entry entry w)).
Proof.
  intros H. rewrite tiktok_entry_done. unfold entry_result.
  destruct (_ && _); [|exact H].
  eapply session_inv_same_media; [apply same_media_setup|].
  eapply (session_inv_same_media (stop_result w)); [repeat split|].
  now apply session_inv_stop.
Qed.

Lemma session_inv_popup_stop message w :
  session_inv w -> session_inv (stop_result (popup message w)).
Proof.
  intros H. apply session_inv_stop_cover.
  apply (handles_cover_ext w); try reflexivity.
  now apply session_inv_cover.
Qed.

Lemma session_inv_speech_end u rest w :
  speechQueue w = u :: rest -> session_inv w ->
  session_inv (speak_result (u_activation u)
                 (bump (u_activation u) (set_speechQueue rest w))).
Proof.
  intros Hq [sid [Ha Hu]].
  assert (Hsid : u_activation u = sid).
  { apply Hu. rewrite Hq. apply elem_of_cons. now left. }
  exists sid. rewrite Hsid. apply owned_by_speak_result.
  split; [exact Ha|]. simpl. intros u' Hin. apply Hu.
  rewrite Hq. apply elem_of_cons. now right.
Qed.

Lemma session_inv_exec (e : Event) (w : World) :
  natural e -> session_inv w -> session_inv (exec e w).
Proof.
  intros Hnat H. unfold exec. destruct e; simpl.
  - rewrite tap_done. simpl. destruct (isPlaying w);
      [now apply session_inv_stop|now apply session_inv_start].
  - rewrite startSlideshow_done. now apply session_inv_start.
  - rewrite stopSlideshow_done. now apply session_inv_stop.
  - apply (forEach_preserves session_inv); [|exact H].
    intros x w0. apply session_inv_entry.
  - rewrite slideObserver_callback_done. simpl.
    eapply session_inv_same_media; [|exact H].
    eapply same_media_trans; [apply same_media_marked|repeat split].
  - unfold bind at 1, get at 1.
    destruct (speechQueue w) as [|u rest] eqn:Hq; [exact H|].
    unfold bind at 1, modify. rewrite utterance_onend_done.
    now apply session_inv_speech_end.
  - unfold bind at 1, get at 1.
    destruct (speechQueue w) as [|u rest] eqn:Hq; [exact H|].
    unfold bind at 1, modify. rewrite utterance_onerror_done.
    apply session_inv_stop_cover.
    apply (handles_cover_ext w); try reflexivity. now apply session_inv_cover.
  - now contradiction Hnat.
  - unfold bind at 1, get at 1.
    destruct (cancelledUtterances w) as [|u rest]; [exact H|].
    unfold bind at 1, modify. rewrite utterance_onerror_done.
    apply session_inv_stop_cover.
    apply (handles_cover_ext w); try reflexivity. now apply session_inv_cover.
  - eapply session_inv_same_media; [|exact H]. repeat split.
  - rewrite vocal_play_catch_done. now apply session_inv_popup_stop.
  - now apply session_inv_alter_keep.
  - unfold bind at 1, update_audio, modify, with_listener, bind at 1, get at 1.
    assert (H1 : session_inv
                   (set_audios (alter (set_currentTime t) a (audios w)) w))
      by now apply session_inv_alter_keep.
    destruct (a_listener _) as [sid|]; [|exact H1].
    rewrite audio_ontimeupdate_done.
    eapply session_inv_same_media; [apply same_media_timeupdate|exact H1].
  - unfold bind at 1, update_audio, modify, with_listener, bind at 1, get at 1.
    assert (H1 : session_inv
                   (set_audios (alter (set_paused true) a (audios w)) w)).
    { apply session_inv_alter_keep; [discriminate|reflexivity|exact H]. }
    destruct (a_listener _) as [sid|]; [|exact H1].
    unfold audio_onended. rewrite stopSlideshow_done.
    now apply session_inv_stop.
  - unfold bind at 1, update_audio, modify, with_listener, bind at 1, get at 1.
    assert (H1 : session_inv
                   (set_audios (alter (set_error e) a (audios w)) w))
      by now apply session_inv_alter_keep.
    destruct (a_listener _) as [sid|]; [|exact H1].
    rewrite audio_onerror_done. now apply session_inv_popup_stop.
Qed.

Lemma session_inv_run (es : list Event) :
  forall w, Forall natural es -> session_inv w -> session_inv (run es w).
Proof.
  induction es as [|e es IH]; intros w Hes H; simpl.
  - exact H.
  - inversion Hes; subst. apply IH; [assumption|].
    now apply session_inv_exec.
Qed.

Lemma stop_result_calls (w : World) :
  exists released,
    calls (stop_result w) = calls w ++ released
    /\ forallb is_release released = true.
Proof.
  destruct w as [? ? ? ? ca ci ? ? ? ? ? ? ? ? ? q ? ? cs].
  destruct ca as [a|], ci as [a'|], q as [|u q]; lazy -[app];
    rewrite <- ?app_assoc;
    first [ now eexists | exists []; now rewrite app_nil_r ].
Qed.

Lemma sample_world_quiet : quiet sample_world.
Proof.
  split; [|reflexivity]. intros [|a] el H; simpl in H; [|destruct a; discriminate].
  now inversion H.
Qed.




(** ** Activation change *)

Lemma setup_result_spec (w : World) (c : ContainerId) :
  activeTikTokContainer w = Some c ->
  let w2 := world_of (setup_result w) in
  activeTikTokContainer w2 = Some c
  /\ isPlaying w2 = isPlaying w
  /\ body_slideshow_paused w2 = body_slideshow_paused w
  /\ slideObserver w2 = Some (length (observers w))
  /\ (forall o, slideObserver w = Some o -> o < length (observers w) ->
        observers w2 !! o = Some [])
  /\ (forall children,
        horizontal_slider (container_at w c) = Some children ->
        observers w2 !! length (observers w)
        = Some (slide_refs c (length children))).
Proof.
  intros Hact. unfold setup_result.
  destruct (disconnected_frame w) as (D1 & D2 & D3 & D4).
  assert (Hct : container_at (disconnected w) c = container_at w c)
    by (unfold container_at; now rewrite D2).
  assert (Hplay : isPlaying (disconnected w) = isPlaying w
                  /\ body_slideshow_paused (disconnected w)
                     = body_slideshow_paused w)
    by (unfold disconnected; destruct (slideObserver w); auto).
  destruct Hplay as [P1 P2].
  assert (Hold : forall o x, slideObserver w = Some o ->
                   o < length (observers w) ->
                   (observers (disconnected w) ++ [x]) !! o = Some []).
  { intros o x Ho Hlt. rewrite lookup_app_l by lia.
    unfold disconnected. rewrite Ho. simpl.
    now apply list_lookup_insert_eq. }
  rewrite D1, Hact, Hct.
  destruct (horizontal_slider (container_at w c)) as [ch|]; simpl;
    rewrite D4; (repeat split; auto); try congruence.
  intros children [= <-]. rewrite <- D4. apply list_lookup_middle. reflexivity.
Qed.

(** C2 — the item-level callback acts on an entry only when it is
    intersecting and its target is not the active container.  It then runs
    [stopSlideshow] to the end while the old container is still the active
    one, which leaves nothing playing, nothing queued and both handles null;
    only then does it make the target active and rebind the slide observer:
    the previous observer loses its targets and a fresh one observes the
    target's slides.  On any other entry the world is left as it is. *)
Theorem activation_transition (w : World) (target : ContainerId)
    (isIntersecting : bool) :
  handles_cover w ->
  if isIntersecting && bool_decide (activeTikTokContainer w <> Some target)
  then
    exists w1,
      stopSlideshow w = Done tt w1
      /\ quiet w1 /\ stopped w1
      /\ activeTikTokContainer w1 = activeTikTokContainer w
      /\ tiktok_entry (target, isIntersecting) w
         = setupSlideObserverForActiveTikTok
             (set_activeTikTokContainer (Some target) w1)
      /\ let w2 := world_of (tiktok_entry (target, isIntersecting) w) in
         activeTikTokContainer w2 = Some target
         /\ quiet w2 /\ stopped w2
         /\ slideObserver w2 = Some (length (observers w))
         /\ (forall o, slideObserver w = Some o -> o < length (observers w) ->
               observers w2 !! o = Some [])
         /\ (forall children,
               horizontal_slider (container_at w target) = Some children ->
               observers w2 !! length (observers w)
               = Some (slide_refs target (length children)))
  else tiktok_entry (target, isIntersecting) w = Done tt w.
Proof.
  intros Hc. rewrite tiktok_entry_done. unfold entry_result. simpl.
  destruct (isIntersecting && _); [|reflexivity].
  exists (stop_result w).
  pose proof (stop_result_quiet w Hc) as Hq.
  pose proof (stop_result_stopped w) as Hs.
  split; [apply stopSlideshow_done|]. split; [exact Hq|]. split; [exact Hs|].
  split; [apply stop_result_active|].
  split; [now rewrite setupSlideObserver_done|].
  set (x := set_activeTikTokContainer (Some target) (stop_result w)).
  destruct (setup_result_spec x target eq_refl) as (S1 & S2 & S3 & S4 & S5 & S6).
  destruct (same_media_setup x) as (M1 & M2 & M3 & M4).
  cbv zeta. split; [exact S1|].
  split. { destruct Hq as [Ha Hsq]. split.
           - rewrite M1. exact Ha.
           - rewrite M4. exact Hsq. }
  split. { destruct Hs as (T1 & T2 & T3 & T4 & T5).
           unfold stopped. rewrite S2, S3, M2, M3, M4. auto. }
  subst x. simpl in *.
  rewrite stop_result_observers, stop_result_slideObserver in *.
  rewrite stop_result_containers_at in S6. auto.
Qed.

Lemma activation_transition_witness :
  let w := run [ItemsIntersect [(1, true)]; Tap] sample_world in
  handles_cover w
  /\ activeTikTokContainer (world_of (tiktok_entry (0, true) w)) = Some 0
  /\ quiet (world_of (tiktok_entry (0, true) w)).
Proof.
  intros w.
  assert (Hc : handles_cover w).
  { apply session_inv_cover, session_inv_run.
    - repeat constructor; discriminate.
    - exists 0. apply quiet_owned_by, sample_world_quiet. }
  split; [exact Hc|].
  pose proof (activation_transition w 0 true Hc) as H.
  assert (Hcond : true && bool_decide (activeTikTokContainer w <> Some 0) = true)
    by (vm_compute; reflexivity).
  rewrite Hcond in H. destruct H as (w1 & _ & _ & _ & _ & _ & H).
  destruct H as (A & B & _). split; assumption.
Defined.

(** ** The call log of a speech session *)

Lemma speaks_app l1 l2 : speaks (l1 ++ l2) = speaks l1 ++ speaks l2.
Proof.
  induction l1 as [|[] l1 IH]; simpl; rewrite ?IH; reflexivity.
Qed.

Lemma scrolls_app l1 l2 : scrolls (l1 ++ l2) = scrolls l1 ++ scrolls l2.
Proof.
  induction l1 as [|[] l1 IH]; simpl; rewrite ?IH; reflexivity.
Qed.

Lemma release_silent l :
  forallb is_release l = true -> speaks l = [] /\ scrolls l = [].
Proof.
  induction l as [|[] l IH]; simpl; intros H; try discriminate; auto.
Qed.

Lemma stop_result_speaks w : speaks (calls (stop_result w)) = speaks (calls w).
Proof.
  destruct (stop_result_calls w) as (l & -> & Hl).
  rewrite speaks_app. destruct (release_silent l Hl) as [-> _].
  apply app_nil_r.
Qed.

Lemma stop_result_scrolls w : scrolls (calls (stop_result w)) = scrolls (calls w).
Proof.
  destruct (stop_result_calls w) as (l & -> & Hl).
  rewrite scrolls_app. destruct (release_silent l Hl) as [_ ->].
  apply app_nil_r.
Qed.

Lemma same_page_refl w : same_page w w.
Proof. repeat split. Qed.

Lemma same_page_trans w1 w2 w3 :
  same_page w1 w2 -> same_page w2 w3 -> same_page w1 w3.
Proof.
  intros (A1 & A2 & A3 & A4 & A5 & A6) (B1 & B2 & B3 & B4 & B5 & B6).
  repeat split; congruence.
Qed.

Lemma same_page_stop w : same_page w (stop_result w).
Proof.
  repeat split; auto using stop_result_containers, stop_result_voices,
    stop_result_savedTikToks, stop_result_active, stop_result_slideObserver,
    stop_result_observers.
Qed.

Lemma same_page_scroll c i w : same_page w (scroll_result c i w).
Proof. unfold scroll_result. destruct (_ !! _); repeat split. Qed.

Lemma same_page_children w w' c :
  same_page w w' -> slider_children w' c = slider_children w c.
Proof.
  intros (A & _). unfold slider_children, container_at. now rewrite A.
Qed.

Lemma same_page_voice w w' tiktok :
  same_page w w' -> selectedVoice tiktok w' = selectedVoice tiktok w.
Proof. intros (_ & A & _). unfold selectedVoice. now rewrite A. Qed.

Lemma same_page_narrate (rest : list SlideData) :
  forall sid tiktok c i w, same_page w (narrate_from rest sid tiktok c i w).
Proof.
  induction rest as [|s rest IH]; intros sid tiktok c i w; simpl.
  - apply same_page_stop.
  - destruct (blank s).
    + eapply same_page_trans; [|apply IH].
      eapply same_page_trans; [apply (same_page_scroll c i)|repeat split].
    + eapply same_page_trans; [apply (same_page_scroll c i)|repeat split].
Qed.

Lemma scroll_result_calls c i w x :
  slider_children w c !! i = Some x ->
  calls (scroll_result c i w) = calls w ++ [scrollIntoView c i].
Proof. intros H. unfold scroll_result. now rewrite H. Qed.

Lemma scroll_result_speaks c i w :
  speaks (calls (scroll_result c i w)) = speaks (calls w).
Proof.
  unfold scroll_result. destruct (_ !! _); [|reflexivity].
  simpl. rewrite speaks_app. apply app_nil_r.
Qed.

Lemma narrate_from_speaks (rest : list SlideData) :
  forall sid tiktok c i w,
    speaks (calls (narrate_from rest sid tiktok c i w))
    = speaks (calls w)
        ++ match first_text rest with
           | Some s => [utterance_for tiktok sid w s]
           | None => []
           end.
Proof.
  induction rest as [|s rest IH]; intros sid tiktok c i w; simpl.
  - now rewrite stop_result_speaks, app_nil_r.
  - destruct (blank s).
    + rewrite IH. simpl. rewrite scroll_result_speaks. f_equal.
      destruct (first_text rest); [|reflexivity].
      f_equal. unfold utterance_for. f_equal. apply same_page_voice.
      eapply same_page_trans; [apply (same_page_scroll c i)|repeat split].
    + simpl. rewrite speaks_app, scroll_result_speaks. simpl. f_equal.
      f_equal. unfold utterance_for. f_equal.
      apply same_page_voice, same_page_scroll.
Qed.

Lemma narrate_from_calls (rest : list SlideData) :
  forall sid tiktok c i w,
    i + length rest <= length (slider_children w c) ->
    let w' := narrate_from rest sid tiktok c i w in
    scrolls (calls w') = scrolls (calls w) ++ map (pair c) (reached rest i)
    /\ speaks (calls w')
       = speaks (calls w)
           ++ match first_text rest with
              | Some s => [utterance_for tiktok sid w s]
              | None => []
              end.
Proof.
  induction rest as [|s rest IH]; intros sid tiktok c i w Hlen; simpl.
  - rewrite stop_result_scrolls, stop_result_speaks, !app_nil_r. auto.
  - simpl in Hlen.
    destruct (lookup_lt_is_Some_2 (slider_children w c) i) as [x Hx]; [lia|].
    pose proof (scroll_result_calls c i w x Hx) as Hcalls.
    destruct (blank s).
    + destruct (IH sid tiktok c (S i)
                  (set_cursor sid (S i) (scroll_result c i w))) as [A B].
      { rewrite (same_page_children w); [lia|].
        eapply same_page_trans; [apply (same_page_scroll c i)|repeat split]. }
      rewrite A, B. simpl. rewrite Hcalls, scrolls_app, speaks_app. simpl.
      rewrite app_nil_r, <- app_assoc. simpl. split; [reflexivity|].
      destruct (first_text rest); [|reflexivity].
      unfold utterance_for. f_equal. f_equal. f_equal.
      apply same_page_voice.
      eapply same_page_trans; [apply (same_page_scroll c i)|repeat split].
    + simpl. rewrite Hcalls, !scrolls_app, !speaks_app. simpl.
      rewrite !app_nil_r. split; [reflexivity|].
      unfold utterance_for. f_equal. f_equal. f_equal.
      apply same_page_voice, same_page_scroll.
Qed.

Lemma narrate_from_cursor (rest : list SlideData) :
  forall sid tiktok c i w act,
    activations w !! sid = Some act -> currentSlideIndex act = i ->
    exists act',
      activations (narrate_from rest sid tiktok c i w) !! sid = Some act'
      /\ act_tiktok act' = act_tiktok act
      /\ act_slider act' = act_slider act
      /\ currentSlideIndex act' = i + leading_blanks rest.
Proof.
  induction rest as [|s rest IH]; intros sid tiktok c i w act Hact Hi; simpl.
  - exists act. rewrite stop_result_activations. repeat split; [assumption|lia].
  - destruct (blank s).
    + destruct (IH sid tiktok c (S i)
                  (set_cursor sid (S i) (scroll_result c i w))
                  (set_currentSlideIndex (S i) act)) as (act' & A & B & C & D).
      { simpl. now rewrite scroll_result_activations, list_lookup_alter_eq, Hact. }
      { reflexivity. }
      exists act'. repeat split; auto. rewrite D. lia.
    + exists act. simpl. rewrite scroll_result_activations.
      repeat split; [assumption|lia].
Qed.

Lemma narrate_from_speaking (rest : list SlideData) :
  forall sid tiktok c i w s,
    first_text rest = Some s ->
    let w' := narrate_from rest sid tiktok c i w in
    isPlaying w' = isPlaying w
    /\ speechQueue w' = speechQueue w ++ [utterance_for tiktok sid w s]
    /\ audios w' = audios w
    /\ currentAudio w' = currentAudio w
    /\ currentInstrumentalAudio w' = currentInstrumentalAudio w.
Proof.
  induction rest as [|s0 rest IH]; intros sid tiktok c i w s Hs; simpl in *.
  - discriminate.
  - destruct (scroll_result_frame c i w) as (F1 & F2 & F3 & F4).
    pose proof (scroll_result_isPlaying c i w) as F5.
    destruct (blank s0).
    + destruct (IH sid tiktok c (S i)
                  (set_cursor sid (S i) (scroll_result c i w)) s Hs)
        as (A & B & C & D & E).
      simpl in *. rewrite A, B, C, D, E, F1, F2, F3, F4, F5.
      repeat split. unfold utterance_for. do 3 f_equal.
      apply same_page_voice.
      eapply same_page_trans; [apply (same_page_scroll c i)|repeat split].
    + injection Hs as <-. simpl. rewrite F1, F2, F3, F4, F5.
      repeat split. unfold utterance_for. do 3 f_equal.
      apply same_page_voice, same_page_scroll.
Qed.

Lemma narrate_from_ended (rest : list SlideData) :
  forall sid tiktok c i w,
    first_text rest = None ->
    stopped (narrate_from rest sid tiktok c i w).
Proof.
  induction rest as [|s0 rest IH]; intros sid tiktok c i w Hs; simpl in *.
  - apply stop_result_stopped.
  - destruct (blank s0); [now apply IH|discriminate].
Qed.

Lemma first_text_spec (rest : list SlideData) :
  match first_text rest with
  | Some s =>
      rest !! leading_blanks rest = Some s /\ blank s = false
      /\ leading_blanks rest < length rest
  | None => leading_blanks rest = length rest /\ Forall (fun s => blank s = true) rest
  end.
Proof.
  induction rest as [|s0 rest IH]; simpl.
  - auto.
  - destruct (blank s0) eqn:Hb.
    + destruct (first_text rest).
      * destruct IH as (A & B & C). repeat split; auto. lia.
      * destruct IH as [A B]. split; [lia|]. constructor; assumption.
    + simpl. repeat split; auto. lia.
Qed.

Lemma first_text_all_blank (rest : list SlideData) :
  Forall (fun s => blank s = true) rest -> first_text rest = None.
Proof.
  induction 1 as [|s rest Hs _ IH]; simpl; [reflexivity|]. now rewrite Hs.
Qed.

Lemma reached_length (rest : list SlideData) (i : nat) :
  length (reached rest i)
  = match first_text rest with
    | Some _ => S (leading_blanks rest)
    | None => length rest
    end.
Proof.
  revert i. induction rest as [|s rest IH]; intros i; simpl; [reflexivity|].
  destruct (blank s); simpl; [|reflexivity].
  rewrite IH. destruct (first_text rest); reflexivity.
Qed.

Lemma reached_seq (rest : list SlideData) (i : nat) :
  reached rest i = seq i (length (reached rest i)).
Proof.
  revert i. induction rest as [|s rest IH]; intros i; simpl; [reflexivity|].
  f_equal. destruct (blank s); [apply IH|reflexivity].
Qed.

(** ** A speech session from start to end *)

Lemma instrumental_result_frame tiktok sid w :
  let x := instrumental_result tiktok sid w in
  isPlaying x = isPlaying w
  /\ body_slideshow_paused x = body_slideshow_paused w
  /\ activations x = activations w
  /\ speechQueue x = speechQueue w
  /\ speaks (calls x) = speaks (calls w)
  /\ scrolls (calls x) = scrolls (calls w)
  /\ same_page w x.
Proof.
  unfold instrumental_result.
  destruct (truthy (instrumentalId tiktok)).
  - destruct (querySelector_audio _ w); simpl;
      rewrite ?speaks_app, ?scrolls_app, ?app_nil_r; simpl;
      rewrite ?app_nil_r; repeat split.
  - destruct (truthy (instrumentalSrc tiktok)); simpl;
      rewrite ?speaks_app, ?scrolls_app, ?app_nil_r; simpl;
      rewrite ?app_nil_r; repeat split.
Qed.

Lemma exec_CallStart (w : World) : exec CallStart w = start_result w.
Proof. unfold exec. simpl. now rewrite startSlideshow_done. Qed.

Lemma start_speech_session (w : World) (c : ContainerId) (tiktok : TikTok) :
  start_target w = Some (c, tiktok) -> useBrowserTTS tiktok = true ->
  exists x,
    exec CallStart w
    = narrate_from (slides tiktok) (length (activations w)) tiktok c 0 x
    /\ isPlaying x = true
    /\ speechQueue x = []
    /\ activations x !! length (activations w)
       = Some (mkActivation tiktok c 0 (Fin (-1)))
    /\ same_page w x
    /\ speaks (calls x) = speaks (calls w)
    /\ scrolls (calls x) = scrolls (calls w).
Proof.
  intros Ht Htts.
  set (y := set_body_slideshow_paused false
              (set_isPlaying true (stop_result (activated tiktok c w)))).
  exists (instrumental_result tiktok (length (activations w)) y).
  destruct (instrumental_result_frame tiktok (length (activations w)) y)
    as (F1 & F2 & F3 & F4 & F5 & F6 & F7).
  assert (Hact : activations y !! length (activations w)
                 = Some (mkActivation tiktok c 0 (Fin (-1)))).
  { subst y. simpl. rewrite stop_result_activations. simpl.
    apply list_lookup_middle. reflexivity. }
  split.
  - rewrite exec_CallStart. unfold start_result. rewrite Ht.
    unfold session_result, narration_result. rewrite Htts. fold y.
    unfold speak_result. rewrite F3, Hact, F1. reflexivity.
  - rewrite F1, F3, F4, F5, F6. split; [reflexivity|].
    split; [subst y; simpl; apply stop_result_speechQueue|].
    split; [exact Hact|].
    split.
    { eapply same_page_trans; [|exact F7].
      eapply (same_page_trans _ (stop_result (activated tiktok c w)));
        [|repeat split].
      eapply same_page_trans; [|apply same_page_stop]. repeat split. }
    subst y. simpl. now rewrite stop_result_speaks, stop_result_scrolls.
Qed.

Lemma speech_end_step (w : World) (u : Utterance) (rest : list Utterance)
    (act : Activation) :
  speechQueue w = u :: rest ->
  activations w !! u_activation u = Some act ->
  isPlaying w = true ->
  let i := S (currentSlideIndex act) in
  exec SpeechEnd w
  = narrate_from (drop i (slides (act_tiktok act))) (u_activation u)
      (act_tiktok act) (act_slider act) i
      (bump (u_activation u) (set_speechQueue rest w)).
Proof.
  intros Hq Hact Hplay. unfold exec. simpl. unfold bind at 1, get at 1.
  rewrite Hq. unfold bind at 1, modify. rewrite utterance_onend_done. simpl.
  unfold speak_result. simpl. rewrite list_lookup_alter_eq, Hact. simpl.
  rewrite Hplay. reflexivity.
Qed.

Lemma utterance_for_page tiktok sid w w' s :
  same_page w w' -> utterance_for tiktok sid w' s = utterance_for tiktok sid w s.
Proof.
  intros H. unfold utterance_for. f_equal. now apply same_page_voice.
Qed.

Lemma narrate_from_narrated (sid : ActivationId) (tiktok : TikTok)
    (c : ContainerId) (i : nat) (w0 x : World) (act : Activation) :
  isPlaying x = true -> speechQueue x = [] -> same_page w0 x ->
  activations x !! sid = Some act -> act_tiktok act = tiktok ->
  act_slider act = c -> currentSlideIndex act = i ->
  i <= length (slides tiktok) ->
  narrated sid tiktok c i w0 x
    (narrate_from (drop i (slides tiktok)) sid tiktok c i x).
Proof.
  intros Hplay Hq Hpage Hact Htk Hc Hi Hle. unfold narrated.
  set (rest := drop i (slides tiktok)).
  pose proof (narrate_from_speaks rest sid tiktok c i x) as Hsp.
  split.
  { intros Hlen.
    assert (Hrest : i + length rest <= length (slider_children x c)).
    { rewrite (same_page_children w0 x c Hpage). subst rest.
      rewrite length_drop. lia. }
    destruct (narrate_from_calls rest sid tiktok c i x Hrest) as [Hs _].
    rewrite Hs, <- reached_seq. reflexivity. }
  pose proof (same_page_narrate rest sid tiktok c i x) as Hpg.
  destruct (first_text rest) as [s|] eqn:Hft.
  - rewrite Hsp, (utterance_for_page tiktok sid w0 x s Hpage).
    split; [reflexivity|].
    destruct (narrate_from_speaking rest sid tiktok c i x s Hft)
      as (A & B & _).
    destruct (narrate_from_cursor rest sid tiktok c i x act Hact Hi)
      as (act' & C1 & C2 & C3 & C4).
    pose proof (first_text_spec rest) as Hspec. rewrite Hft in Hspec.
    destruct Hspec as (S1 & S2 & S3).
    split; [now rewrite A|].
    split; [eapply same_page_trans; eassumption|].
    split; [exists act'; repeat split; congruence|].
    exists s. split; [|split; [exact S2|]].
    + subst rest. now rewrite lookup_drop in S1.
    + rewrite B, Hq. simpl.
      now rewrite (utterance_for_page tiktok sid w0 x s Hpage).
  - rewrite Hsp, app_nil_r. split; [reflexivity|].
    split; [now apply narrate_from_ended|].
    eapply same_page_trans; eassumption.
Qed.

Lemma session_started (w : World) (c : ContainerId) (tiktok : TikTok) :
  start_target w = Some (c, tiktok) -> useBrowserTTS tiktok = true ->
  narrated (length (activations w)) tiktok c 0 w w (exec CallStart w).
Proof.
  intros Ht Htts.
  destruct (start_speech_session w c tiktok Ht Htts)
    as (x & -> & A & B & C & D & E & F).
  pose proof (narrate_from_narrated (length (activations w)) tiktok c 0 w x
                _ A B D C eq_refl eq_refl eq_refl (Nat.le_0_l _)) as H.
  unfold narrated in *. rewrite E, F in H. exact H.
Qed.

Lemma session_step (sid : ActivationId) (tiktok : TikTok) (c : ContainerId)
    (i : nat) (w0 w : World) :
  speech_live sid tiktok c i w0 w ->
  narrated sid tiktok c (S i) w0 w (exec SpeechEnd w).
Proof.
  intros (Hplay & Hpage & (act & Hact & Htk & Hc & Hi) & (s & Hs & Hb & Hq)).
  set (u := utterance_for tiktok sid w0 s) in *.
  change sid with (u_activation u) in Hact.
  rewrite (speech_end_step w u [] act Hq Hact Hplay). simpl.
  rewrite Htk, Hc, Hi.
  apply lookup_lt_Some in Hs as Hlt.
  apply (narrate_from_narrated sid tiktok c (S i) w0
           (bump sid (set_speechQueue [] w))
           (set_currentSlideIndex (S i) act)).
  - exact Hplay.
  - reflexivity.
  - exact Hpage.
  - simpl. rewrite list_lookup_alter_eq. simpl in Hact. rewrite Hact. simpl.
    now rewrite Hi.
  - exact Htk.
  - exact Hc.
  - reflexivity.
  - lia.
Qed.

Lemma speech_live_queue sid tiktok c i w0 w :
  speech_live sid tiktok c i w0 w ->
  exists s, slides tiktok !! i = Some s
            /\ speechQueue w = [utterance_for tiktok sid w0 s].
Proof. intros (_ & _ & _ & (s & A & _ & B)). now exists s. Qed.

(** C3 — a speech session over the slides [A, B, C], with text on [A] and
    [C] and none on [B] (empty or only white space): starting it scrolls to
    slide 0 and hands [A] to the speech engine, and nothing else is queued
    until [A]'s completion callback; that callback scrolls to slides 1 and 2
    and hands [C] over, with no call for [B]; [C]'s completion callback ends
    the session without a further scroll or speech call.  In all: two
    [speak] calls, for [A] then [C], and three scrolls, to 0, 1, 2. *)
Theorem sequential_speech (w : World) (c : ContainerId) (tiktok : TikTok)
    (sA sB sC : SlideData) :
  start_target w = Some (c, tiktok) ->
  useBrowserTTS tiktok = true ->
  slides tiktok = [sA; sB; sC] ->
  blank sA = false -> blank sB = true -> blank sC = false ->
  length (slider_children w c) = 3 ->
  let sid := length (activations w) in
  let uA := utterance_for tiktok sid w sA in
  let uC := utterance_for tiktok sid w sC in
  let w1 := exec CallStart w in
  let w2 := exec SpeechEnd w1 in
  let w3 := exec SpeechEnd w2 in
  (speaks (calls w1) = speaks (calls w) ++ [uA]
   /\ scrolls (calls w1) = scrolls (calls w) ++ [(c, 0)]
   /\ speechQueue w1 = [uA])
  /\ (speaks (calls w2) = speaks (calls w) ++ [uA; uC]
      /\ scrolls (calls w2) = scrolls (calls w) ++ [(c, 0); (c, 1); (c, 2)]
      /\ speechQueue w2 = [uC])
  /\ (speaks (calls w3) = speaks (calls w2)
      /\ scrolls (calls w3) = scrolls (calls w2)
      /\ isPlaying w3 = false /\ speechQueue w3 = []).
Proof.
  intros Ht Htts Hsl HA HB HC Hch sid uA uC w1 w2 w3.
  assert (Hlen : length (slides tiktok) <= length (slider_children w c))
    by (rewrite Hsl, Hch; simpl; lia).
  pose proof (session_started w c tiktok Ht Htts) as H1.
  unfold narrated in H1. rewrite Hsl in H1. simpl in H1.
  rewrite HA in H1. simpl in H1. destruct H1 as (S1 & P1 & L1).
  rewrite Hsl in Hlen. specialize (S1 Hlen).
  fold sid w1 uA in S1, P1, L1.
  pose proof (session_step sid tiktok c 0 w w1 L1) as H2.
  unfold narrated in H2. rewrite Hsl in H2. simpl in H2.
  rewrite ?HB, ?HC in H2. simpl in H2. rewrite ?HB, ?HC in H2. simpl in H2.
  destruct H2 as (S2 & P2 & L2). specialize (S2 Hlen).
  fold w2 uC in S2, P2, L2.
  pose proof (session_step sid tiktok c 2 w w2 L2) as H3.
  unfold narrated in H3. rewrite Hsl in H3. simpl in H3.
  destruct H3 as (S3 & P3 & (E1 & E2 & E3 & E4 & E5) & _).
  specialize (S3 Hlen).
  fold w3 in S3, P3, E1, E5.
  destruct (speech_live_queue _ _ _ _ _ _ L1) as (s1 & Hs1 & Q1).
  destruct (speech_live_queue _ _ _ _ _ _ L2) as (s2 & Hs2 & Q2).
  rewrite Hsl in Hs1, Hs2. simpl in Hs1, Hs2.
  injection Hs1 as <-. injection Hs2 as <-.
  split; [repeat split; assumption|].
  split.
  - rewrite P2, P1, S2, S1, <- !app_assoc. repeat split. exact Q2.
  - rewrite S3, app_nil_r. repeat split; assumption.
Qed.

Lemma sample_speech_target :
  start_target (run [ItemsIntersect [(1, true)]] sample_world)
  = Some (1, sample_speech).
Proof. vm_compute. reflexivity. Qed.

Lemma sequential_speech_witness :
  let w := run [ItemsIntersect [(1, true)]] sample_world in
  speaks (calls (run [CallStart; SpeechEnd; SpeechEnd] w))
  = [utterance_for sample_speech 0 w (sample_slide "Hello");
     utterance_for sample_speech 0 w (sample_slide "World")]
  /\ scrolls (calls (run [CallStart; SpeechEnd; SpeechEnd] w))
     = [(1, 0); (1, 1); (1, 2)].
Proof.
  intros w.
  destruct (sequential_speech w 1 sample_speech
              (sample_slide "Hello") (sample_slide "  ") (sample_slide "World"))
    as (_ & (A & B & _) & (C & D & _));
    [exact sample_speech_target|vm_compute; reflexivity..|].
  split.
  - etransitivity; [exact C|]. etransitivity; [exact A|].
    vm_compute. reflexivity.
  - etransitivity; [exact D|]. etransitivity; [exact B|].
    vm_compute. reflexivity.
Defined.

(** ** Termination of speech narration *)

Lemma speakAndAdvance_rec_fuel (fuel : nat) (sid : ActivationId) (w : World) :
  budget sid w <= fuel ->
  speakAndAdvance_rec fuel sid w = Done tt (speak_result sid w).
Proof.
  unfold budget, speak_result. intros Hfuel.
  destruct (activations w !! sid) as [act|] eqn:Hact.
  - destruct (isPlaying w) eqn:Hplay.
    + eapply speakAndAdvance_rec_done; eauto; lia.
    + destruct fuel as [|fuel]; [lia|]. simpl. unfold bind, get.
      rewrite Hact, Hplay, orb_true_r. simpl. apply stopSlideshow_done.
  - destruct fuel as [|fuel]; [lia|]. simpl. unfold bind, get.
    rewrite Hact. reflexivity.
Qed.

Lemma onend_cursor_grows (sid : ActivationId) (w : World) (act : Activation) :
  activations w !! sid = Some act ->
  exists act',
    activations (world_of (utterance_onend sid w)) !! sid = Some act'
    /\ currentSlideIndex act < currentSlideIndex act'.
Proof.
  intros Hact. rewrite utterance_onend_done. simpl. unfold speak_result.
  assert (Hb : activations (bump sid w) !! sid
               = Some (set_currentSlideIndex (S (currentSlideIndex act)) act))
    by (simpl; now rewrite list_lookup_alter_eq, Hact).
  rewrite Hb. destruct (isPlaying (bump sid w)).
  - destruct (narrate_from_cursor
                (drop (S (currentSlideIndex act)) (slides (act_tiktok act)))
                sid (act_tiktok act) (act_slider act)
                (S (currentSlideIndex act)) (bump sid w) _ Hb eq_refl)
      as (act' & A & _ & _ & B).
    exists act'. split; [exact A|]. rewrite B. lia.
  - rewrite stop_result_activations, Hb. eexists. split; [reflexivity|].
    simpl. lia.
Qed.

Lemma exec_SpeechEnd_idle (w : World) : speechQueue w = [] -> exec SpeechEnd w = w.
Proof. intros H. unfold exec. simpl. unfold bind, get. now rewrite H. Qed.

Lemma run_SpeechEnd_idle (k : nat) (w : World) :
  speechQueue w = [] -> run (repeat SpeechEnd k) w = w.
Proof.
  intros H. induction k as [|k IH]; simpl; [reflexivity|].
  now rewrite exec_SpeechEnd_idle.
Qed.

Lemma session_runs_out (sid : ActivationId) (tiktok : TikTok) (c : ContainerId)
    (w0 : World) (k : nat) :
  forall i w,
    speech_live sid tiktok c i w0 w ->
    length (slides tiktok) <= i + k ->
    isPlaying (run (repeat SpeechEnd k) w) = false
    /\ speechQueue (run (repeat SpeechEnd k) w) = [].
Proof.
  induction k as [|k IH]; intros i w Hlive Hk.
  - destruct Hlive as (_ & _ & _ & (s & Hs & _)).
    apply lookup_lt_Some in Hs. lia.
  - simpl. destruct (session_step sid tiktok c i w0 w Hlive) as [_ H].
    destruct (first_text (drop (S i) (slides tiktok))).
    + destruct H as [_ Hlive']. apply (IH _ _ Hlive'). lia.
    + destruct H as (_ & (E1 & _ & _ & _ & E5) & _).
      rewrite run_SpeechEnd_idle by exact E5. auto.
Qed.

(** C10 — the recursion of [speakAndAdvance] returns: with any budget of at
    least the number of slides left plus one it ends normally, in the same
    world; every completion callback moves the cursor strictly forward; a
    speech session on an item of [N] slides has stopped after the start and
    at most [N] completion callbacks; and an item whose slides are all
    blank starts and stops within the start call, without a [speak] call. *)
Theorem speech_narration_terminates :
  (forall sid w fuel,
     budget sid w <= fuel ->
     exists w', speakAndAdvance_rec fuel sid w = Done tt w'
                /\ speakAndAdvance sid w = Done tt w')
  /\ (forall sid w act,
        activations w !! sid = Some act ->
        exists act',
          activations (world_of (utterance_onend sid w)) !! sid = Some act'
          /\ currentSlideIndex act < currentSlideIndex act')
  /\ (forall w c tiktok,
        start_target w = Some (c, tiktok) -> useBrowserTTS tiktok = true ->
        let w' := run (CallStart :: repeat SpeechEnd (length (slides tiktok))) w in
        isPlaying w' = false /\ speechQueue w' = [])
  /\ (forall w c tiktok,
        start_target w = Some (c, tiktok) -> useBrowserTTS tiktok = true ->
        Forall (fun s => blank s = true) (slides tiktok) ->
        let w' := exec CallStart w in
        isPlaying w' = false /\ speechQueue w' = []
        /\ speaks (calls w') = speaks (calls w)).
Proof.
  split; [|split; [|split]].
  - intros sid w fuel Hfuel. exists (speak_result sid w).
    split; [now apply speakAndAdvance_rec_fuel|apply speakAndAdvance_done].
  - exact onend_cursor_grows.
  - intros w c tiktok Ht Htts. simpl.
    destruct (session_started w c tiktok Ht Htts) as [_ H].
    destruct (first_text (drop 0 (slides tiktok))).
    + destruct H as [_ Hlive].
      apply (session_runs_out _ _ _ _ _ _ _ Hlive). lia.
    + destruct H as (_ & (E1 & _ & _ & _ & E5) & _).
      rewrite run_SpeechEnd_idle by exact E5. auto.
  - intros w c tiktok Ht Htts Hall. simpl.
    destruct (session_started w c tiktok Ht Htts) as [_ H].
    rewrite drop_0, (first_text_all_blank _ Hall) in H.
    destruct H as (Hsp & (E1 & _ & _ & _ & E5) & _). auto.
Qed.

Lemma speech_narration_terminates_witness :
  let w := run [ItemsIntersect [(1, true)]] sample_world in
  (exists w', speakAndAdvance_rec 5 0 (exec CallStart w) = Done tt w')
  /\ isPlaying (run [CallStart; SpeechEnd; SpeechEnd; SpeechEnd] w) = false.
Proof.
  intros w.
  destruct speech_narration_terminates as (H1 & _ & H3 & _).
  split.
  - destruct (H1 0 (exec CallStart w) 5) as (w' & Hw' & _).
    + vm_compute. lia.
    + now exists w'.
  - apply (H3 w 1 sample_speech).
    + exact sample_speech_target.
    + reflexivity.
Defined.

(** ** Time-proportional advancement *)

Lemma Qeq_bool_pos (q : Q) : (0 < q)%Q -> Qeq_bool q 0 = false.
Proof.
  intros H. destruct (Qeq_bool q 0) eqn:E; [|reflexivity].
  apply Qeq_bool_eq in E. rewrite E in H. exfalso. exact (Qlt_irrefl 0 H).
Qed.

Lemma inject_nat_pos (n : nat) : 0 < n -> (0 < inject_Z (Z.of_nat n))%Q.
Proof.
  intros H. change 0%Q with (inject_Z 0). rewrite <- Zlt_Qlt. lia.
Qed.

Lemma slide_duration_pos (d : Q) (n : nat) :
  (0 < d)%Q -> 0 < n -> (0 < d / inject_Z (Z.of_nat n))%Q.
Proof.
  intros Hd Hn. apply Qlt_shift_div_l; [now apply inject_nat_pos|].
  now rewrite Qmult_0_l.
Qed.

(** *** Rounding *)

Lemma pow2_pos (e : Z) : (0 < pow2 e)%Q.
Proof. apply Qpower_0_lt. reflexivity. Qed.

Lemma pow2_le (n m : Z) : (n <= m)%Z -> (pow2 n <= pow2 m)%Q.
Proof. intros H. apply Qpower_le_compat_l; [exact H|discriminate]. Qed.

Lemma pow2_lt (n m : Z) : (n < m)%Z -> (pow2 n < pow2 m)%Q.
Proof. intros H. apply Qpower_lt_compat_l; [exact H|reflexivity]. Qed.

Lemma pow2_lt_inv (n m : Z) : (pow2 n < pow2 m)%Q -> (n < m)%Z.
Proof. intros H. apply (Qpower_lt_compat_l_inv 2); [exact H|reflexivity]. Qed.

Lemma pow2_plus (n m : Z) : (pow2 (n + m) == pow2 n * pow2 m)%Q.
Proof. apply Qpower_plus. discriminate. Qed.

Lemma pow2_succ (n : Z) : (pow2 (n + 1) == 2 * pow2 n)%Q.
Proof. rewrite pow2_plus. change (pow2 1) with 2%Q. ring. Qed.

Lemma pow2_Z (n : Z) : (0 <= n)%Z -> (inject_Z (2 ^ n) == pow2 n)%Q.
Proof. intros H. apply (Zpower_Qpower 2 n H). Qed.

Lemma log2_bounds (a : Z) :
  (0 < a)%Z ->
  (pow2 (Z.log2 a) <= inject_Z a)%Q /\ (inject_Z a < pow2 (Z.log2 a + 1))%Q.
Proof.
  intros Ha. destruct (Z.log2_spec a Ha) as [H1 H2].
  pose proof (Z.log2_nonneg a) as Hl.
  rewrite <- !pow2_Z by lia. rewrite <- Zle_Qle, <- Zlt_Qlt.
  split; [exact H1|]. now rewrite <- Z.add_1_r in H2.
Qed.

Lemma ilog2_spec (x : Q) :
  (0 < x)%Q -> (pow2 (ilog2 x) <= x)%Q /\ (x < pow2 (ilog2 x + 1))%Q.
Proof.
  intros Hx. unfold ilog2.
  assert (Hnum : (0 < Qnum x)%Z).
  { destruct x as [a b]. unfold Qlt in Hx. simpl in *. lia. }
  destruct (log2_bounds (Qnum x) Hnum) as [A1 A2].
  destruct (log2_bounds (Z.pos (Qden x)) eq_refl) as [B1 B2].
  assert (Ex : (x == inject_Z (Qnum x) / inject_Z (Z.pos (Qden x)))%Q).
  { destruct x as [a b]. simpl. apply Qmake_Qdiv. }
  assert (Hb : (0 < inject_Z (Z.pos (Qden x)))%Q) by reflexivity.
  revert A1 A2 B1 B2.
  generalize (Z.log2 (Qnum x)) as la. generalize (Z.log2 (Z.pos (Qden x))) as lb.
  intros lb la A1 A2 B1 B2.
  assert (E1 : (pow2 (la + 1) == pow2 (la - lb + 1) * pow2 lb)%Q).
  { rewrite <- pow2_plus. now replace (la - lb + 1 + lb)%Z with (la + 1)%Z by lia. }
  assert (E2 : (pow2 la == pow2 (la - lb - 1) * pow2 (lb + 1))%Q).
  { rewrite <- pow2_plus. now replace (la - lb - 1 + (lb + 1))%Z with la by lia. }
  assert (Hup : (x < pow2 (la - lb + 1))%Q).
  { rewrite Ex. apply Qlt_shift_div_r; [exact Hb|].
    eapply Qlt_le_trans; [exact A2|]. rewrite E1.
    apply Qmult_le_l; [apply pow2_pos|exact B1]. }
  assert (Hlo : (pow2 (la - lb - 1) < x)%Q).
  { rewrite Ex. apply Qlt_shift_div_l; [exact Hb|].
    eapply Qlt_le_trans; [|exact A1]. rewrite E2.
    apply Qmult_lt_l; [apply pow2_pos|exact B2]. }
  destruct (Qle_bool (pow2 (la - lb)) x) eqn:E.
  - apply Qle_bool_iff in E. auto.
  - replace (la - lb - 1 + 1)%Z with (la - lb)%Z by lia.
    split; [now apply Qlt_le_weak|].
    apply Qnot_le_lt. intros H. apply Qle_bool_iff in H. congruence.
Qed.

Lemma ilog2_mono (x y : Q) :
  (0 < x)%Q -> (x <= y)%Q -> (ilog2 x <= ilog2 y)%Z.
Proof.
  intros Hx Hxy.
  destruct (ilog2_spec x Hx) as [A _].
  destruct (ilog2_spec y (Qlt_le_trans _ _ _ Hx Hxy)) as [_ B].
  assert (H : (pow2 (ilog2 x) < pow2 (ilog2 y + 1))%Q)
    by (eapply Qle_lt_trans; [exact A|]; eapply Qle_lt_trans; eassumption).
  apply pow2_lt_inv in H. lia.
Qed.

Lemma round_half_even_bounds (x : Q) :
  (Qfloor x <= round_half_even x <= Qfloor x + 1)%Z.
Proof.
  unfold round_half_even. destruct (_ ?= _)%Q; [destruct (Z.even _)|..]; lia.
Qed.

Lemma round_half_even_Z (z : Z) : round_half_even (inject_Z z) = z.
Proof.
  unfold round_half_even. rewrite Qfloor_Z.
  assert (H : (inject_Z z - inject_Z z ?= 1 # 2)%Q = Lt).
  { apply (proj1 (Qlt_alt _ _)). lra. }
  now rewrite H.
Qed.

Lemma round_half_even_mono (x y : Q) :
  (x <= y)%Q -> (round_half_even x <= round_half_even y)%Z.
Proof.
  intros Hxy. pose proof (Qfloor_resp_le x y Hxy) as Hf.
  pose proof (round_half_even_bounds x) as Bx.
  pose proof (round_half_even_bounds y) as By.
  destruct (Z.eq_dec (Qfloor x) (Qfloor y)) as [E|E]; [|lia].
  unfold round_half_even in *. rewrite E in *.
  destruct (x - inject_Z (Qfloor y) ?= 1 # 2)%Q eqn:Cx;
    destruct (y - inject_Z (Qfloor y) ?= 1 # 2)%Q eqn:Cy;
    try (destruct (Z.even (Qfloor y)); lia); try lia; exfalso;
    try apply (proj2 (Qeq_alt _ _)) in Cx; try apply (proj2 (Qlt_alt _ _)) in Cx;
    try apply (proj2 (Qgt_alt _ _)) in Cx;
    try apply (proj2 (Qeq_alt _ _)) in Cy; try apply (proj2 (Qlt_alt _ _)) in Cy;
    try apply (proj2 (Qgt_alt _ _)) in Cy;
    lra.
Qed.

Lemma round_half_even_error (x : Q) :
  (Qabs (inject_Z (round_half_even x) - x) <= 1 # 2)%Q.
Proof.
  pose proof (Qfloor_le x) as H1. pose proof (Qlt_floor x) as H2.
  rewrite inject_Z_plus in H2. change (inject_Z 1) with 1%Q in H2.
  apply Qabs_Qle_condition. unfold round_half_even.
  destruct (x - inject_Z (Qfloor x) ?= 1 # 2)%Q eqn:C.
  - apply (proj2 (Qeq_alt _ _)) in C. destruct (Z.even (Qfloor x));
      rewrite ?inject_Z_plus; change (inject_Z 1) with 1%Q; split; lra.
  - apply (proj2 (Qlt_alt _ _)) in C. split; lra.
  - apply (proj2 (Qgt_alt _ _)) in C. rewrite inject_Z_plus.
    change (inject_Z 1) with 1%Q. split; lra.
Qed.

Lemma round_magnitude_eq (x : Q) :
  (round_magnitude x
   == inject_Z (round_half_even (x / pow2 (exponent x))) * pow2 (exponent x))%Q.
Proof. unfold round_magnitude. apply Qred_correct. Qed.

Lemma exponent_mono (x y : Q) :
  (0 < x)%Q -> (x <= y)%Q -> (exponent x <= exponent y)%Z.
Proof.
  intros Hx Hxy. pose proof (ilog2_mono x y Hx Hxy). unfold exponent. lia.
Qed.

Lemma scaled_lt (x : Q) :
  (0 < x)%Q -> (x / pow2 (exponent x) < inject_Z (2 ^ 53))%Q.
Proof.
  intros Hx. destruct (ilog2_spec x Hx) as [_ H].
  apply Qlt_shift_div_r; [apply pow2_pos|].
  rewrite pow2_Z by lia. rewrite <- pow2_plus.
  eapply Qlt_le_trans; [exact H|]. apply pow2_le. unfold exponent. lia.
Qed.

Lemma scaled_ge (x : Q) :
  (0 < x)%Q -> (-1074 < exponent x)%Z ->
  (inject_Z (2 ^ 52) <= x / pow2 (exponent x))%Q.
Proof.
  intros Hx He. destruct (ilog2_spec x Hx) as [H _].
  apply Qle_shift_div_l; [apply pow2_pos|].
  rewrite pow2_Z by lia. rewrite <- pow2_plus.
  eapply Qle_trans; [|exact H]. apply pow2_le. unfold exponent in *. lia.
Qed.

Lemma round_magnitude_nonneg (x : Q) : (0 < x)%Q -> (0 <= round_magnitude x)%Q.
Proof.
  intros Hx. rewrite round_magnitude_eq.
  apply Qmult_le_0_compat; [|apply Qlt_le_weak, pow2_pos].
  change 0%Q with (inject_Z 0). rewrite <- Zle_Qle.
  rewrite <- (round_half_even_Z 0). apply round_half_even_mono.
  apply Qle_shift_div_l; [apply pow2_pos|]. rewrite Qmult_0_l.
  now apply Qlt_le_weak.
Qed.

Lemma round_magnitude_mono (x y : Q) :
  (0 < x)%Q -> (x <= y)%Q -> (round_magnitude x <= round_magnitude y)%Q.
Proof.
  intros Hx Hxy. assert (Hy : (0 < y)%Q) by (eapply Qlt_le_trans; eassumption).
  rewrite !round_magnitude_eq.
  pose proof (exponent_mono x y Hx Hxy) as He.
  destruct (Z.eq_dec (exponent x) (exponent y)) as [E|E].
  - rewrite E. apply Qmult_le_compat_r; [|apply Qlt_le_weak, pow2_pos].
    rewrite <- Zle_Qle. apply round_half_even_mono.
    apply Qmult_le_compat_r; [exact Hxy|].
    apply Qlt_le_weak, Qinv_lt_0_compat, pow2_pos.
  - apply (Qle_trans _ (pow2 (exponent x + 53))).
    + rewrite pow2_plus, (Qmult_comm (pow2 (exponent x))).
      apply Qmult_le_compat_r; [|apply Qlt_le_weak, pow2_pos].
      rewrite <- (pow2_Z 53) by lia. rewrite <- Zle_Qle.
      rewrite <- (round_half_even_Z (2 ^ 53)). apply round_half_even_mono.
      apply Qlt_le_weak, scaled_lt, Hx.
    + apply (Qle_trans _ (pow2 (exponent y + 52))); [apply pow2_le; lia|].
      rewrite pow2_plus, (Qmult_comm (pow2 (exponent y))).
      apply Qmult_le_compat_r; [|apply Qlt_le_weak, pow2_pos].
      rewrite <- (pow2_Z 52) by lia. rewrite <- Zle_Qle.
      rewrite <- (round_half_even_Z (2 ^ 52)) at 1. apply round_half_even_mono.
      apply scaled_ge; [exact Hy|]. unfold exponent in *. lia.
Qed.

Lemma round64_pos (x : Q) :
  (0 < x)%Q ->
  round64 x = (if Qle_bool (pow2 1024) (round_magnitude x) then PosInf
               else Fin (round_magnitude x)).
Proof.
  intros H. unfold round64. apply (proj1 (Qgt_alt _ _)) in H. now rewrite H.
Qed.

Lemma round64_neg (x : Q) :
  (x < 0)%Q ->
  round64 x = (if Qle_bool (pow2 1024) (round_magnitude (- x)) then NegInf
               else Fin (- round_magnitude (- x))).
Proof.
  intros H. unfold round64. apply (proj1 (Qlt_alt _ _)) in H. now rewrite H.
Qed.

Lemma round64_zero (x : Q) : (x == 0)%Q -> round64 x = Fin 0.
Proof.
  intros H. unfold round64. apply (proj1 (Qeq_alt _ _)) in H. now rewrite H.
Qed.

Lemma round64_nonneg (x : Q) :
  (0 <= x)%Q -> num_le (Fin 0) (round64 x).
Proof.
  intros H. destruct (Qlt_le_dec 0 x) as [Hp|Hn].
  - rewrite (round64_pos x Hp). destruct (Qle_bool _ _); simpl; [exact I|].
    now apply round_magnitude_nonneg.
  - rewrite round64_zero by (apply Qle_antisym; assumption). simpl. lra.
Qed.

Lemma round64_nonpos (x : Q) :
  (x <= 0)%Q -> num_le (round64 x) (Fin 0).
Proof.
  intros H. destruct (Qlt_le_dec x 0) as [Hp|Hn].
  - rewrite (round64_neg x Hp). destruct (Qle_bool _ _); simpl; [exact I|].
    assert (Hx : (0 < - x)%Q) by lra.
    pose proof (round_magnitude_nonneg (- x) Hx). lra.
  - rewrite round64_zero by (apply Qle_antisym; assumption). simpl. lra.
Qed.

Lemma num_le_trans (a b c : number) : num_le a b -> num_le b c -> num_le a c.
Proof.
  destruct a, b, c; simpl; try tauto. apply Qle_trans.
Qed.

Lemma round64_mono (x y : Q) :
  (x <= y)%Q -> num_le (round64 x) (round64 y).
Proof.
  intros Hxy.
  destruct (Qlt_le_dec 0 x) as [Hx|Hx].
  - assert (Hy : (0 < y)%Q) by lra.
    pose proof (round_magnitude_mono x y Hx Hxy) as Hm.
    rewrite (round64_pos x Hx), (round64_pos y Hy).
    destruct (Qle_bool (pow2 1024) (round_magnitude x)) eqn:Ex;
      destruct (Qle_bool (pow2 1024) (round_magnitude y)) eqn:Ey;
      simpl; auto.
    apply Qle_bool_iff in Ex.
    assert (H : (pow2 1024 <= round_magnitude y)%Q) by (eapply Qle_trans; eassumption).
    apply Qle_bool_iff in H. congruence.
  - destruct (Qlt_le_dec y 0) as [Hy|Hy].
    + assert (Hx' : (x < 0)%Q) by lra.
      assert (Hm : (round_magnitude (- y) <= round_magnitude (- x))%Q)
        by (apply round_magnitude_mono; lra).
      rewrite (round64_neg x Hx'), (round64_neg y Hy).
      destruct (Qle_bool (pow2 1024) (round_magnitude (- x))) eqn:Ex;
        destruct (Qle_bool (pow2 1024) (round_magnitude (- y))) eqn:Ey;
        simpl; auto; [|lra].
      apply Qle_bool_iff in Ey.
      assert (H : (pow2 1024 <= round_magnitude (- x))%Q) by (eapply Qle_trans; eassumption).
      apply Qle_bool_iff in H. congruence.
    + eapply num_le_trans; [apply round64_nonpos, Hx|apply round64_nonneg, Hy].
Qed.

Lemma num_floor_mono (a b : number) :
  num_le a b -> num_le (num_floor a) (num_floor b).
Proof.
  destruct a, b; simpl; auto. intros H. rewrite <- Zle_Qle.
  now apply Qfloor_resp_le.
Qed.

Lemma num_le_not_lt (a b : number) : num_le a b -> num_lt b a = false.
Proof.
  destruct a, b; simpl; try tauto. intros H.
  apply Qle_bool_iff in H. now rewrite H.
Qed.

(** *** The target of a sample *)

Lemma slide_duration_cases (d : Q) (n : nat) :
  (0 < d)%Q -> 0 < n ->
  num_div (Fin d) (of_nat n) = round64 (d / inject_Z (Z.of_nat n))
  /\ (num_div (Fin d) (of_nat n) = PosInf
      \/ exists s, num_div (Fin d) (of_nat n) = Fin s /\ (0 <= s)%Q).
Proof.
  intros Hd Hn. unfold num_div, of_nat.
  rewrite (Qeq_bool_pos _ (inject_nat_pos n Hn)). split; [reflexivity|].
  pose proof (round64_nonneg _ (Qlt_le_weak _ _ (slide_duration_pos d n Hd Hn)))
    as H.
  destruct (round64 (d / inject_Z (Z.of_nat n))) as [| | |s];
    simpl in H; try contradiction; eauto.
Qed.

Lemma Qeq_bool_false (q : Q) : ~ (q == 0)%Q -> Qeq_bool q 0 = false.
Proof.
  intros H. destruct (Qeq_bool q 0) eqn:E; [|reflexivity].
  apply Qeq_bool_eq in E. contradiction.
Qed.

Lemma quotient_shape (t s : Q) :
  (0 <= t)%Q -> (0 <= s)%Q ->
  let q := num_floor (num_div (Fin t) (Fin s)) in
  q = NaN \/ q = PosInf \/ exists z, (0 <= z)%Z /\ q = Fin (inject_Z z).
Proof.
  intros Ht Hs. unfold num_div.
  destruct (Qeq_bool s 0) eqn:Es.
  - destruct (Qeq_bool t 0); [now left|].
    apply Qle_bool_iff in Ht. rewrite Ht. right. now left.
  - assert (Hpos : (0 < s)%Q).
    { apply Qle_lteq in Hs as [H|H]; [exact H|].
      symmetry in H. apply Qeq_bool_iff in H. congruence. }
    assert (Hq : (0 <= t / s)%Q).
    { apply Qle_shift_div_l; [exact Hpos|]. now rewrite Qmult_0_l. }
    pose proof (round64_nonneg _ Hq) as H.
    destruct (round64 (t / s)) as [| | |r]; simpl in *; try contradiction.
    + right. now left.
    + right. right. exists (Qfloor r). split; [|reflexivity].
      change 0%Z with (Qfloor 0). now apply Qfloor_resp_le.
Qed.

Lemma target_shape (el : AudioEl) (n : nat) (d : Q) :
  duration el = Fin d -> (0 < d)%Q -> 0 < n -> (0 <= currentTime el)%Q ->
  target_index el n = NaN \/ target_index el n = PosInf
  \/ exists z, (0 <= z)%Z /\ target_index el n = Fin (inject_Z z).
Proof.
  intros Hdur Hd Hn Ht. unfold target_index. rewrite Hdur.
  destruct (slide_duration_cases d n Hd Hn) as [_ [->|(s & -> & Hs)]].
  - right. right. exists 0%Z. split; [lia|reflexivity].
  - now apply quotient_shape.
Qed.

Lemma quotient_mono (s t1 t2 : Q) :
  (0 <= s)%Q -> (t1 <= t2)%Q ->
  num_lt (num_floor (num_div (Fin t2) (Fin s)))
    (num_floor (num_div (Fin t1) (Fin s))) = false.
Proof.
  intros Hs Ht. unfold num_div. destruct (Qeq_bool s 0) eqn:Es.
  - destruct (Qeq_bool t2 0) eqn:E2; [reflexivity|].
    destruct (Qeq_bool t1 0) eqn:E1;
      [destruct (Qle_bool 0 t2); reflexivity|].
    destruct (Qle_bool 0 t2) eqn:L2; destruct (Qle_bool 0 t1) eqn:L1;
      try reflexivity.
    exfalso. apply Qle_bool_iff in L1.
    assert (H : (0 <= t2)%Q) by (eapply Qle_trans; eassumption).
    apply Qle_bool_iff in H. congruence.
  - assert (Hpos : (0 < s)%Q).
    { apply Qle_lteq in Hs as [H|H]; [exact H|].
      symmetry in H. apply Qeq_bool_iff in H. congruence. }
    apply num_le_not_lt, num_floor_mono, round64_mono.
    apply Qmult_le_compat_r; [exact Ht|].
    apply Qlt_le_weak, Qinv_lt_0_compat, Hpos.
Qed.

Lemma num_lt_inject (z : Z) (n : nat) :
  num_lt (Fin (inject_Z z)) (of_nat n) = (z <? Z.of_nat n)%Z.
Proof.
  unfold num_lt, of_nat.
  destruct (Z.ltb_spec z (Z.of_nat n)) as [H|H].
  - destruct (Qle_bool (inject_Z (Z.of_nat n)) (inject_Z z)) eqn:E;
      [|reflexivity].
    apply Qle_bool_iff in E. rewrite <- Zle_Qle in E. lia.
  - assert (E : Qle_bool (inject_Z (Z.of_nat n)) (inject_Z z) = true)
      by (apply Qle_bool_iff; now rewrite <- Zle_Qle).
    now rewrite E.
Qed.

Lemma as_index_inject (z : Z) :
  (0 <= z)%Z -> as_index (Fin (inject_Z z)) = Some (Z.to_nat z).
Proof.
  intros H. unfold as_index. rewrite Qfloor_Z, Qeq_bool_refl.
  assert (E : Qle_bool 0 (inject_Z z) = true).
  { apply Qle_bool_iff. change 0%Q with (inject_Z 0). now rewrite <- Zle_Qle. }
  now rewrite E.
Qed.

Lemma audio_at_lookup (w : World) (a : AudioId) (el : AudioEl) :
  audios w !! a = Some el -> audio_at w a = el.
Proof. intros H. unfold audio_at. now rewrite H. Qed.

(** C4 — at a time-progress sample of a playing narration element whose
    duration is known, the target is
    [floor (currentTime / (duration / slides.length))], computed as the code
    computes it: both quotients are JavaScript numbers, rounded to binary64.
    The listener scrolls to the target and records it as last-displayed
    exactly when it differs from the last-displayed index and is below the
    slide count, and otherwise does nothing.  With 4 slides and 20 seconds,
    samples at 0, 5, 10, 15 and 19 seconds display slides 0, 1, 2, 3, 3,
    with one scroll for each of the first four. *)
Theorem time_proportional_advance :
  (forall (sid : ActivationId) (w : World) (act : Activation) (a : AudioId)
          (el : AudioEl) (d : Q),
     activations w !! sid = Some act ->
     currentAudio w = Some a ->
     audios w !! a = Some el ->
     paused el = false ->
     duration el = Fin d -> (0 < d)%Q -> (0 <= currentTime el)%Q ->
     0 < length (slides (act_tiktok act)) ->
     length (slider_children w (act_slider act))
     = length (slides (act_tiktok act)) ->
     let n := length (slides (act_tiktok act)) in
     let slideDuration := num_div (Fin d) (of_nat n) in
     let target := num_floor (num_div (Fin (currentTime el)) slideDuration) in
     target_index el n = target
     /\ if num_neq target (lastSlideIndex act) && num_lt target (of_nat n)
        then
          exists k : nat,
            target = of_nat k /\ k < n
            /\ audio_ontimeupdate sid w
               = Done tt
                   (set_activations
                      (alter (set_lastSlideIndex target) sid (activations w))
                      (set_calls
                         (calls w ++ [scrollIntoView (act_slider act) k]) w))
        else audio_ontimeupdate sid w = Done tt w)
  /\ (map (fun samples => displayed (run samples song_playing))
        [[TimeUpdate 2 0];
         [TimeUpdate 2 0; TimeUpdate 2 5];
         [TimeUpdate 2 0; TimeUpdate 2 5; TimeUpdate 2 10];
         [TimeUpdate 2 0; TimeUpdate 2 5; TimeUpdate 2 10; TimeUpdate 2 15];
         [TimeUpdate 2 0; TimeUpdate 2 5; TimeUpdate 2 10; TimeUpdate 2 15;
          TimeUpdate 2 19]]
      = [Some (Fin 0); Some (Fin 1); Some (Fin 2); Some (Fin 3); Some (Fin 3)]
      /\ scrolls (calls (run [TimeUpdate 2 0; TimeUpdate 2 5; TimeUpdate 2 10;
                              TimeUpdate 2 15; TimeUpdate 2 19] song_playing))
         = [(0, 0); (0, 1); (0, 2); (0, 3)]).
Proof.
  split; [|split; vm_compute; reflexivity].
  intros sid w act a el d Hact Hcur Hel Hp Hdur Hd Ht Hn Hch n slideDuration
    target.
  assert (Hidx : target_index el n = target)
    by (unfold target_index; now rewrite Hdur).
  split; [exact Hidx|].
  rewrite audio_ontimeupdate_done. unfold timeupdate_result.
  rewrite Hact, Hcur, (audio_at_lookup w a el Hel), Hp.
  replace (num_falsy (duration el)) with false
    by (rewrite Hdur; symmetry; apply (Qeq_bool_pos d Hd)).
  cbn [orb]. fold n. rewrite Hidx.
  destruct (num_neq target (lastSlideIndex act) && num_lt target (of_nat n))
    eqn:Hcond; [|reflexivity].
  apply andb_true_iff in Hcond as [_ Hlt].
  destruct (target_shape el n d Hdur Hd Hn Ht) as [E|[E|(z & Hz & E)]];
    rewrite Hidx in E; rewrite E in Hlt; try discriminate Hlt.
  rewrite num_lt_inject in Hlt. apply Z.ltb_lt in Hlt.
  exists (Z.to_nat z).
  assert (Ek : target = of_nat (Z.to_nat z))
    by (unfold of_nat; now rewrite Z2Nat.id).
  split; [exact Ek|]. split; [lia|].
  rewrite (f_equal as_index E), (as_index_inject z Hz). simpl.
  destruct (lookup_lt_is_Some_2 (slider_children w (act_slider act))
              (Z.to_nat z)) as [x Hx]; [rewrite Hch; fold n; lia|].
  unfold scroll_result. rewrite Hx. reflexivity.
Qed.

Lemma time_proportional_advance_witness :
  let w := world_of (update_audio 2 (set_currentTime 9) long_song_playing) in
  target_index (audio_at w 2) 14 = of_nat 6
  /\ scrolls (calls (world_of (audio_ontimeupdate 0 w))) = [(0, 6)].
Proof.
  intros w.
  pose (act := default (mkActivation long_song 0 0 NaN) (activations w !! 0)).
  destruct (proj1 time_proportional_advance 0 w act 2 (audio_at w 2) 18%Q)
    as [Hidx Hrun]; try (vm_compute; reflexivity).
  - vm_compute. discriminate.
  - vm_compute. lia.
  - split; [vm_compute; reflexivity|].
    destruct (num_neq _ _ && _) eqn:Hcond in Hrun;
      [|vm_compute in Hcond; discriminate Hcond].
    destruct Hrun as (k & Hk & _ & Hrun).
    assert (E : k = 6).
    { unfold of_nat, inject_Z in Hk.
      match type of Hk with
      | ?l = _ => let v := eval vm_compute in l in change l with v in Hk
      end.
      injection Hk as Hk. lia. }
    subst k. rewrite Hrun. vm_compute. reflexivity.
Defined.

(** ** Errors *)

Lemma fatal_stop (message : jsstring) (w : World) :
  handles_cover w -> fatal_outcome message w (stop_result (popup message w)).
Proof.
  intros Hc. destruct (stop_result_errorModal (popup message w)) as (A & B & C).
  unfold fatal_outcome. rewrite A, B, C.
  split; [reflexivity|]. split; [reflexivity|]. split; [reflexivity|].
  split; [apply stop_result_stopped|].
  split; [apply stop_result_quiet; now apply (handles_cover_ext w)|].
  exact (stop_result_calls (popup message w)).
Qed.

(** C7 — a rejected instrumental [play()] only shows its message: flags,
    handles, audio elements, speech queue, cursors and the call log stay as
    they are, so narration goes on.  A speech error, a narration-audio error
    and a rejected narration [play()] show their message and stop the
    session, making no call other than [pause] and [cancel]; the audio-error
    message carries the element's error message and code when the element
    has an error object. *)
Theorem error_policy (w : World) :
  (forall message,
     exists w',
       instrumental_play_catch message w = Done tt w'
       /\ errorModalMessage w'
          = lit "Instrumental playback failed:" ++ [10%N] ++ message
       /\ errorModal_hidden w' = false /\ modalOverlay_hidden w' = false
       /\ playback_state w' = playback_state w
       /\ activations w' = activations w /\ calls w' = calls w)
  /\ (handles_cover w ->
      (forall code,
         exists w',
           utterance_onerror code w = Done tt w'
           /\ fatal_outcome (lit "Speech synthesis failed: " ++ code) w w')
      /\ (exists w',
            audio_onerror w = Done tt w'
            /\ fatal_outcome (audio_error_message w) w w')
      /\ (forall message,
            exists w',
              vocal_play_catch message w = Done tt w'
              /\ fatal_outcome
                   (lit "Vocal playback failed:" ++ [10%N] ++ message) w w'))
  /\ (forall a e,
        currentAudio w = Some a -> error (audio_at w a) = Some e ->
        audio_error_message w
        = lit "Vocal playback failed:" ++ [10%N] ++ me_message e
            ++ lit " (code: " ++ decimal (me_code e) ++ lit ")").
Proof.
  split; [|split].
  - intros message. eexists. split; [reflexivity|]. repeat split.
  - intros Hc. split; [|split].
    + intros code. eexists. split; [apply utterance_onerror_done|].
      now apply fatal_stop.
    + eexists. split; [apply audio_onerror_done|]. now apply fatal_stop.
    + intros message. eexists. split; [apply vocal_play_catch_done|].
      now apply fatal_stop.
  - intros a e Ha He. unfold audio_error_message. now rewrite Ha, He.
Qed.

Lemma song_playing_cover : handles_cover song_playing.
Proof.
  apply session_inv_cover. unfold song_playing. apply session_inv_run.
  - repeat constructor; discriminate.
  - exists 0. apply quiet_owned_by, sample_world_quiet.
Qed.

Lemma error_policy_witness :
  exists w',
    audio_onerror song_playing = Done tt w'
    /\ fatal_outcome (audio_error_message song_playing) song_playing w'.
Proof.
  destruct (error_policy song_playing) as (_ & H & _).
  destruct (H song_playing_cover) as (_ & H2 & _). exact H2.
Defined.

(** ** Callbacks of a stopped session *)








(** ** Blank slides *)

Lemma selectedVoice_spec (tiktok : TikTok) (w : World) :
  match selectedVoice tiktok w with
  | Some v => voiceName tiktok = Some v /\ v ∈ voices w
  | None =>
      truthy (voiceName tiktok) = false
      \/ (forall v, voiceName tiktok = Some v -> v ∉ voices w)
  end.
Proof.
  unfold selectedVoice. destruct (truthy (voiceName tiktok)); [|now left].
  destruct (find _ (voices w)) as [v|] eqn:Hf.
  - apply find_some in Hf as [Hin Hv]. apply bool_decide_eq_true in Hv.
    split; [now symmetry|]. now apply list_elem_of_In.
  - right. intros v Hv Hin. apply list_elem_of_In in Hin.
    pose proof (find_none _ _ Hf v Hin) as Hn. simpl in Hn.
    apply bool_decide_eq_false in Hn. congruence.
Qed.

Lemma narrate_from_call_log (rest : list SlideData) :
  forall sid tiktok c i w,
    i + length rest <= length (slider_children w c) ->
    exists released,
      forallb is_release released = true
      /\ calls (narrate_from rest sid tiktok c i w)
         = calls w ++ map (scrollIntoView c) (reached rest i)
             ++ match first_text rest with
                | Some s => [speak (utterance_for tiktok sid w s)]
                | None => released
                end.
Proof.
  induction rest as [|s rest IH]; intros sid tiktok c i w Hlen; simpl.
  - destruct (stop_result_calls w) as (released & Hc & Hr).
    exists released. split; [exact Hr|exact Hc].
  - simpl in Hlen.
    destruct (lookup_lt_is_Some_2 (slider_children w c) i) as [x Hx]; [lia|].
    pose proof (scroll_result_calls c i w x Hx) as Hcalls.
    assert (Hpage : same_page w (set_cursor sid (S i) (scroll_result c i w))).
    { eapply same_page_trans; [apply (same_page_scroll c i)|repeat split]. }
    destruct (blank s).
    + destruct (IH sid tiktok c (S i)
                  (set_cursor sid (S i) (scroll_result c i w)))
        as (released & Hr & Hc).
      { rewrite (same_page_children w); [lia|exact Hpage]. }
      exists released. split; [exact Hr|]. rewrite Hc. simpl.
      rewrite Hcalls, <- app_assoc. simpl. f_equal. f_equal. f_equal.
      destruct (first_text rest); [|reflexivity].
      unfold utterance_for. do 3 f_equal. now apply same_page_voice.
    + exists []. split; [reflexivity|]. simpl. rewrite Hcalls, <- app_assoc.
      simpl. unfold utterance_for. do 5 f_equal.
      apply same_page_voice, (same_page_scroll c i).
Qed.

(** C9, as stated, fails: the completion callback of the first utterance of
    the sample item scrolls to slide 1, whose text is blank. *)
Lemma blank_slide_is_scrolled :
  ~ scrolls_only_text sample_speech speech_playing (exec SpeechEnd speech_playing).
Proof.
  intros H. destruct (H 1 1) as (s & Hs & Hb).
  - vm_compute. right. left. reflexivity.
  - vm_compute. intros [E|[]]. discriminate E.
  - vm_compute in Hs. injection Hs as <-. vm_compute in Hb. discriminate Hb.
Qed.

(** C9, amended — one run of [speakAndAdvance] in a playing session, with
    the cursor at [i] and an element in the slider for every slide: every
    slide from [i] up to and including the first one with text is scrolled
    into view, blank or not, in index order; the blank ones get no [speak]
    call and are passed within the same run; the first slide with text is
    handed to the speech engine, untrimmed, with the item's voice when the
    engine has a voice of that name and with the default voice otherwise;
    when no slide with text is left the session stops.  The calls the run
    makes are exactly these and in this order: the scrolls, the scroll of
    the slide with text last among them, and only then the one [speak] (or,
    when no text is left, the [pause] and [cancel] calls of the stop). *)
Theorem blank_slides_skipped (sid : ActivationId) (w : World) (act : Activation) :
  activations w !! sid = Some act ->
  isPlaying w = true ->
  let tiktok := act_tiktok act in
  let c := act_slider act in
  let i := currentSlideIndex act in
  let rest := drop i (slides tiktok) in
  i <= length (slides tiktok) ->
  length (slides tiktok) <= length (slider_children w c) ->
  exists w',
    speakAndAdvance sid w = Done tt w'
    /\ match first_text rest with
       | Some s =>
           slides tiktok !! (i + leading_blanks rest) = Some s
           /\ blank s = false
           /\ scrolls (calls w')
              = scrolls (calls w)
                  ++ map (pair c) (seq i (S (leading_blanks rest)))
           /\ speaks (calls w')
              = speaks (calls w)
                  ++ [mkUtterance (lyrics s) (selectedVoice tiktok w) sid]
           /\ speechQueue w'
              = speechQueue w
                  ++ [mkUtterance (lyrics s) (selectedVoice tiktok w) sid]
           /\ calls w'
              = calls w
                  ++ map (scrollIntoView c) (seq i (S (leading_blanks rest)))
                  ++ [speak (mkUtterance (lyrics s) (selectedVoice tiktok w) sid)]
       | None =>
           scrolls (calls w')
           = scrolls (calls w) ++ map (pair c) (seq i (length rest))
           /\ speaks (calls w') = speaks (calls w)
           /\ stopped w'
           /\ exists released,
                calls w'
                = calls w ++ map (scrollIntoView c) (seq i (length rest))
                    ++ released
                /\ forallb is_release released = true
       end
    /\ (forall k s, k < leading_blanks rest ->
          slides tiktok !! (i + k) = Some s -> blank s = true)
    /\ match selectedVoice tiktok w with
       | Some v => voiceName tiktok = Some v /\ v ∈ voices w
       | None =>
           truthy (voiceName tiktok) = false
           \/ (forall v, voiceName tiktok = Some v -> v ∉ voices w)
       end.
Proof.
  intros Hact Hplay tiktok c i rest Hi Hlen.
  exists (narrate_from rest sid tiktok c i w).
  split.
  { rewrite speakAndAdvance_done. unfold speak_result.
    now rewrite Hact, Hplay. }
  assert (Hrest : i + length rest <= length (slider_children w c))
    by (subst rest; rewrite length_drop; lia).
  destruct (narrate_from_calls rest sid tiktok c i w Hrest) as [Hsc Hsp].
  destruct (narrate_from_call_log rest sid tiktok c i w Hrest)
    as (released & Hrel & Hlog).
  rewrite reached_seq, reached_length in Hsc, Hlog.
  pose proof (first_text_spec rest) as Hspec.
  split; [|split; [|apply selectedVoice_spec]].
  - destruct (first_text rest) as [s|] eqn:Hft.
    + destruct Hspec as (S1 & S2 & S3).
      destruct (narrate_from_speaking rest sid tiktok c i w s Hft)
        as (_ & Q & _).
      subst rest. rewrite lookup_drop in S1. auto 10.
    + rewrite app_nil_r in Hsp. split; [exact Hsc|]. split; [exact Hsp|].
      split; [now apply narrate_from_ended|]. exists released. auto.
  - clear Hsc Hsp Hspec Hrest. subst rest. intros k s Hk Hs.
    rewrite <- lookup_drop in Hs.
    revert k s Hk Hs. generalize (drop i (slides tiktok)) as l.
    induction l as [|s0 l IH]; intros k s Hk Hs; simpl in *; [lia|].
    destruct (blank s0) eqn:Hb; [|lia].
    destruct k as [|k]; simpl in Hs.
    + now injection Hs as <-.
    + apply (IH k s); [lia|exact Hs].
Qed.

Lemma blank_slides_skipped_witness :
  exists w',
    speakAndAdvance 0 (bump 0 (set_speechQueue [] speech_playing)) = Done tt w'
    /\ scrolls (calls w') = [(1, 0); (1, 1); (1, 2)]
    /\ length (speaks (calls w')) = 2.
Proof.
  pose (w := bump 0 (set_speechQueue [] speech_playing)).
  pose (act := default (mkActivation sample_speech 0 0 NaN) (activations w !! 0)).
  destruct (blank_slides_skipped 0 w act) as (w' & Hrun & Hout & _);
    [vm_compute; reflexivity | vm_compute; reflexivity
     | vm_compute; lia | vm_compute; lia |].
  exists w'. split; [exact Hrun|].
  change (first_text (drop (currentSlideIndex act) (slides (act_tiktok act))))
    with (Some (sample_slide "World")) in Hout.
  destruct Hout as (_ & _ & Hsc & Hsp & _).
  split.
  - rewrite Hsc. vm_compute. reflexivity.
  - rewrite Hsp. vm_compute. reflexivity.
Defined.

(** * Further properties of the playback code *)

(** ** The text test of [speakAndAdvance] *)

Lemma trimStart_nil (s : jsstring) :
  trimStart s = [] <-> forallb is_ws s = true.
Proof.
  induction s as [|c s IH]; simpl; [tauto|].
  destruct (is_ws c); simpl; [exact IH|]. split; discriminate.
Qed.

Lemma forallb_rev {A} (f : A -> bool) (l : list A) :
  forallb f (rev l) = forallb f l.
Proof.
  induction l as [|x l IH]; simpl; [reflexivity|].
  rewrite forallb_app, IH. simpl. rewrite andb_true_r. apply andb_comm.
Qed.

Lemma trimStart_suffix (s : jsstring) :
  exists p, s = p ++ trimStart s /\ forallb is_ws p = true.
Proof.
  induction s as [|c s (p & Hp & Hws)]; simpl.
  - now exists [].
  - destruct (is_ws c) eqn:Hc.
    + exists (c :: p). simpl. rewrite Hc, Hws. split; [now f_equal|reflexivity].
    + now exists [].
Qed.

(** X1 — [!lyrics?.trim()] holds exactly when every code unit of the text is
    white space (in particular for the empty text). *)
Theorem blank_iff_whitespace (s : SlideData) :
  blank s = forallb is_ws (lyrics s).
Proof.
  unfold blank, trim.
  destruct (forallb is_ws (lyrics s)) eqn:Hall.
  - apply trimStart_nil in Hall. now rewrite Hall.
  - destruct (trimStart_suffix (lyrics s)) as (p & Hp & Hws).
    assert (Hrest : forallb is_ws (trimStart (lyrics s)) = false).
    { rewrite Hp, forallb_app, Hws in Hall. exact Hall. }
    assert (Hrev : forallb is_ws (rev (trimStart (lyrics s))) = false)
      by now rewrite forallb_rev.
    destruct (trimStart (rev (trimStart (lyrics s)))) as [|c r] eqn:Ht.
    + apply trimStart_nil in Ht. congruence.
    + simpl. destruct (rev r ++ [c]) eqn:E; [|reflexivity].
      now apply app_eq_nil in E as [_ E].
Qed.

(** ** Bounds of the time-driven target *)

(** *** How far rounding moves a result *)

Lemma round_magnitude_error (x : Q) :
  (0 < x)%Q ->
  (x - (1 # 2) * pow2 (exponent x) <= round_magnitude x)%Q
  /\ (round_magnitude x <= x + (1 # 2) * pow2 (exponent x))%Q.
Proof.
  intros Hx. rewrite round_magnitude_eq.
  pose proof (pow2_pos (exponent x)) as Hp.
  pose proof (round_half_even_error (x / pow2 (exponent x))) as He.
  apply Qabs_Qle_condition in He as [He1 He2].
  remember (pow2 (exponent x)) as p eqn:Heqp.
  remember (x / p)%Q as y eqn:Heqy.
  remember (inject_Z (round_half_even y)) as m eqn:Heqm.
  assert (Ex : (x == y * p)%Q) by (subst y; field; lra).
  clear Heqp Heqy Heqm. rewrite Ex.
  assert (A : (- (1 # 2) * p <= (m - y) * p)%Q)
    by (apply Qmult_le_compat_r; lra).
  assert (B : ((m - y) * p <= (1 # 2) * p)%Q)
    by (apply Qmult_le_compat_r; lra).
  assert (E : (m * p == y * p + (m - y) * p)%Q) by ring.
  rewrite E. revert A B. generalize ((m - y) * p)%Q as z.
  generalize (y * p)%Q as yp. intros yp z A B. split; lra.
Qed.

Lemma ulp_bound (x : Q) :
  (0 < x)%Q -> (pow2 (exponent x) <= x * pow2 (-52) + pow2 (-1074))%Q.
Proof.
  intros Hx. destruct (ilog2_spec x Hx) as [H _].
  pose proof (pow2_pos (-52)) as H52. pose proof (pow2_pos (-1074)) as Hm.
  unfold exponent. destruct (Z.max_spec (ilog2 x - 52) (-1074)) as [[_ ->]|[_ ->]].
  - assert (0 <= x * pow2 (-52))%Q by (apply Qmult_le_0_compat; lra). lra.
  - replace (ilog2 x - 52)%Z with (ilog2 x + -52)%Z by lia. rewrite pow2_plus.
    assert (pow2 (ilog2 x) * pow2 (-52) <= x * pow2 (-52))%Q
      by (apply Qmult_le_compat_r; lra).
    lra.
Qed.

Lemma ulp_normal (x : Q) :
  (pow2 (-1022) <= x)%Q -> (pow2 (exponent x) <= x * pow2 (-52))%Q.
Proof.
  intros Hn. pose proof (pow2_pos (-1022)) as Hp.
  assert (Hx : (0 < x)%Q) by lra.
  destruct (ilog2_spec x Hx) as [H1 H2].
  assert (Hl : (-1022 < ilog2 x + 1)%Z)
    by (apply pow2_lt_inv; eapply Qle_lt_trans; eassumption).
  unfold exponent. rewrite Z.max_l by lia.
  replace (ilog2 x - 52)%Z with (ilog2 x + -52)%Z by lia. rewrite pow2_plus.
  apply Qmult_le_compat_r; [exact H1|]. apply Qlt_le_weak, pow2_pos.
Qed.

Lemma round64_finite (x : Q) :
  (0 < x)%Q -> (x <= pow2 1000)%Q ->
  round64 x = Fin (round_magnitude x).
Proof.
  intros Hx Hup. rewrite (round64_pos x Hx).
  destruct (Qle_bool (pow2 1024) (round_magnitude x)) eqn:E; [|reflexivity].
  exfalso. apply Qle_bool_iff in E.
  destruct (round_magnitude_error x Hx) as [_ H].
  pose proof (ulp_bound x Hx) as Hu.
  assert (H52 : (pow2 (-52) <= 1)%Q) by (apply (pow2_le (-52) 0); lia).
  assert (H1074 : (pow2 (-1074) <= pow2 1000)%Q) by (apply pow2_le; lia).
  assert (Hbig : (pow2 1002 <= pow2 1024)%Q) by (apply pow2_le; lia).
  assert (E2 : (pow2 1002 == 4 * pow2 1000)%Q).
  { replace 1002%Z with (2 + 1000)%Z by lia. rewrite pow2_plus. reflexivity. }
  pose proof (pow2_pos 1000) as Hp.
  assert (Hxu : (x * pow2 (-52) <= x)%Q).
  { rewrite <- (Qmult_1_r x) at 2. apply Qmult_le_l; assumption. }
  lra.
Qed.

Lemma Qmult_le_cancel (a b c : Q) : (0 < c)%Q -> (a * c <= b * c)%Q -> (a <= b)%Q.
Proof. intros Hc H. now apply (Qmult_le_r a b c Hc). Qed.

(** Two quotients in a row: if [s] is within the fraction [u] of [x] and
    [q] within [u * y + v] of [y = t / s], then [q] is within
    [2 * u * y + v] of [t / x]. *)
Lemma two_roundings (t x s y q X u v : Q) :
  (0 < x)%Q -> (0 <= y)%Q -> (0 <= u)%Q ->
  (x - u * x <= s)%Q -> (s <= x + u * x)%Q ->
  (y * s == t)%Q -> (X * x == t)%Q ->
  (y - (u * y + v) <= q)%Q -> (q <= y + (u * y + v))%Q ->
  (X - (2 * u * y + v) <= q)%Q /\ (q <= X + (2 * u * y + v))%Q.
Proof.
  intros Hx Hy Hu Hs1 Hs2 Eys EXx Hq1 Hq2.
  assert (E : ((y - X) * x == (x - s) * y)%Q).
  { transitivity (y * x - X * x)%Q; [ring|]. rewrite EXx, <- Eys. ring. }
  assert (A : ((x - s) * y <= (u * x) * y)%Q)
    by (apply Qmult_le_compat_r; lra).
  assert (B : ((- (u * x)) * y <= (x - s) * y)%Q)
    by (apply Qmult_le_compat_r; lra).
  assert (H1 : (y - X <= u * y)%Q).
  { apply (Qmult_le_cancel _ _ x Hx). rewrite E.
    eapply Qle_trans; [exact A|]. apply Qle_lteq. right. ring. }
  assert (H2 : (- (u * y) <= y - X)%Q).
  { apply (Qmult_le_cancel _ _ x Hx). rewrite E.
    eapply Qle_trans; [|exact B]. apply Qle_lteq. right. ring. }
  split; lra.
Qed.

Lemma round64_near (y : Q) :
  (0 <= y)%Q -> (y <= pow2 1000)%Q ->
  exists q,
    round64 y = Fin q
    /\ (y - (pow2 (-53) * y + pow2 (-1075)) <= q)%Q
    /\ (q <= y + (pow2 (-53) * y + pow2 (-1075)))%Q.
Proof.
  intros Hy Hup. pose proof (pow2_pos (-1075)) as Hv.
  destruct (Qlt_le_dec 0 y) as [Hpos|Hz].
  - exists (round_magnitude y). split; [now apply round64_finite|].
    destruct (round_magnitude_error y Hpos) as [A B].
    pose proof (ulp_bound y Hpos) as U.
    assert (E52 : (pow2 (-52) == 2 * pow2 (-53))%Q) by (apply (pow2_succ (-53))).
    assert (E1074 : (pow2 (-1074) == 2 * pow2 (-1075))%Q)
      by (apply (pow2_succ (-1075))).
    rewrite E52, E1074 in U. revert A B U.
    generalize (pow2 (exponent y)) as p. generalize (round_magnitude y) as q.
    generalize dependent (pow2 (-1075)). intros v Hv _.
    assert (H53 := pow2_pos (-53)). revert H53.
    generalize (pow2 (-53)) as u.
    intros u Hu q p A B U.
    assert (E : (y * (2 * u) == 2 * (u * y))%Q) by ring.
    rewrite E in U. revert A B U. generalize (u * y)%Q as uy.
    intros uy A B U. split; lra.
  - assert (E : (y == 0)%Q) by (apply Qle_antisym; assumption).
    exists 0%Q. split; [now apply round64_zero|].
    rewrite E. rewrite Qmult_0_r. split; lra.
Qed.

Lemma target_rounding (el : AudioEl) (n : nat) (d : Q) :
  duration el = Fin d ->
  0 < n -> (Z.of_nat n <= 2 ^ 32)%Z ->
  (pow2 (-900) <= d)%Q -> (d <= pow2 900)%Q ->
  (0 <= currentTime el)%Q -> (currentTime el <= 1024 * d)%Q ->
  exists q : Q,
    target_index el n = Fin (inject_Z (Qfloor q))
    /\ (0 <= q)%Q
    /\ (currentTime el / (d / inject_Z (Z.of_nat n)) - (1 # 256) <= q)%Q
    /\ (q <= currentTime el / (d / inject_Z (Z.of_nat n)) + (1 # 256))%Q.
Proof.
  intros Hdur Hn Hn32 Hdlo Hdhi Ht Htd.
  set (t := currentTime el) in *.
  set (N := inject_Z (Z.of_nat n)).
  assert (HN1 : (1 <= N)%Q)
    by (unfold N; change 1%Q with (inject_Z 1); rewrite <- Zle_Qle; lia).
  assert (HN2 : (N <= 4294967296)%Q)
    by (unfold N; change 4294967296%Q with (inject_Z (2 ^ 32));
        rewrite <- Zle_Qle; exact Hn32).
  set (x := (d / N)%Q).
  assert (ExN : (x * N == d)%Q) by (unfold x; field; lra).
  pose proof (pow2_pos (-900)) as H900.
  assert (Hxpos : (0 < x)%Q) by (apply Qlt_shift_div_l; lra).
  assert (Hxd : (x <= d)%Q).
  { rewrite <- ExN. rewrite <- (Qmult_1_r x) at 1.
    apply Qmult_le_l; assumption. }
  assert (Hxlo : (pow2 (-932) <= x)%Q).
  { apply (Qmult_le_cancel _ _ N); [lra|]. rewrite ExN.
    eapply Qle_trans; [|exact Hdlo].
    assert (E : (pow2 (-900) == pow2 (-932) * 4294967296)%Q).
    { replace (-900)%Z with (-932 + 32)%Z by lia. rewrite pow2_plus.
      reflexivity. }
    rewrite E. apply Qmult_le_l; [apply pow2_pos|exact HN2]. }
  assert (Hnormal : (pow2 (-1022) <= x)%Q).
  { eapply Qle_trans; [|exact Hxlo]. apply pow2_le. lia. }
  assert (Hxup : (x <= pow2 1000)%Q).
  { eapply Qle_trans; [exact Hxd|]. eapply Qle_trans; [exact Hdhi|].
    apply pow2_le. lia. }
  (* the slide duration *)
  set (s := round_magnitude x).
  assert (Esd : num_div (Fin d) (of_nat n) = Fin s).
  { unfold num_div, of_nat. fold N.
    rewrite (Qeq_bool_pos N) by lra. fold x.
    now apply round64_finite. }
  destruct (round_magnitude_error x Hxpos) as [S1 S2]. fold s in S1, S2.
  pose proof (ulp_normal x Hnormal) as U.
  assert (E52 : (pow2 (-52) == 2 * pow2 (-53))%Q) by (apply (pow2_succ (-53))).
  assert (Eu : (pow2 (-53) == 1 # 9007199254740992)%Q) by reflexivity.
  rewrite E52, Eu in U.
  assert (Hs1 : (x - (1 # 9007199254740992) * x <= s)%Q) by lra.
  assert (Hs2 : (s <= x + (1 # 9007199254740992) * x)%Q) by lra.
  clear S1 S2 U.
  assert (Hspos : (0 < s)%Q) by lra.
  (* the quotient *)
  set (y := (t / s)%Q).
  assert (Eys : (y * s == t)%Q) by (unfold y; field; lra).
  assert (Hy : (0 <= y)%Q).
  { apply Qle_shift_div_l; [exact Hspos|]. now rewrite Qmult_0_l. }
  assert (Hy43 : (y <= 8796093022208)%Q).
  { apply (Qmult_le_cancel _ _ s Hspos). rewrite Eys.
    eapply Qle_trans; [exact Htd|]. rewrite <- ExN.
    assert (HxN : (x * N <= x * 4294967296)%Q)
      by (apply Qmult_le_l; assumption).
    lra. }
  assert (Hyup : (y <= pow2 1000)%Q).
  { eapply Qle_trans; [exact Hy43|].
    change 8796093022208%Q with (inject_Z (2 ^ 43)).
    rewrite pow2_Z by lia. apply pow2_le. lia. }
  destruct (round64_near y Hy Hyup) as (q & Eq & Q1 & Q2).
  rewrite Eu in Q1, Q2.
  assert (Hv : (pow2 (-1075) <= 1 # 1024)%Q).
  { change (1 # 1024)%Q with (pow2 (-10)). apply pow2_le. lia. }
  set (X := (t / x)%Q).
  assert (EXx : (X * x == t)%Q) by (unfold X; field; lra).
  destruct (two_roundings t x s y q X (1 # 9007199254740992) (pow2 (-1075))
              Hxpos Hy ltac:(discriminate) Hs1 Hs2 Eys EXx Q1 Q2) as [R1 R2].
  assert (Hq0 : (0 <= q)%Q).
  { pose proof (round64_nonneg y Hy) as H. rewrite Eq in H. exact H. }
  assert (Hq1 : (X - (1 # 256) <= q)%Q) by lra.
  assert (Hq2 : (q <= X + (1 # 256))%Q) by lra.
  exists q. split.
  { unfold target_index. fold t. rewrite Hdur, Esd.
    unfold num_div. rewrite (Qeq_bool_pos s Hspos). fold y. rewrite Eq.
    reflexivity. }
  fold N. fold x. fold X. auto.
Qed.

(** X2 — Rounding moves the target by less than one slide.  For a duration
    between [2 ^ -900] and [2 ^ 900] seconds, at most [2 ^ 32] slides and a
    position of at most 1024 durations, the target of a sample is a
    non-negative integer [k], the floor of a number within 1/256 of the exact
    quotient [currentTime * n / duration]: so [k] is the exact slide index
    or, when the exact quotient is that close to a whole number, possibly
    the one next to it. *)
Theorem target_near_exact (el : AudioEl) (n : nat) (d : Q) :
  duration el = Fin d ->
  0 < n -> (Z.of_nat n <= 2 ^ 32)%Z ->
  (pow2 (-900) <= d)%Q -> (d <= pow2 900)%Q ->
  (0 <= currentTime el)%Q -> (currentTime el <= 1024 * d)%Q ->
  let exact := (currentTime el / (d / inject_Z (Z.of_nat n)))%Q in
  exists k : Z,
    target_index el n = Fin (inject_Z k)
    /\ (0 <= k)%Z
    /\ (Qfloor (exact - (1 # 256)) <= k <= Qfloor (exact + (1 # 256)))%Z
    /\ (Qfloor exact - 1 <= k <= Qfloor exact + 1)%Z.
Proof.
  intros Hdur Hn Hn32 Hdlo Hdhi Ht Htd exact.
  destruct (target_rounding el n d Hdur Hn Hn32 Hdlo Hdhi Ht Htd)
    as (q & Hq & Hq0 & Hq1 & Hq2).
  fold exact in Hq1, Hq2.
  exists (Qfloor q). split; [exact Hq|].
  split; [change 0%Z with (Qfloor 0); now apply Qfloor_resp_le|].
  split; [split; now apply Qfloor_resp_le|].
  pose proof (Qfloor_le q) as F1. pose proof (Qlt_floor q) as F2.
  pose proof (Qfloor_le exact) as G1. pose proof (Qlt_floor exact) as G2.
  rewrite inject_Z_plus in F2, G2. change (inject_Z 1) with 1%Q in F2, G2.
  split.
  - assert (H : (inject_Z (Qfloor exact) < inject_Z (Qfloor q + 2))%Q).
    { rewrite inject_Z_plus. change (inject_Z 2) with 2%Q. lra. }
    rewrite <- Zlt_Qlt in H. lia.
  - assert (H : (inject_Z (Qfloor q) < inject_Z (Qfloor exact + 2))%Q).
    { rewrite inject_Z_plus. change (inject_Z 2) with 2%Q. lra. }
    rewrite <- Zlt_Qlt in H. lia.
Qed.

Lemma target_near_exact_witness :
  let el := set_currentTime (1 - (1 # 9007199254740992))
              (set_duration (Fin 1) (blank_audio [])) in
  Qfloor (currentTime el / (1 / inject_Z 3)) = 2%Z
  /\ target_index el 3 = Fin 3
  /\ exists k : Z, target_index el 3 = Fin (inject_Z k) /\ (1 <= k <= 3)%Z.
Proof.
  intros el. split; [vm_compute; reflexivity|].
  split; [vm_compute; reflexivity|].
  destruct (target_near_exact el 3 1%Q) as (k & Hk & _ & _ & Hb);
    [reflexivity | lia | vm_compute; discriminate | vm_compute; discriminate
     | vm_compute; discriminate | vm_compute; discriminate
     | vm_compute; discriminate |].
  exists k. split; [exact Hk|].
  match type of Hb with
  | context [Qfloor ?e] =>
      replace (Qfloor e) with 2%Z in Hb by (vm_compute; reflexivity)
  end.
  lia.
Defined.

(** X3 — A later playback position never yields an earlier target: for
    two samples of a track of known positive duration, the target of the
    later one is not below that of the earlier one, and when both are
    integers they are in order.  They are integers whenever the duration is
    between [2 ^ -900] and [2 ^ 900] seconds, there are at most [2 ^ 32]
    slides and the positions are between 0 and 1024 durations. *)
Theorem target_monotone (el1 el2 : AudioEl) (n : nat) (d : Q) :
  duration el1 = Fin d -> duration el2 = Fin d -> (0 < d)%Q -> 0 < n ->
  (currentTime el1 <= currentTime el2)%Q ->
  num_lt (target_index el2 n) (target_index el1 n) = false
  /\ (forall k1 k2 : Z,
        target_index el1 n = Fin (inject_Z k1) ->
        target_index el2 n = Fin (inject_Z k2) ->
        (k1 <= k2)%Z)
  /\ ((Z.of_nat n <= 2 ^ 32)%Z ->
      (pow2 (-900) <= d)%Q -> (d <= pow2 900)%Q ->
      (0 <= currentTime el1)%Q -> (currentTime el2 <= 1024 * d)%Q ->
      exists k1 k2 : Z,
        target_index el1 n = Fin (inject_Z k1)
        /\ target_index el2 n = Fin (inject_Z k2)
        /\ (k1 <= k2)%Z).
Proof.
  intros H1 H2 Hd Hn Hle.
  assert (Hlt : num_lt (target_index el2 n) (target_index el1 n) = false).
  { unfold target_index. rewrite H1, H2.
    destruct (slide_duration_cases d n Hd Hn) as [_ [->|(s & -> & Hs)]].
    - reflexivity.
    - now apply quotient_mono. }
  assert (Hord : forall k1 k2 : Z,
             target_index el1 n = Fin (inject_Z k1) ->
             target_index el2 n = Fin (inject_Z k2) -> (k1 <= k2)%Z).
  { intros k1 k2 E1 E2. rewrite E1, E2 in Hlt.
    simpl in Hlt. apply negb_false_iff, Qle_bool_iff in Hlt.
    now rewrite <- Zle_Qle in Hlt. }
  split; [exact Hlt|]. split; [exact Hord|].
  intros Hn32 Hdlo Hdhi Ht1 Ht2.
  destruct (target_rounding el1 n d H1 Hn Hn32 Hdlo Hdhi Ht1) as (q1 & E1 & _);
    [eapply Qle_trans; eassumption|].
  destruct (target_rounding el2 n d H2 Hn Hn32 Hdlo Hdhi) as (q2 & E2 & _);
    [eapply Qle_trans; eassumption|exact Ht2|].
  exists (Qfloor q1), (Qfloor q2).
  split; [exact E1|]. split; [exact E2|]. now apply Hord.
Qed.

Lemma target_monotone_witness :
  exists k1 k2 : Z,
    target_index (set_currentTime 7 (set_duration (Fin 20) (blank_audio []))) 4
    = Fin (inject_Z k1)
    /\ target_index (set_currentTime 12 (set_duration (Fin 20) (blank_audio []))) 4
       = Fin (inject_Z k2)
    /\ (k1 <= k2)%Z.
Proof.
  destruct (target_monotone
              (set_currentTime 7 (set_duration (Fin 20) (blank_audio [])))
              (set_currentTime 12 (set_duration (Fin 20) (blank_audio [])))
              4 20%Q) as (_ & _ & H);
    [reflexivity | reflexivity | reflexivity | lia | discriminate |].
  apply H; [lia|vm_compute; discriminate..].
Defined.

(** ** One utterance at a time *)

Lemma speak_result_queue (sid : ActivationId) (w : World) :
  speechQueue (speak_result sid w) = []
  \/ speechQueue (speak_result sid w) = speechQueue w
  \/ exists u, speechQueue (speak_result sid w) = speechQueue w ++ [u].
Proof.
  unfold speak_result.
  destruct (activations w !! sid) as [act|]; [|now right; left].
  destruct (isPlaying w); [|left; apply stop_result_speechQueue].
  set (rest := drop _ _).
  destruct (first_text rest) as [s|] eqn:Hft.
  - right. right. eexists.
    exact (proj1 (proj2 (narrate_from_speaking rest sid _ _ _ w s Hft))).
  - left. exact (proj2 (proj2 (proj2 (proj2
                   (narrate_from_ended rest sid _ _ _ w Hft))))).
Qed.

Lemma session_result_queue (tiktok : TikTok) (sid : ActivationId) (w : World) :
  speechQueue w = [] ->
  length (speechQueue (session_result tiktok sid w)) <= 1.
Proof.
  intros Hq. unfold session_result, narration_result.
  set (x := instrumental_result tiktok sid _).
  assert (Hx : speechQueue x = []).
  { subst x. destruct (instrumental_result_frame tiktok sid
                         (set_body_slideshow_paused false (set_isPlaying true w)))
      as (_ & _ & _ & -> & _). exact Hq. }
  destruct (useBrowserTTS tiktok).
  - destruct (speak_result_queue sid x) as [->|[->|[u ->]]];
      rewrite ?Hx; simpl; lia.
  - destruct (truthy (songSrc tiktok)); simpl; rewrite Hx; simpl; lia.
Qed.

Lemma start_result_queue (w : World) :
  length (speechQueue w) <= 1 -> length (speechQueue (start_result w)) <= 1.
Proof.
  intros H. unfold start_result.
  destruct (start_target w) as [[c tiktok]|]; [|exact H].
  apply session_result_queue, stop_result_speechQueue.
Qed.

Lemma same_media_queue (w w' : World) :
  same_media w w' -> speechQueue w' = speechQueue w.
Proof. now intros (_ & _ & _ & H). Qed.

Lemma entry_queue (entry : ContainerId * bool) (w : World) :
  length (speechQueue w) <= 1 ->
  length (speechQueue (world_of (tiktok_entry entry w))) <= 1.
Proof.
  intros H. rewrite tiktok_entry_done. unfold entry_result.
  destruct (_ && _); [|exact H].
  rewrite (same_media_queue _ _ (same_media_setup _)). simpl.
  rewrite stop_result_speechQueue. simpl. lia.
Qed.

(** X4 — Along every run of natural events the speech engine never holds
    more than one utterance of the page: a new one is handed over only after
    the previous one has ended or everything was cancelled. *)
Theorem one_utterance_at_a_time (es : list Event) (w0 : World) :
  Forall natural es -> length (speechQueue w0) <= 1 ->
  length (speechQueue (run es w0)) <= 1.
Proof.
  revert w0. induction es as [|e es IH]; intros w Hes H; simpl; [exact H|].
  inversion Hes as [|? ? Hnat Hes']; subst. apply IH; [exact Hes'|].
  clear IH Hes Hes'. unfold exec. destruct e; simpl.
  - rewrite tap_done. simpl. destruct (isPlaying w).
    + rewrite stop_result_speechQueue. simpl. lia.
    + now apply start_result_queue.
  - rewrite startSlideshow_done. now apply start_result_queue.
  - rewrite stopSlideshow_done. simpl. rewrite stop_result_speechQueue. simpl. lia.
  - apply (forEach_preserves (fun w => length (speechQueue w) <= 1)); [|exact H].
    intros x w0. apply entry_queue.
  - rewrite slideObserver_callback_done. simpl.
    now rewrite (same_media_queue _ _ (same_media_marked entries w)).
  - unfold bind at 1, get at 1.
    destruct (speechQueue w) as [|u rest] eqn:Hq; [simpl; rewrite Hq; simpl; lia|].
    unfold bind at 1, modify. rewrite utterance_onend_done. simpl.
    assert (rest = []) as -> by (destruct rest; [reflexivity|simpl in H; lia]).
    destruct (speak_result_queue (u_activation u)
                (bump (u_activation u) (set_speechQueue [] w)))
      as [->|[->|[u' ->]]]; simpl; lia.
  - unfold bind at 1, get at 1.
    destruct (speechQueue w) as [|u rest] eqn:Hq; [simpl; rewrite Hq; simpl; lia|].
    unfold bind at 1, modify. rewrite utterance_onerror_done. simpl.
    rewrite stop_result_speechQueue. simpl. lia.
  - now contradiction Hnat.
  - unfold bind at 1, get at 1.
    destruct (cancelledUtterances w) as [|u rest]; [exact H|].
    unfold bind at 1, modify. rewrite utterance_onerror_done. simpl.
    rewrite stop_result_speechQueue. simpl. lia.
  - exact H.
  - rewrite vocal_play_catch_done. simpl.
    rewrite stop_result_speechQueue. simpl. lia.
  - exact H.
  - unfold bind at 1, update_audio, modify, with_listener, bind at 1, get at 1.
    destruct (a_listener _) as [sid|]; [|exact H].
    rewrite audio_ontimeupdate_done. simpl.
    now rewrite (same_media_queue _ _ (same_media_timeupdate sid _)).
  - unfold bind at 1, update_audio, modify, with_listener, bind at 1, get at 1.
    destruct (a_listener _) as [sid|]; [|exact H].
    unfold audio_onended. rewrite stopSlideshow_done. simpl.
    rewrite stop_result_speechQueue. simpl. lia.
  - unfold bind at 1, update_audio, modify, with_listener, bind at 1, get at 1.
    destruct (a_listener _) as [sid|]; [|exact H].
    rewrite audio_onerror_done. simpl.
    rewrite stop_result_speechQueue. simpl. lia.
Qed.

Lemma one_utterance_at_a_time_witness :
  length (speechQueue
            (run [ItemsIntersect [(1, true)]; Tap; SpeechEnd; Tap; Tap; SpeechEnd]
               sample_world)) <= 1.
Proof.
  apply one_utterance_at_a_time.
  - repeat constructor; discriminate.
  - simpl. lia.
Defined.

(** ** No observer is left behind *)

Lemma same_page_speak_result (sid : ActivationId) (w : World) :
  same_page w (speak_result sid w).
Proof.
  unfold speak_result.
  destruct (activations w !! sid); [|apply same_page_refl].
  destruct (isPlaying w); [apply same_page_narrate|apply same_page_stop].
Qed.

Lemma same_page_start (w : World) : same_page w (start_result w).
Proof.
  unfold start_result.
  destruct (start_target w) as [[c tiktok]|]; [|apply same_page_refl].
  unfold session_result, narration_result.
  set (y := set_body_slideshow_paused false
              (set_isPlaying true (stop_result (activated tiktok c w)))).
  assert (Hy : same_page w y).
  { eapply (same_page_trans _ (stop_result (activated tiktok c w)));
      [|repeat split].
    eapply same_page_trans; [|apply same_page_stop]. repeat split. }
  destruct (instrumental_result_frame tiktok (length (activations w)) y)
    as (_ & _ & _ & _ & _ & _ & Hx).
  set (x := instrumental_result tiktok (length (activations w)) y) in *.
  assert (Hwx : same_page w x) by (eapply same_page_trans; eassumption).
  destruct (useBrowserTTS tiktok).
  - eapply same_page_trans; [exact Hwx|apply same_page_speak_result].
  - destruct (truthy (songSrc tiktok)); [|exact Hwx].
    eapply same_page_trans; [exact Hwx|repeat split].
Qed.

Lemma same_page_timeupdate (sid : ActivationId) (w : World) :
  same_page w (timeupdate_result sid w).
Proof.
  unfold timeupdate_result.
  destruct (activations w !! sid) as [act|]; [|apply same_page_refl].
  destruct (currentAudio w) as [a|]; [|apply same_page_refl].
  destruct (_ || _); [apply same_page_refl|].
  destruct (_ && _); [|apply same_page_refl].
  destruct (as_index _) as [i|]; simpl.
  - eapply same_page_trans; [apply (same_page_scroll (act_slider act) i)|].
    repeat split.
  - repeat split.
Qed.

Lemma marked_observers (entries : list (SlideRef * bool)) :
  forall w,
    observers (marked entries w) = observers w
    /\ slideObserver (marked entries w) = slideObserver w.
Proof.
  induction entries as [|[s b] rest IH]; intros w; simpl; [auto|].
  destruct (IH (toggled s b w)) as [-> ->]. auto.
Qed.

Lemma observers_bound_ext (w w' : World) :
  observers w' = observers w -> slideObserver w' = slideObserver w ->
  observers_bound w -> observers_bound w'.
Proof. unfold observers_bound. intros -> ->. auto. Qed.

Lemma observers_bound_page (w w' : World) :
  same_page w w' -> observers_bound w -> observers_bound w'.
Proof.
  intros (_ & _ & _ & _ & A & B). now apply observers_bound_ext.
Qed.

Lemma disconnected_clear (w : World) (o : ObserverId) (ts : list SlideRef) :
  observers_bound w ->
  observers (disconnected w) !! o = Some ts -> ts = [].
Proof.
  intros Hb Hl. unfold disconnected in Hl.
  destruct (slideObserver w) as [o0|] eqn:Ho; simpl in Hl.
  - destruct (Nat.eq_dec o0 o) as [->|Hne].
    + apply list_lookup_insert_Some in Hl as [(_ & <- & _)|(Hne & _)];
        [reflexivity|congruence].
    + rewrite list_lookup_insert_ne in Hl by exact Hne.
      destruct ts as [|t ts]; [reflexivity|].
      specialize (Hb o (t :: ts) Hl). rewrite Ho in Hb.
      assert (Some o0 = Some o) by (apply Hb; discriminate). congruence.
  - destruct ts as [|t ts]; [reflexivity|].
    specialize (Hb o (t :: ts) Hl). rewrite Ho in Hb.
    assert (@None nat = Some o) by (apply Hb; discriminate). discriminate.
Qed.

Lemma observers_bound_setup (w : World) :
  observers_bound w -> observers_bound (world_of (setup_result w)).
Proof.
  intros Hb. unfold setup_result.
  assert (Hold : forall x o ts,
            (observers (disconnected w) ++ [x]) !! o = Some ts -> ts <> [] ->
            o = length (observers (disconnected w))).
  { intros x o ts Hl Hne.
    apply lookup_app_Some in Hl as [Hl|[Hge Hl]].
    - elim Hne. exact (disconnected_clear w o ts Hb Hl).
    - apply lookup_lt_Some in Hl as Hlt. simpl in Hlt. lia. }
  destruct (activeTikTokContainer (disconnected w)) as [c|].
  - destruct (horizontal_slider _) as [ch|]; simpl;
      intros o ts Hl Hne; simpl in *; f_equal; symmetry; eapply Hold; eauto.
  - simpl. intros o ts Hl Hne. elim Hne.
    exact (disconnected_clear w o ts Hb Hl).
Qed.

Lemma observers_bound_entry (entry : ContainerId * bool) (w : World) :
  observers_bound w -> observers_bound (world_of (tiktok_entry entry w)).
Proof.
  intros H. rewrite tiktok_entry_done. unfold entry_result.
  destruct (_ && _); [|exact H].
  apply observers_bound_setup.
  apply (observers_bound_ext (stop_result w)); [reflexivity..|].
  apply (observers_bound_page w); [apply same_page_stop|exact H].
Qed.

(** X5 — Rebinding never leaks an observer: along every run, every
    [IntersectionObserver] created for slides other than the one held in
    [slideObserver] has been disconnected. *)
Theorem slide_observers_never_leak (es : list Event) (w0 : World) :
  observers_bound w0 -> observers_bound (run es w0).
Proof.
  revert w0. induction es as [|e es IH]; intros w H; simpl; [exact H|].
  apply IH. clear IH. unfold exec. destruct e; simpl.
  - rewrite tap_done. simpl. destruct (isPlaying w).
    + apply (observers_bound_page w); [apply same_page_stop|exact H].
    + apply (observers_bound_page w); [apply same_page_start|exact H].
  - rewrite startSlideshow_done.
    apply (observers_bound_page w); [apply same_page_start|exact H].
  - rewrite stopSlideshow_done.
    apply (observers_bound_page w); [apply same_page_stop|exact H].
  - apply (forEach_preserves observers_bound); [|exact H].
    intros x w0. apply observers_bound_entry.
  - rewrite slideObserver_callback_done. simpl.
    destruct (marked_observers entries w) as [A B].
    now apply (observers_bound_ext w).
  - unfold bind at 1, get at 1.
    destruct (speechQueue w) as [|u rest]; [exact H|].
    unfold bind at 1, modify. rewrite utterance_onend_done. simpl.
    eapply observers_bound_page; [apply same_page_speak_result|].
    now apply (observers_bound_ext w).
  - unfold bind at 1, get at 1.
    destruct (speechQueue w) as [|u rest]; [exact H|].
    unfold bind at 1, modify. rewrite utterance_onerror_done. simpl.
    eapply observers_bound_page; [apply same_page_stop|].
    now apply (observers_bound_ext w).
  - unfold bind at 1, get at 1.
    destruct (cancelledUtterances w) as [|u rest]; [exact H|].
    unfold bind at 1, modify. rewrite utterance_onend_done. simpl.
    eapply observers_bound_page; [apply same_page_speak_result|].
    now apply (observers_bound_ext w).
  - unfold bind at 1, get at 1.
    destruct (cancelledUtterances w) as [|u rest]; [exact H|].
    unfold bind at 1, modify. rewrite utterance_onerror_done. simpl.
    eapply observers_bound_page; [apply same_page_stop|].
    now apply (observers_bound_ext w).
  - now apply (observers_bound_ext w).
  - rewrite vocal_play_catch_done. simpl.
    eapply observers_bound_page; [apply same_page_stop|].
    now apply (observers_bound_ext w).
  - now apply (observers_bound_ext w).
  - unfold bind at 1, update_audio, modify, with_listener, bind at 1, get at 1.
    destruct (a_listener _) as [sid|]; [|now apply (observers_bound_ext w)].
    rewrite audio_ontimeupdate_done. simpl.
    eapply observers_bound_page; [apply same_page_timeupdate|].
    now apply (observers_bound_ext w).
  - unfold bind at 1, update_audio, modify, with_listener, bind at 1, get at 1.
    destruct (a_listener _) as [sid|]; [|now apply (observers_bound_ext w)].
    unfold audio_onended. rewrite stopSlideshow_done. simpl.
    eapply observers_bound_page; [apply same_page_stop|].
    now apply (observers_bound_ext w).
  - unfold bind at 1, update_audio, modify, with_listener, bind at 1, get at 1.
    destruct (a_listener _) as [sid|]; [|now apply (observers_bound_ext w)].
    rewrite audio_onerror_done. simpl.
    eapply observers_bound_page; [apply same_page_stop|].
    now apply (observers_bound_ext w).
Qed.

Lemma slide_observers_never_leak_witness :
  observers_bound
    (run [ItemsIntersect [(1, true)]; Tap; ItemsIntersect [(0, true); (1, true)];
          ItemsIntersect [(0, true)]] sample_world).
Proof.
  apply slide_observers_never_leak.
  intros o ts Hl. destruct o; discriminate Hl.
Defined.

(** ** What [stopSlideshow] leaves alone *)

Lemma pause_handle_origin (h : option AudioId) (l : list AudioEl) a el :
  pause_handle h l !! a = Some el ->
  exists el0, l !! a = Some el0 /\ (el = el0 \/ el = set_paused true el0).
Proof.
  destruct h as [i|]; simpl; intros H; [|eauto].
  apply lookup_alter_inv in H as [[-> (y & Hy & ->)]|[Hne H]]; eauto.
Qed.

(** X6 — [stopSlideshow] touches playback only: the active item, the
    observers, the slide markers, the saved items, every cursor, the scroll
    containment and the error modal stay as they are; its calls are [pause]
    and [cancel] only; and an audio element is at most paused, never rewound
    or otherwise changed. *)
Theorem stop_touches_playback_only (w : World) :
  exists w',
    stopSlideshow w = Done tt w'
    /\ same_page w w'
    /\ activations w' = activations w
    /\ slideshow_overflowY w' = slideshow_overflowY w
    /\ errorModalMessage w' = errorModalMessage w
    /\ errorModal_hidden w' = errorModal_hidden w
    /\ (exists released,
          calls w' = calls w ++ released /\ forallb is_release released = true)
    /\ length (audios w') = length (audios w)
    /\ (forall a el,
          audios w' !! a = Some el ->
          exists el0,
            audios w !! a = Some el0
            /\ (el = el0 \/ el = set_paused true el0)).
Proof.
  exists (stop_result w). split; [apply stopSlideshow_done|].
  destruct (stop_result_errorModal w) as (E1 & E2 & _).
  split; [apply same_page_stop|]. split; [apply stop_result_activations|].
  split; [apply stop_result_overflow|]. split; [exact E1|]. split; [exact E2|].
  split; [apply stop_result_calls|].
  rewrite stop_result_audios. split.
  - unfold pause_handle.
    destruct (currentInstrumentalAudio w), (currentAudio w);
      rewrite ?length_alter; reflexivity.
  - intros a el H.
    apply pause_handle_origin in H as (el1 & H1 & Hel).
    apply pause_handle_origin in H1 as (el0 & H0 & Hel1).
    exists el0. split; [exact H0|].
    destruct Hel as [->| ->], Hel1 as [->| ->]; auto.
Qed.

(** ** The instrumental track *)

Lemma find_audio_by_id_lookup (i : jsstring) (l : list AudioEl) :
  forall k a,
    find_audio_by_id i k l = Some a ->
    k <= a /\ exists el, l !! (a - k) = Some el /\ a_id el = Some i.
Proof.
  induction l as [|el l IH]; intros k a H; simpl in H; [discriminate|].
  destruct (bool_decide (a_id el = Some i)) eqn:Hd.
  - injection H as <-. apply bool_decide_eq_true in Hd.
    split; [lia|]. exists el. rewrite Nat.sub_diag. auto.
  - destruct (IH (S k) a H) as (Hle & el' & Hl & Hid).
    split; [lia|]. exists el'. split; [|exact Hid].
    replace (a - k) with (S (a - S k)) by lia. exact Hl.
Qed.

(** X7 — The instrumental of an item whose [instrumentalId], when set, is
    one of the three beat ids: the beat named by [instrumentalId] wins over
    [instrumentalSrc], and the element of the page with that id is restarted
    from position 0 at volume 0.2.  If the page has no such element nothing
    is started, even when [instrumentalSrc] is set.  Without
    [instrumentalId], a new element for [instrumentalSrc] plays in a loop at
    volume 0.4; without either, the world is left as it is. *)
Theorem instrumental_choice (tiktok : TikTok) (sid : ActivationId) (w : World) :
  (forall i, instrumentalId tiktok = Some i -> i <> [] -> i ∈ beat_ids) ->
  exists w',
    start_instrumental tiktok sid w = Done tt w'
    /\ if truthy (instrumentalId tiktok) then
         match querySelector_audio (default [] (instrumentalId tiktok)) w with
         | Some a =>
             exists el,
               audios w !! a = Some el
               /\ a_id el = instrumentalId tiktok
               /\ currentInstrumentalAudio w' = Some a
               /\ audios w' !! a
                  = Some (mkAudioEl (a_id el) (a_src el) false 0%Q NaN (loop el)
                            (literal (1 # 5)) None (a_listener el) (Some sid))
               /\ length (audios w') = length (audios w)
         | None => w' = w
         end
       else if truthy (instrumentalSrc tiktok) then
         currentInstrumentalAudio w' = Some (length (audios w))
         /\ audios w' !! length (audios w)
            = Some (mkAudioEl None (default [] (instrumentalSrc tiktok)) false
                      0%Q NaN true (literal (2 # 5)) None None (Some sid))
         /\ length (audios w') = S (length (audios w))
       else w' = w.
Proof.
  intros _.
  exists (instrumental_result tiktok sid w).
  split; [apply start_instrumental_done|].
  unfold instrumental_result.
  destruct (truthy (instrumentalId tiktok)) eqn:Hid.
  - destruct (querySelector_audio _ w) as [a|] eqn:Hq; [|reflexivity].
    apply find_audio_by_id_lookup in Hq as (_ & el & Hl & Hel).
    rewrite Nat.sub_0_r in Hl. exists el. split; [exact Hl|]. split.
    { rewrite Hel. destruct (instrumentalId tiktok); [reflexivity|discriminate]. }
    split; [reflexivity|]. unfold beat_started. simpl. split.
    + rewrite !list_lookup_alter_eq, Hl. reflexivity.
    + now rewrite !length_alter.
  - destruct (truthy (instrumentalSrc tiktok)); [|reflexivity].
    unfold track_started. simpl. split; [reflexivity|]. split.
    + rewrite !list_lookup_alter_eq, list_lookup_middle by reflexivity.
      reflexivity.
    + rewrite !length_alter, length_app. simpl. lia.
Qed.

Lemma instrumental_choice_witness :
  exists w',
    start_instrumental sample_speech 0 sample_world = Done tt w'
    /\ currentInstrumentalAudio w' = Some 0
    /\ volume <$> audios w' !! 0 = Some (literal (1 # 5))
    /\ paused <$> audios w' !! 0 = Some false.
Proof.
  destruct (instrumental_choice sample_speech 0 sample_world)
    as (w' & Hrun & Hout).
  - intros i Hi _. injection Hi as <-. apply list_elem_of_here.
  - exists w'. split; [exact Hrun|].
    change (truthy (instrumentalId sample_speech)) with true in Hout.
    change (querySelector_audio (default [] (instrumentalId sample_speech))
              sample_world) with (Some 0) in Hout.
    destruct Hout as (el & _ & _ & Hcur & Hel & _).
    rewrite Hcur, Hel. auto.
Defined.

(** ** Sessions that end, and one that does not *)

(** X8 — The ['ended'] event of an element that carries the narration
    handlers stops the session: nothing plays or is queued afterwards. *)
Theorem narration_end_stops (w : World) (a : AudioId) (sid : ActivationId) :
  a_listener (audio_at w a) = Some sid -> handles_cover w ->
  stopped (exec (AudioEnded a) w) /\ quiet (exec (AudioEnded a) w).
Proof.
  intros Hl Hc.
  set (w1 := set_audios (alter (set_paused true) a (audios w)) w).
  assert (Hl1 : a_listener (audio_at w1 a) = Some sid).
  { unfold audio_at in *. subst w1. simpl. rewrite list_lookup_alter_eq.
    destruct (audios w !! a); simpl in *; [exact Hl|discriminate]. }
  assert (Hc1 : handles_cover w1).
  { intros a' el H Hp. subst w1. simpl in *.
    apply lookup_alter_inv in H as [[-> (y & _ & ->)]|[_ H]];
      [discriminate Hp|exact (Hc a' el H Hp)]. }
  assert (He : exec (AudioEnded a) w = stop_result w1).
  { unfold exec. simpl.
    unfold bind at 1, update_audio, modify, with_listener, bind at 1, get at 1.
    fold w1. rewrite Hl1. unfold audio_onended. now rewrite stopSlideshow_done. }
  rewrite He. split; [apply stop_result_stopped|now apply stop_result_quiet].
Qed.

Lemma narration_end_stops_witness :
  stopped (exec (AudioEnded 2) song_playing)
  /\ quiet (exec (AudioEnded 2) song_playing).
Proof.
  apply (narration_end_stops song_playing 2 0).
  - vm_compute. reflexivity.
  - exact song_playing_cover.
Defined.

(** X9 — An item that is neither a browser-speech item nor has a song starts
    a session without narration: [isPlaying] is set, but there is no
    narration element and no utterance, hence no callback that would end it. *)
Theorem session_without_narration (w : World) (c : ContainerId) (tiktok : TikTok) :
  start_target w = Some (c, tiktok) ->
  useBrowserTTS tiktok = false -> truthy (songSrc tiktok) = false ->
  isPlaying (exec CallStart w) = true
  /\ body_slideshow_paused (exec CallStart w) = false
  /\ currentAudio (exec CallStart w) = None
  /\ speechQueue (exec CallStart w) = [].
Proof.
  intros Ht Htts Hsong. rewrite exec_CallStart. unfold start_result.
  rewrite Ht. unfold session_result, narration_result. rewrite Htts, Hsong.
  set (y := set_body_slideshow_paused false (set_isPlaying true _)).
  destruct (instrumental_result_frame tiktok (length (activations w)) y)
    as (-> & -> & _ & -> & _).
  rewrite instrumental_result_currentAudio. subst y. simpl.
  rewrite stop_result_currentAudio, stop_result_speechQueue. auto.
Qed.

Lemma session_without_narration_witness :
  let silent := mkTikTok (lit "7") [sample_slide "x"] None None None false None in
  let w := mkWorld false [silent] None (Some 0) None None [] true overflow_auto
             [sample_container silent] [] true true [] [] [] [] [] [] in
  isPlaying (exec CallStart w) = true /\ currentAudio (exec CallStart w) = None.
Proof.
  intros silent w.
  destruct (session_without_narration w 0 silent) as (A & _ & B & _);
    [vm_compute; reflexivity | reflexivity | reflexivity |].
  split; assumption.
Defined.

(** ** Visibility markers *)

Lemma toggled_lookup (c0 i0 : nat) (b : bool) (w : World) (c i : nat) :
  slider_children (toggled (c0, i0) b w) c !! i
  = if bool_decide ((c0, i0) = (c, i))
    then (fun _ => mkSlideEl b) <$> slider_children w c !! i
    else slider_children w c !! i.
Proof.
  unfold slider_children, container_at, toggled. simpl.
  destruct (Nat.eq_dec c0 c) as [->|Hc].
  - rewrite list_lookup_alter_eq.
    destruct (containers w !! c) as [ct|]; simpl.
    + destruct (horizontal_slider ct) as [ch|]; simpl.
      * destruct (Nat.eq_dec i0 i) as [->|Hi].
        -- rewrite bool_decide_eq_true_2 by reflexivity.
           apply list_lookup_alter_eq.
        -- rewrite bool_decide_eq_false_2 by congruence.
           now apply list_lookup_alter_ne.
      * now destruct (bool_decide _).
    + now destruct (bool_decide _).
  - rewrite list_lookup_alter_ne by exact Hc.
    rewrite bool_decide_eq_false_2 by congruence. reflexivity.
Qed.

(** X10 — After a batch, a slide carries the ['is-visible'] marker exactly
    when its last entry in the batch was intersecting; slides without an
    entry keep their marker. *)
Theorem visibility_markers (entries : list (SlideRef * bool)) (w : World)
    (c i : nat) (el : SlideEl) :
  slider_children w c !! i = Some el ->
  exists w',
    slideObserver_callback entries w = Done tt w'
    /\ slider_children w' c !! i
       = Some (mkSlideEl (last_flag entries (c, i) (is_visible el))).
Proof.
  intros Hel. eexists. split; [apply slideObserver_callback_done|].
  change (slider_children (set_slideshow_overflowY _ (marked entries w)) c)
    with (slider_children (marked entries w) c).
  revert w el Hel.
  induction entries as [|[[c0 i0] b] rest IH]; intros w el Hel; simpl.
  - rewrite Hel. now destruct el.
  - pose proof (toggled_lookup c0 i0 b w c i) as Ht. rewrite Hel in Ht.
    destruct (decide ((c0, i0) = (c, i))) as [E|E].
    + rewrite bool_decide_eq_true_2 in Ht by exact E.
      rewrite bool_decide_eq_true_2 by exact E.
      simpl in Ht. now rewrite (IH _ _ Ht).
    + rewrite bool_decide_eq_false_2 in Ht by exact E.
      rewrite bool_decide_eq_false_2 by exact E.
      now rewrite (IH _ _ Ht).
Qed.

Lemma visibility_markers_witness :
  slider_children
    (world_of (slideObserver_callback [((0, 1), true); ((0, 2), true); ((0, 1), false)]
                 sample_world)) 0 !! 1
  = Some (mkSlideEl false).
Proof.
  destruct (visibility_markers [((0, 1), true); ((0, 2), true); ((0, 1), false)]
              sample_world 0 1 (mkSlideEl false) eq_refl) as (w' & Hrun & Hm).
  rewrite Hrun. exact Hm.
Defined.

(** ** Beats for generated speech items *)

Lemma selectBeatForStyle_cases (toLowerCase : jsstring -> jsstring)
    (style : jsstring) :
  selectBeatForStyle toLowerCase style = lit "beat-upbeat"
  \/ selectBeatForStyle toLowerCase style = lit "beat-ballad"
  \/ selectBeatForStyle toLowerCase style = lit "beat-epic".
Proof.
  unfold selectBeatForStyle.
  repeat match goal with |- context [if ?b then _ else _] => destruct b end;
    auto.
Qed.

(** X11 — Whatever the style text, the beat chosen for a browser-speech item
    is one of the three beat ids, never an empty or other id; hence such an
    item always takes the page-element branch of the instrumental set-up: no
    audio element is created for it, and its instrumental is either the
    page's element with that id or, when the page has none, nothing. *)
Theorem speech_items_use_page_beats (toLowerCase : jsstring -> jsstring)
    (style : jsstring) (tiktok : TikTok) (sid : ActivationId) (w : World) :
  instrumentalId tiktok = Some (selectBeatForStyle toLowerCase style) ->
  let beat := selectBeatForStyle toLowerCase style in
  (beat = lit "beat-upbeat" \/ beat = lit "beat-ballad" \/ beat = lit "beat-epic")
  /\ truthy (instrumentalId tiktok) = true
  /\ exists w',
       start_instrumental tiktok sid w = Done tt w'
       /\ length (audios w') = length (audios w)
       /\ (w' = w
           \/ exists a el,
                currentInstrumentalAudio w' = Some a
                /\ audios w !! a = Some el /\ a_id el = Some beat).
Proof.
  intros Hid beat.
  pose proof (selectBeatForStyle_cases toLowerCase style) as Hcases.
  fold beat in Hcases, Hid.
  assert (Htruthy : truthy (instrumentalId tiktok) = true).
  { rewrite Hid. destruct Hcases as [->|[->| ->]]; reflexivity. }
  split; [exact Hcases|]. split; [exact Htruthy|].
  exists (instrumental_result tiktok sid w).
  split; [apply start_instrumental_done|].
  unfold instrumental_result. rewrite Htruthy, Hid. simpl.
  destruct (querySelector_audio beat w) as [a|] eqn:Hq; [|auto].
  apply find_audio_by_id_lookup in Hq as (_ & el & Hl & Hel).
  rewrite Nat.sub_0_r in Hl. split.
  - unfold beat_started. simpl. now rewrite !length_alter.
  - right. exists a, el. auto.
Qed.

Lemma speech_items_use_page_beats_witness :
  selectBeatForStyle ascii_toLowerCase (lit "Gentle Acoustic Ballad")
  = lit "beat-ballad"
  /\ truthy (Some (selectBeatForStyle ascii_toLowerCase
                     (lit "Gentle Acoustic Ballad"))) = true.
Proof.
  pose (tiktok := mkTikTok (lit "1") [] None None
                    (Some (selectBeatForStyle ascii_toLowerCase
                             (lit "Gentle Acoustic Ballad")))
                    true None).
  destruct (speech_items_use_page_beats ascii_toLowerCase
              (lit "Gentle Acoustic Ballad") tiktok 0 sample_world eq_refl)
    as (_ & Ht & _).
  split; [vm_compute; reflexivity|exact Ht].
Defined.

(** ** The error modal *)

(** ** Items in the feed *)

Lemma addTikTokToFeed_done (tiktok : TikTok) (p : Page) (ts : list ContainerId) :
  tiktokObserver p = Some ts ->
  addTikTokToFeed tiktok p
  = PageDone
      (mkPage
         (set_containers (containers (world p) ++ [tiktokContainer_for tiktok])
            (world p))
         (Some (ts ++ [length (containers (world p))]))
         (length (containers (world p)) :: feed p)
         ((id tiktok, length (containers (world p))) :: element_of p)
         (timers p) (scrollTo_calls p)).
Proof. intros H. unfold addTikTokToFeed. simpl. now rewrite H. Qed.

Lemma container_at_new (w : World) (ct : Container) :
  container_at (set_containers (containers w ++ [ct]) w) (length (containers w))
  = ct.
Proof.
  unfold container_at. simpl.
  now rewrite list_lookup_middle by reflexivity.
Qed.

Lemma container_at_old (w : World) (ct : Container) (c : ContainerId) :
  c < length (containers w) ->
  container_at (set_containers (containers w ++ [ct]) w) c = container_at w c.
Proof.
  intros H. unfold container_at. simpl. now rewrite lookup_app_l by exact H.
Qed.

(** X12 — Once the item observer exists, [addTikTokToFeed] puts a new
    container at the head of the feed and has it observed; the container
    names the item and its slider has one unmarked slide element per slide;
    older containers and all of playback are untouched. So when that
    container becomes the active one and the item is the saved item of that
    id with at least one slide, [startSlideshow] passes its guards with
    exactly this item. *)
Theorem feed_item_registered (tiktok : TikTok) (p : Page) (ts : list ContainerId) :
  tiktokObserver p = Some ts ->
  let c := length (containers (world p)) in
  exists p',
    addTikTokToFeed tiktok p = PageDone p'
    /\ feed p' = c :: feed p
    /\ tiktokObserver p' = Some (ts ++ [c])
    /\ dataset_tiktokId (container_at (world p') c) = Some (id tiktok)
    /\ length (slider_children (world p') c) = length (slides tiktok)
    /\ (forall i el, slider_children (world p') c !! i = Some el ->
          is_visible el = false)
    /\ (forall c', c' < c ->
          container_at (world p') c' = container_at (world p) c')
    /\ playback_state (world p') = playback_state (world p)
    /\ (slides tiktok <> [] ->
        find (fun t => bool_decide (Some (id t) = Some (id tiktok)))
          (savedTikToks (world p)) = Some tiktok ->
        start_target (set_activeTikTokContainer (Some c) (world p'))
        = Some (c, tiktok)).
Proof.
  intros Hobs c. eexists. split; [exact (addTikTokToFeed_done tiktok p ts Hobs)|].
  simpl. fold c.
  pose proof (container_at_new (world p) (tiktokContainer_for tiktok)) as Hnew.
  fold c in Hnew.
  split; [reflexivity|]. split; [reflexivity|].
  split; [now rewrite Hnew|].
  assert (Hch : slider_children
                  (set_containers
                     (containers (world p) ++ [tiktokContainer_for tiktok])
                     (world p)) c
                = map (fun _ => mkSlideEl false) (slides tiktok)).
  { unfold slider_children. now rewrite Hnew. }
  split; [now rewrite Hch, length_map|].
  split.
  { intros i el. rewrite Hch, list_lookup_fmap.
    destruct (slides tiktok !! i); simpl; [|discriminate].
    now intros [= <-]. }
  split; [intros c' Hc'; now apply container_at_old|].
  split; [reflexivity|].
  intros Hne Hfind.
  set (w' := set_containers
               (containers (world p) ++ [tiktokContainer_for tiktok]) (world p))
    in *.
  assert (Hct : container_at (set_activeTikTokContainer (Some c) w') c
                = tiktokContainer_for tiktok) by exact Hnew.
  unfold start_target.
  change (activeTikTokContainer (set_activeTikTokContainer (Some c) w'))
    with (Some c).
  change (savedTikToks (set_activeTikTokContainer (Some c) w'))
    with (savedTikToks (world p)).
  cbv beta iota zeta. rewrite Hct. unfold tiktokContainer_for. simpl.
  destruct (slides tiktok); [contradiction|]. simpl. now rewrite Hfind.
Qed.

Lemma feed_item_registered_witness :
  let p := mkPage sample_world (Some []) [] [] 0 [] in
  exists p',
    addTikTokToFeed sample_speech p = PageDone p'
    /\ feed p' = [2]
    /\ start_target (set_activeTikTokContainer (Some 2) (world p'))
       = Some (2, sample_speech).
Proof.
  intros p.
  destruct (feed_item_registered sample_speech p [] eq_refl)
    as (p' & A & B & _ & _ & _ & _ & _ & _ & C).
  exists p'. split; [exact A|]. split; [exact B|].
  apply C; [discriminate|vm_compute; reflexivity].
Defined.

Lemma page_forEach_add (l : list TikTok) :
  forall (p : Page) (ts : list ContainerId),
    tiktokObserver p = Some ts ->
    exists p',
      page_forEach l addTikTokToFeed p = PageDone p'
      /\ containers (world p')
         = containers (world p) ++ map tiktokContainer_for l
      /\ feed p'
         = rev (seq (length (containers (world p))) (length l)) ++ feed p
      /\ tiktokObserver p'
         = Some (ts ++ seq (length (containers (world p))) (length l))
      /\ playback_state (world p') = playback_state (world p)
      /\ savedTikToks (world p') = savedTikToks (world p).
Proof.
  induction l as [|t l IH]; intros p ts Hobs; simpl.
  - exists p. rewrite !app_nil_r. repeat split; auto.
  - rewrite (addTikTokToFeed_done t p ts Hobs).
    set (p1 := mkPage _ _ _ _ _ _).
    destruct (IH p1 (ts ++ [length (containers (world p))]) eq_refl)
      as (p' & A & B & C & D & E & F).
    subst p1.
    exists p'. split; [exact A|]. simpl in B, C, D, E, F.
    rewrite length_app in C, D. simpl in C, D.
    rewrite Nat.add_1_r in C, D.
    split; [now rewrite B, <- app_assoc|].
    split; [now rewrite C, <- app_assoc|].
    split; [now rewrite D, <- app_assoc|]. auto.
Qed.

Lemma new_containers_ids (l : list TikTok) :
  forall (old : list Container) (w' : World),
    containers w' = old ++ map tiktokContainer_for l ->
    map (fun c => dataset_tiktokId (container_at w' c))
      (seq (length old) (length l))
    = map (fun t => Some (id t)) l.
Proof.
  induction l as [|t l IH]; intros old w' Hc; simpl; [reflexivity|].
  f_equal.
  - unfold container_at. rewrite Hc. simpl.
    now rewrite list_lookup_middle by reflexivity.
  - specialize (IH (old ++ [tiktokContainer_for t]) w').
    rewrite length_app in IH. simpl in IH. rewrite Nat.add_1_r in IH.
    apply IH. rewrite Hc, <- app_assoc. reflexivity.
Qed.

(** X13 — With the item observer in place, filling the feed from the saved
    items (newest first) in reverse order leaves the feed, read from the
    top, in the order of the saved items: the newest item on top, each
    container naming its item, above whatever the feed held before. *)
Theorem history_feed_order (p : Page) (ts : list ContainerId) :
  tiktokObserver p = Some ts ->
  exists p' news,
    feed_history p = PageDone p'
    /\ feed p' = news ++ feed p
    /\ map (fun c => dataset_tiktokId (container_at (world p') c)) news
       = map (fun t => Some (id t)) (savedTikToks (world p))
    /\ tiktokObserver p' = Some (ts ++ rev news)
    /\ playback_state (world p') = playback_state (world p).
Proof.
  intros Hobs. unfold feed_history.
  destruct (page_forEach_add (rev (savedTikToks (world p))) p ts Hobs)
    as (p' & A & B & C & D & E & _).
  exists p', (rev (seq (length (containers (world p)))
                     (length (rev (savedTikToks (world p)))))).
  split; [exact A|]. split; [exact C|]. split.
  - rewrite map_rev.
    rewrite (new_containers_ids _ (containers (world p)) (world p') B).
    now rewrite <- map_rev, rev_involutive.
  - now rewrite rev_involutive.
Qed.

Lemma history_feed_order_witness :
  exists p',
    feed_history (mkPage (set_containers [] sample_world) (Some []) [] [] 0 [])
    = PageDone p'
    /\ map (fun c => dataset_tiktokId (container_at (world p') c)) (feed p')
       = [Some (id sample_song); Some (id sample_speech)].
Proof.
  destruct (history_feed_order
              (mkPage (set_containers [] sample_world) (Some []) [] [] 0 [])
              [] eq_refl) as (p' & news & A & B & C & _).
  exists p'. split; [exact A|]. rewrite B, app_nil_r. exact C.
Defined.

(** X14 — While the binding [tiktokObserver] is still undefined, which is
    the case when [init] loads the history, filling the feed from a
    non-empty list of saved items throws a [TypeError] on the first item,
    the oldest one: its container has been prepended, but it is not
    observed, the item's [element] is not set, and no other item is added. *)
Theorem history_before_observer (p : Page) :
  tiktokObserver p = None ->
  match rev (savedTikToks (world p)) with
  | [] => feed_history p = PageDone p
  | oldest :: _ =>
      exists p',
        feed_history p = PageThrow TypeError p'
        /\ containers (world p')
           = containers (world p) ++ [tiktokContainer_for oldest]
        /\ feed p' = length (containers (world p)) :: feed p
        /\ tiktokObserver p' = None
        /\ element_of p' = element_of p
  end.
Proof.
  intros Hobs. unfold feed_history.
  destruct (rev (savedTikToks (world p))) as [|oldest l]; [reflexivity|].
  simpl. unfold addTikTokToFeed. simpl. rewrite Hobs.
  eexists. split; [reflexivity|]. simpl. auto.
Qed.

Lemma history_before_observer_witness :
  exists p',
    feed_history (mkPage (set_containers [] sample_world) None [] [] 0 [])
    = PageThrow TypeError p'
    /\ feed p' = [0].
Proof.
  destruct (history_before_observer
              (mkPage (set_containers [] sample_world) None [] [] 0 [])
              eq_refl) as (p' & A & _ & B & _).
  now exists p'.
Defined.

(** ** Replay *)

Lemma start_target_page (w w' : World) :
  same_page w w' -> start_target w' = start_target w.
Proof.
  intros (A & _ & B & C & _). unfold start_target, container_at.
  now rewrite A, B, C.
Qed.

Lemma handleReplay_done (p : Page) (c : ContainerId) :
  activeTikTokContainer (world p) = Some c ->
  handleReplay p
  = PageDone
      (mkPage (stop_result (world p)) (tiktokObserver p) (feed p)
         (element_of p) (S (timers p))
         (scrollTo_calls p
            ++ match horizontal_slider (container_at (world p) c) with
               | Some _ => [c]
               | None => []
               end)).
Proof.
  intros Hact. unfold handleReplay. rewrite Hact. unfold on_world.
  destruct (horizontal_slider (container_at (world p) c)); simpl;
    rewrite stopSlideshow_done; simpl; rewrite ?app_nil_r; reflexivity.
Qed.

(** X15 — Without an active item [handleReplay] does nothing. With one, it
    stops the session at once, so that nothing plays or is queued while the
    restart is pending, asks the slider (if any) to scroll back to the left,
    and schedules exactly one call of [startSlideshow]. *)
Theorem replay_stops_then_schedules (p : Page) :
  handles_cover (world p) ->
  match activeTikTokContainer (world p) with
  | None => handleReplay p = PageDone p
  | Some c =>
      exists p',
        handleReplay p = PageDone p'
        /\ world p' = stop_result (world p)
        /\ stopped (world p') /\ quiet (world p')
        /\ timers p' = S (timers p)
        /\ scrollTo_calls p'
           = scrollTo_calls p
               ++ match horizontal_slider (container_at (world p) c) with
                  | Some _ => [c]
                  | None => []
                  end
  end.
Proof.
  intros Hc. destruct (activeTikTokContainer (world p)) as [c|] eqn:Hact.
  - eexists. split; [exact (handleReplay_done p c Hact)|]. simpl.
    split; [reflexivity|]. split; [apply stop_result_stopped|].
    split; [now apply stop_result_quiet|]. auto.
  - unfold handleReplay. now rewrite Hact.
Qed.

Lemma replay_stops_then_schedules_witness :
  let p := mkPage speech_playing (Some [0; 1]) [1; 0] [] 0 [] in
  exists p',
    handleReplay p = PageDone p'
    /\ quiet (world p') /\ timers p' = 1 /\ scrollTo_calls p' = [1].
Proof.
  intros p.
  assert (Hc : handles_cover (world p)).
  { apply session_inv_cover.
    apply (session_inv_run [ItemsIntersect [(1, true)]; Tap] sample_world).
    - repeat constructor; discriminate.
    - exists 0. apply quiet_owned_by, sample_world_quiet. }
  pose proof (replay_stops_then_schedules p Hc) as H.
  change (activeTikTokContainer (world p)) with (Some 1) in H.
  destruct H as (p' & A & _ & _ & B & C & D).
  exists p'. split; [exact A|]. split; [exact B|]. split; [exact C|].
  rewrite D. reflexivity.
Defined.

Lemma reached_head (rest : list SlideData) (i : nat) :
  rest <> [] -> exists k, length (reached rest i) = S k.
Proof.
  destruct rest as [|s rest]; [contradiction|]. intros _. simpl. eauto.
Qed.

(** X16 — Replay of a browser-speech item starts over from the first slide,
    wherever the previous session's cursor was: after [handleReplay] and its
    timer, the first scroll of the restarted session goes to slide 0, and
    what it speaks is the text of the first non-blank slide of the item
    (nothing, the session ending at once, when every slide is blank). *)
Theorem replay_restarts_from_first_slide (p : Page) (c : ContainerId)
    (tiktok : TikTok) :
  start_target (world p) = Some (c, tiktok) ->
  useBrowserTTS tiktok = true ->
  slides tiktok <> [] ->
  length (slides tiktok) <= length (slider_children (world p) c) ->
  exists p1 p2 more,
    handleReplay p = PageDone p1
    /\ replay_timer p1 = PageDone p2
    /\ timers p2 = timers p
    /\ scrolls (calls (world p2))
       = scrolls (calls (world p)) ++ (c, 0) :: more
    /\ match first_text (slides tiktok) with
       | Some s =>
           exists u,
             speaks (calls (world p2)) = speaks (calls (world p)) ++ [u]
             /\ u_text u = lyrics s
       | None =>
           speaks (calls (world p2)) = speaks (calls (world p))
           /\ stopped (world p2)
       end.
Proof.
  intros Ht Htts Hne Hlen.
  assert (Hact : activeTikTokContainer (world p) = Some c).
  { unfold start_target in Ht.
    destruct (activeTikTokContainer (world p)) as [c'|]; [|discriminate].
    destruct (horizontal_slider _) as [[|? ?]|]; try discriminate;
      destruct (find _ _); try discriminate; now injection Ht as -> _. }
  set (w1 := stop_result (world p)).
  assert (Ht1 : start_target w1 = Some (c, tiktok))
    by (rewrite <- Ht; apply start_target_page, same_page_stop).
  assert (Hlen1 : length (slides tiktok) <= length (slider_children w1 c))
    by (unfold w1; now rewrite (same_page_children _ _ c (same_page_stop _))).
  destruct (session_started w1 c tiktok Ht1 Htts) as [Hsc Hout].
  specialize (Hsc Hlen1). rewrite drop_0 in Hsc, Hout.
  destruct (reached_head (slides tiktok) 0 Hne) as (k & Hk).
  rewrite Hk in Hsc. simpl in Hsc.
  do 3 eexists.
  split; [exact (handleReplay_done p c Hact)|].
  unfold replay_timer, on_world. simpl. fold w1.
  rewrite startSlideshow_done. rewrite <- exec_CallStart.
  unfold set_world.
  cbn [world timers tiktokObserver feed element_of scrollTo_calls].
  split; [reflexivity|]. split; [reflexivity|]. cbn [world]. split.
  - rewrite Hsc. unfold w1. rewrite stop_result_scrolls. reflexivity.
  - destruct (first_text (slides tiktok)) as [s|].
    + destruct Hout as [Hsp _]. eexists. split.
      * rewrite Hsp. unfold w1 at 1. rewrite stop_result_speaks. reflexivity.
      * reflexivity.
    + destruct Hout as (Hsp & Hst & _). split; [|exact Hst].
      rewrite Hsp. unfold w1. apply stop_result_speaks.
Qed.

Lemma replay_restarts_from_first_slide_witness :
  let p := mkPage (run [SpeechEnd] speech_playing) (Some [0; 1]) [1; 0] [] 0 [] in
  exists p1 p2 more,
    handleReplay p = PageDone p1
    /\ replay_timer p1 = PageDone p2
    /\ scrolls (calls (world p2)) = scrolls (calls (world p)) ++ (1, 0) :: more.
Proof.
  intros p.
  destruct (replay_restarts_from_first_slide p 1 sample_speech)
    as (p1 & p2 & more & A & B & _ & C & _);
    [vm_compute; reflexivity | reflexivity | discriminate
     | vm_compute; lia |].
  exists p1, p2, more. auto.
Defined.

Lemma replay_timer_done (p : Page) :
  replay_timer p
  = PageDone
      match timers p with
      | 0 => p
      | S n =>
          mkPage (start_result (world p)) (tiktokObserver p) (feed p)
            (element_of p) n (scrollTo_calls p)
      end.
Proof.
  unfold replay_timer, on_world. destruct (timers p); [reflexivity|].
  simpl. now rewrite startSlideshow_done.
Qed.

(** X17 — No click on the feed and no replay timer breaks the single-session
    discipline or throws: whichever of the three targets a click lands on,
    and whether or not a replay timer then fires, all playing elements and
    queued utterances still belong to one activation; a click on an action
    icon other than replay changes nothing at all. *)
Theorem clicks_keep_one_session (t : ClickTarget) (p : Page) :
  session_inv (world p) ->
  exists p1 p2,
    slideshow_click t p = PageDone p1
    /\ replay_timer p1 = PageDone p2
    /\ session_inv (world p1) /\ at_most_one_session (world p1)
    /\ session_inv (world p2) /\ at_most_one_session (world p2)
    /\ (t = other_action_icon -> p1 = p).
Proof.
  intros Hinv.
  assert (Hclick : exists p1, slideshow_click t p = PageDone p1
                              /\ session_inv (world p1)
                              /\ (t = other_action_icon -> p1 = p)).
  { destruct t; simpl.
    - destruct (activeTikTokContainer (world p)) as [c|] eqn:Hact.
      + eexists. split; [exact (handleReplay_done p c Hact)|]. simpl.
        split; [|discriminate]. now apply session_inv_stop.
      + exists p. unfold handleReplay. rewrite Hact. auto.
    - exists p. auto.
    - unfold on_world. rewrite tap_done. eexists. split; [reflexivity|].
      simpl. split; [|discriminate].
      destruct (isPlaying (world p));
        [now apply session_inv_stop|now apply session_inv_start]. }
  destruct Hclick as (p1 & H1 & Hinv1 & Hsame).
  exists p1. eexists. split; [exact H1|].
  split; [apply replay_timer_done|].
  split; [exact Hinv1|]. split; [now apply session_inv_at_most_one|].
  assert (Hinv2 : session_inv
                    (world match timers p1 with
                           | 0 => p1
                           | S n =>
                               mkPage (start_result (world p1))
                                 (tiktokObserver p1) (feed p1) (element_of p1)
                                 n (scrollTo_calls p1)
                           end)).
  { destruct (timers p1); [exact Hinv1|]. simpl.
    now apply session_inv_start. }
  split; [exact Hinv2|]. split; [now apply session_inv_at_most_one|].
  exact Hsame.
Qed.

Lemma clicks_keep_one_session_witness :
  let p := mkPage speech_playing (Some [0; 1]) [1; 0] [] 0 [] in
  exists p1 p2,
    slideshow_click replay_btn p = PageDone p1
    /\ replay_timer p1 = PageDone p2
    /\ at_most_one_session (world p2).
Proof.
  intros p.
  destruct (clicks_keep_one_session replay_btn p)
    as (p1 & p2 & A & B & _ & _ & _ & C & _).
  - apply (session_inv_run [ItemsIntersect [(1, true)]; Tap] sample_world).
    + repeat constructor; discriminate.
    + exists 0. apply quiet_owned_by, sample_world_quiet.
  - exists p1, p2. auto.
Defined.

(** ** Theme *)

Lemma updateThemeIcons_frame (b : bool) (p : Panel) :
  body_light_mode (updateThemeIcons b p) = body_light_mode p
  /\ localStorage (updateThemeIcons b p) = localStorage p
  /\ icons_show b (updateThemeIcons b p).
Proof.
  unfold updateThemeIcons, icons_show.
  destruct (themeToggle p) as [[[sun|] [moon|]]|] eqn:E; simpl; rewrite ?E; auto.
Qed.

Lemma toggleTheme_saved (p : Panel) :
  body_light_mode (toggleTheme p) = negb (body_light_mode p)
  /\ localStorage (toggleTheme p) !! lit "theme"
     = Some (if body_light_mode (toggleTheme p) then lit "light" else lit "dark")
  /\ icons_show (body_light_mode (toggleTheme p)) (toggleTheme p).
Proof.
  unfold toggleTheme.
  set (q := setItem _ _ _).
  destruct (updateThemeIcons_frame (negb (body_light_mode p)) q) as (A & B & C).
  rewrite A, B. subst q. simpl. rewrite lookup_insert_eq. auto.
Qed.

Lemma toggles_saved (n : nat) :
  forall p, 0 < n ->
    localStorage (toggles n p) !! lit "theme"
    = Some (if body_light_mode (toggles n p) then lit "light" else lit "dark")
    /\ icons_show (body_light_mode (toggles n p)) (toggles n p).
Proof.
  induction n as [|n IH]; intros p Hn; [lia|]. simpl.
  destruct n as [|n].
  - simpl. destruct (toggleTheme_saved p) as (_ & A & B). auto.
  - apply IH. lia.
Qed.

Lemma toggles_mode (n : nat) :
  forall p, body_light_mode (toggles n p) = xorb (Nat.odd n) (body_light_mode p).
Proof.
  induction n as [|n IH]; intros p.
  - simpl. destruct (body_light_mode p); reflexivity.
  - simpl toggles. rewrite IH. destruct (toggleTheme_saved p) as (-> & _).
    rewrite Nat.odd_succ, <- Nat.negb_odd.
    destruct (Nat.odd n), (body_light_mode p); reflexivity.
Qed.

(** X18 — The theme switch keeps what is shown and what is stored in step:
    after any number [n > 0] of clicks the body is in light mode exactly
    when it was not [n] clicks ago for odd [n] (and as it was for even [n]),
    the stored theme names the mode the body is in, and the icons, where
    both exist, show that mode. *)
Theorem theme_switch_consistent (n : nat) (p : Panel) :
  0 < n ->
  body_light_mode (toggles n p) = xorb (Nat.odd n) (body_light_mode p)
  /\ localStorage (toggles n p) !! lit "theme"
     = Some (if body_light_mode (toggles n p) then lit "light" else lit "dark")
  /\ icons_show (body_light_mode (toggles n p)) (toggles n p).
Proof.
  intros Hn. split; [apply toggles_mode|]. now apply toggles_saved.
Qed.

Lemma theme_switch_consistent_witness :
  body_light_mode (toggles 3 sample_panel) = true
  /\ localStorage (toggles 3 sample_panel) !! lit "theme" = Some (lit "light").
Proof.
  destruct (theme_switch_consistent 3 sample_panel) as (A & B & _); [lia|].
  split; [exact A|]. rewrite B, A. reflexivity.
Defined.

(** X19 — The theme survives a reload: when the page is loaded again (its
    body not yet in light mode) with the storage that [n > 0] clicks on the
    theme switch left, [setupTheme] puts the body and the icons in the mode
    the page was in when it was closed. *)
Theorem theme_survives_reload (n : nat) (p q : Panel) :
  0 < n ->
  body_light_mode q = false ->
  localStorage q = localStorage (toggles n p) ->
  body_light_mode (setupTheme q) = body_light_mode (toggles n p)
  /\ icons_show (body_light_mode (toggles n p)) (setupTheme q).
Proof.
  intros Hn Hq Hst. destruct (toggles_saved n p Hn) as [Hsaved _].
  unfold setupTheme. rewrite Hst, Hsaved.
  destruct (body_light_mode (toggles n p)).
  - rewrite bool_decide_eq_true_2 by reflexivity.
    destruct (updateThemeIcons_frame true (with_body_light_mode true q))
      as (A & _ & C).
    rewrite A. auto.
  - rewrite bool_decide_eq_false_2
      by (intros H; injection H as H; vm_compute in H; discriminate H).
    destruct (updateThemeIcons_frame false q) as (A & _ & C).
    rewrite A. auto.
Qed.

Lemma theme_survives_reload_witness :
  let closed := toggles 1 sample_panel in
  let reloaded := with_localStorage (localStorage closed) sample_panel in
  body_light_mode (setupTheme reloaded) = true.
Proof.
  intros closed reloaded.
  destruct (theme_survives_reload 1 sample_panel reloaded) as [A _];
    [lia | reflexivity | reflexivity |].
  rewrite A. reflexivity.
Defined.

(** ** Voices *)

Lemma fold_left_append {A B} (f : A -> B) (l : list A) :
  forall acc, fold_left (fun children x => children ++ [f x]) l acc
              = acc ++ map f l.
Proof.
  induction l as [|x l IH]; intros acc; simpl.
  - now rewrite app_nil_r.
  - rewrite IH, <- app_assoc. reflexivity.
Qed.

Lemma populateVoices_values (vs : list SpeechSynthesisVoice)
    (g opts : list VoiceOption) :
  populateVoices vs (Some g) = Some opts ->
  map option_value opts
  = map voice_name
      (List.filter (fun voice => starts_with (lit "en") (voice_lang voice)) vs).
Proof.
  unfold populateVoices. rewrite fold_left_append. intros H.
  injection H as <-. simpl. rewrite map_map. reflexivity.
Qed.

(** X20 — The voice list offers the names of the voices whose language tag
    starts with "en", in the engine's order and nothing else, whatever the
    list held before: refreshing it when the engine announces its voices
    again neither duplicates nor keeps an entry; without the list element
    nothing is built. *)
Theorem voice_list_refresh (vs : list SpeechSynthesisVoice)
    (g : list VoiceOption) :
  populateVoices vs None = None
  /\ exists opts,
       populateVoices vs (Some g) = Some opts
       /\ populateVoices vs (Some opts) = Some opts
       /\ map option_value opts
          = map voice_name
              (List.filter
                 (fun voice => starts_with (lit "en") (voice_lang voice)) vs)
       /\ forall o, o ∈ opts ->
            exists voice,
              voice ∈ vs /\ starts_with (lit "en") (voice_lang voice) = true
              /\ option_value o = voice_name voice.
Proof.
  split; [reflexivity|].
  destruct (populateVoices vs (Some g)) as [opts|] eqn:E; [|discriminate E].
  exists opts. split; [reflexivity|]. split; [exact E|].
  split; [now apply (populateVoices_values vs g)|].
  intros o Ho. unfold populateVoices in E. rewrite fold_left_append in E.
  injection E as <-. simpl in Ho.
  apply list_elem_of_fmap in Ho as (voice & -> & Hv).
  apply list_elem_of_In, filter_In in Hv as [Hin Hen].
  exists voice. split; [now apply list_elem_of_In|]. auto.
Qed.

(** X21 — A voice picked from the list is the one the narration uses: for an
    item whose [voiceName] is the value of an offered option, with a
    non-empty name, [speakAndAdvance] finds a voice of that name among the
    engine's voices. *)
Theorem offered_voice_is_found (w : World) (vs : list SpeechSynthesisVoice)
    (g opts : list VoiceOption) (o : VoiceOption) (tiktok : TikTok) :
  voices w = map voice_name vs ->
  populateVoices vs (Some g) = Some opts ->
  o ∈ opts ->
  option_value o <> [] ->
  voiceName tiktok = Some (option_value o) ->
  selectedVoice tiktok w = Some (option_value o).
Proof.
  intros Hw Hopts Ho Hne Hname.
  assert (Hin : In (option_value o) (voices w)).
  { rewrite Hw.
    assert (H : In (option_value o) (map option_value opts))
      by (apply in_map, list_elem_of_In, Ho).
    rewrite (populateVoices_values vs g opts Hopts) in H.
    apply in_map_iff in H as (voice & Hv & Hf).
    apply filter_In in Hf as [Hf _]. rewrite <- Hv. now apply in_map. }
  unfold selectedVoice. rewrite Hname.
  destruct (option_value o) as [|c s] eqn:Hval; [contradiction|]. simpl.
  clear -Hin. induction (voices w) as [|name names IH]; [destruct Hin|].
  simpl. destruct (decide (Some name = Some (c :: s))) as [E|E].
  - rewrite bool_decide_eq_true_2 by exact E. exact E.
  - rewrite bool_decide_eq_false_2 by exact E. apply IH.
    destruct Hin as [->|H]; [contradiction|exact H].
Qed.

Lemma offered_voice_is_found_witness :
  selectedVoice
    (mkTikTok (lit "1") [] None None None true (Some (lit "Alice")))
    sample_world
  = Some (lit "Alice").
Proof.
  apply (offered_voice_is_found sample_world
           [mkVoice (lit "Bob") (lit "de-DE"); mkVoice (lit "Alice") (lit "en-US")]
           []
           [mkVoiceOption (lit "Alice") (lit "Alice (en-US)")]
           (mkVoiceOption (lit "Alice") (lit "Alice (en-US)")));
    [reflexivity | reflexivity | apply list_elem_of_here
     | vm_compute; discriminate | reflexivity].
Defined.

(** ** API keys *)

Lemma key_names_differ : lit "GEMINI_API_KEY" <> lit "ELEVENLABS_API_KEY".
Proof. intros H. vm_compute in H. discriminate H. Qed.

Lemma truthy_trim (s : jsstring) : truthy (Some s) = true <-> s <> [].
Proof. destruct s; simpl; split; congruence. Qed.

Lemma truthy_blank (s : jsstring) : truthy (Some s) = false <-> s = [].
Proof. destruct s; simpl; split; congruence. Qed.

Lemma loadApiKeys_gemini (q : Panel) :
  geminiApiKey (loadApiKeys q) = localStorage q !! lit "GEMINI_API_KEY"
  /\ geminiApiKeyInput (loadApiKeys q)
     = match localStorage q !! lit "GEMINI_API_KEY" with
       | Some (c :: s) => c :: s
       | _ => geminiApiKeyInput q
       end.
Proof.
  unfold loadApiKeys. simpl.
  destruct (localStorage q !! lit "GEMINI_API_KEY") as [[|c s]|];
    destruct (localStorage q !! lit "ELEVENLABS_API_KEY") as [[|c' s']|];
    simpl; auto.
Qed.

Lemma loadApiKeys_elevenLabs (q : Panel) :
  elevenLabsApiKey (loadApiKeys q) = localStorage q !! lit "ELEVENLABS_API_KEY"
  /\ elevenLabsApiKeyInput (loadApiKeys q)
     = match localStorage q !! lit "ELEVENLABS_API_KEY" with
       | Some (c :: s) => c :: s
       | _ => elevenLabsApiKeyInput q
       end.
Proof.
  unfold loadApiKeys. simpl.
  destruct (localStorage q !! lit "GEMINI_API_KEY") as [[|c s]|];
    destruct (localStorage q !! lit "ELEVENLABS_API_KEY") as [[|c' s']|];
    simpl; auto.
Qed.

Section ClientProofs.

Variable GoogleGenAI_throws : jsstring -> option jsstring.
Variable getInstructionsForSong : jsstring -> jsstring.

Lemma initializeGenAI_frame (p : Panel) :
  localStorage (initializeGenAI GoogleGenAI_throws p) = localStorage p
  /\ geminiApiKey (initializeGenAI GoogleGenAI_throws p) = geminiApiKey p
  /\ elevenLabsApiKey (initializeGenAI GoogleGenAI_throws p) = elevenLabsApiKey p
  /\ isGenerating (initializeGenAI GoogleGenAI_throws p) = isGenerating p
  /\ userInput (initializeGenAI GoogleGenAI_throws p) = userInput p
  /\ characterInput (initializeGenAI GoogleGenAI_throws p) = characterInput p
  /\ voiceSelector (initializeGenAI GoogleGenAI_throws p) = voiceSelector p
  /\ elevenLabsApiKeyInput (initializeGenAI GoogleGenAI_throws p) = elevenLabsApiKeyInput p.
Proof.
  unfold initializeGenAI.
  destruct (geminiApiKey p) as [[|c s]|] eqn:E; simpl; rewrite ?E; auto 10.
  destruct (GoogleGenAI_throws (c :: s)); simpl; rewrite ?E; auto 10.
Qed.

Lemma initializeGenAI_ai (p : Panel) (key : jsstring) :
  geminiApiKey p = Some key -> key <> [] ->
  ai (initializeGenAI GoogleGenAI_throws p)
  = match GoogleGenAI_throws key with
    | None => Some (mkGoogleGenAI key)
    | Some _ => None
    end.
Proof.
  intros E Hne. unfold initializeGenAI. rewrite E.
  destruct key as [|c s]; [contradiction|]. simpl.
  destruct (GoogleGenAI_throws (c :: s)); reflexivity.
Qed.

Lemma initializeGenAI_rejected (p : Panel) (key e : jsstring) :
  geminiApiKey p = Some key -> key <> [] ->
  GoogleGenAI_throws key = Some e ->
  initializeGenAI GoogleGenAI_throws p
  = with_panel_world
      (popup (lit "Failed to initialize Gemini Client: " ++ e) (panel_world p))
      (with_ai None p).
Proof.
  intros E Hne He. unfold initializeGenAI. rewrite E.
  destruct key as [|c s]; [contradiction|].
  change (truthy (Some (c :: s))) with true. cbv iota. rewrite He.
  reflexivity.
Qed.

Lemma saveApiKeys_storage (p : Panel) :
  localStorage (saveApiKeys GoogleGenAI_throws p)
  = (let stored :=
       if truthy (Some (trim (geminiApiKeyInput p)))
       then <[lit "GEMINI_API_KEY" := trim (geminiApiKeyInput p)]> (localStorage p)
       else localStorage p in
     if truthy (Some (trim (elevenLabsApiKeyInput p)))
     then <[lit "ELEVENLABS_API_KEY" := trim (elevenLabsApiKeyInput p)]> stored
     else stored).
Proof.
  unfold saveApiKeys.
  destruct (truthy (Some (trim (geminiApiKeyInput p)))).
  - set (q := with_geminiApiKey _ _).
    destruct (initializeGenAI_frame q) as (A & _).
    destruct (truthy (Some (trim (elevenLabsApiKeyInput p)))); simpl;
      rewrite A; reflexivity.
  - destruct (truthy (Some (trim (elevenLabsApiKeyInput p)))); reflexivity.
Qed.

Lemma saveApiKeys_keys (p : Panel) :
  geminiApiKey (saveApiKeys GoogleGenAI_throws p)
  = (if truthy (Some (trim (geminiApiKeyInput p)))
     then Some (trim (geminiApiKeyInput p)) else geminiApiKey p)
  /\ elevenLabsApiKey (saveApiKeys GoogleGenAI_throws p)
     = (if truthy (Some (trim (elevenLabsApiKeyInput p)))
        then Some (trim (elevenLabsApiKeyInput p)) else elevenLabsApiKey p)
  /\ isGenerating (saveApiKeys GoogleGenAI_throws p) = isGenerating p
  /\ userInput (saveApiKeys GoogleGenAI_throws p) = userInput p
  /\ characterInput (saveApiKeys GoogleGenAI_throws p) = characterInput p
  /\ voiceSelector (saveApiKeys GoogleGenAI_throws p) = voiceSelector p
  /\ apiKeyModal_hidden (saveApiKeys GoogleGenAI_throws p) = true.
Proof.
  unfold saveApiKeys.
  destruct (truthy (Some (trim (geminiApiKeyInput p)))).
  - set (q := with_geminiApiKey _ _).
    destruct (initializeGenAI_frame q) as (_ & A & B & C & D & E & F & G).
    destruct (truthy (Some (trim (elevenLabsApiKeyInput p)))); simpl;
      rewrite ?A, ?B, ?C, ?D, ?E, ?F; auto 10.
  - destruct (truthy (Some (trim (elevenLabsApiKeyInput p)))); simpl; auto 10.
Qed.

(** X22 — API keys survive a reload: a key typed with surrounding white
    space and saved is the one [loadApiKeys] finds on a page with that
    storage, trimmed, both in the binding and in the form field. *)
Theorem api_keys_round_trip (p q : Panel) :
  localStorage q = localStorage (saveApiKeys GoogleGenAI_throws p) ->
  (trim (geminiApiKeyInput p) <> [] ->
   geminiApiKey (loadApiKeys q) = Some (trim (geminiApiKeyInput p))
   /\ geminiApiKeyInput (loadApiKeys q) = trim (geminiApiKeyInput p))
  /\ (trim (elevenLabsApiKeyInput p) <> [] ->
      elevenLabsApiKey (loadApiKeys q) = Some (trim (elevenLabsApiKeyInput p))
      /\ elevenLabsApiKeyInput (loadApiKeys q) = trim (elevenLabsApiKeyInput p)).
Proof.
  intros Hst.
  destruct (loadApiKeys_gemini q) as [G1 G2].
  destruct (loadApiKeys_elevenLabs q) as [E1 E2].
  rewrite G1, G2, E1, E2, Hst, saveApiKeys_storage. clear. cbv zeta.
  split; intros Hne.
  - apply truthy_trim in Hne as Ht. rewrite Ht.
    assert (H : forall m : gmap jsstring jsstring,
              (if truthy (Some (trim (elevenLabsApiKeyInput p)))
               then <[lit "ELEVENLABS_API_KEY" := trim (elevenLabsApiKeyInput p)]>
                      (<[lit "GEMINI_API_KEY" := trim (geminiApiKeyInput p)]> m)
               else <[lit "GEMINI_API_KEY" := trim (geminiApiKeyInput p)]> m)
              !! lit "GEMINI_API_KEY" = Some (trim (geminiApiKeyInput p))).
    { intros m. destruct (truthy (Some (trim (elevenLabsApiKeyInput p)))).
      - rewrite lookup_insert_ne by (apply not_eq_sym, key_names_differ).
        apply lookup_insert_eq.
      - apply lookup_insert_eq. }
    rewrite !H. destruct (trim (geminiApiKeyInput p)); [contradiction|auto].
  - apply truthy_trim in Hne as Ht. rewrite !Ht, !lookup_insert_eq.
    destruct (trim (elevenLabsApiKeyInput p)); [contradiction|auto].
Qed.

(** X23 — A blank field does not clear a key: saving the form with a field
    that is empty or white space only leaves that key as it was, in storage
    and in the binding (for the Gemini key, the client too); the form is
    closed in every case. *)
Theorem blank_field_keeps_key (p : Panel) :
  (trim (geminiApiKeyInput p) = [] ->
   localStorage (saveApiKeys GoogleGenAI_throws p) !! lit "GEMINI_API_KEY"
   = localStorage p !! lit "GEMINI_API_KEY"
   /\ geminiApiKey (saveApiKeys GoogleGenAI_throws p) = geminiApiKey p
   /\ ai (saveApiKeys GoogleGenAI_throws p) = ai p)
  /\ (trim (elevenLabsApiKeyInput p) = [] ->
      localStorage (saveApiKeys GoogleGenAI_throws p) !! lit "ELEVENLABS_API_KEY"
      = localStorage p !! lit "ELEVENLABS_API_KEY"
      /\ elevenLabsApiKey (saveApiKeys GoogleGenAI_throws p) = elevenLabsApiKey p)
  /\ apiKeyModal_hidden (saveApiKeys GoogleGenAI_throws p) = true
  /\ modalOverlay_hidden (panel_world (saveApiKeys GoogleGenAI_throws p)) = true.
Proof.
  destruct (saveApiKeys_keys p) as (A & B & _ & _ & _ & _ & C).
  rewrite A, B, saveApiKeys_storage. cbv zeta.
  split; [|split; [|split; [exact C|reflexivity]]].
  - intros Hb. apply truthy_blank in Hb as Ht. rewrite Ht.
    split; [|split; [reflexivity|]].
    + destruct (truthy (Some (trim (elevenLabsApiKeyInput p)))); [|reflexivity].
      apply lookup_insert_ne, not_eq_sym, key_names_differ.
    + unfold saveApiKeys. rewrite Ht.
      destruct (truthy (Some (trim (elevenLabsApiKeyInput p)))); reflexivity.
  - intros Hb. apply truthy_blank in Hb as Ht. rewrite Ht.
    split; [|reflexivity].
    destruct (truthy (Some (trim (geminiApiKeyInput p)))); [|reflexivity].
    apply lookup_insert_ne, key_names_differ.
Qed.

(** X24 — A key that the client library rejects is kept all the same, and
    the message about it ends up behind a hidden overlay: when the
    constructor throws for the key being saved, the key is stored and bound,
    the client is left undefined, the error modal is revealed with the
    library's message, and closing the form hides the overlay again. *)
Theorem rejected_key_is_kept (p : Panel) (e : jsstring) :
  trim (geminiApiKeyInput p) <> [] ->
  GoogleGenAI_throws (trim (geminiApiKeyInput p)) = Some e ->
  let p' := saveApiKeys GoogleGenAI_throws p in
  ai p' = None
  /\ geminiApiKey p' = Some (trim (geminiApiKeyInput p))
  /\ localStorage p' !! lit "GEMINI_API_KEY" = Some (trim (geminiApiKeyInput p))
  /\ errorModalMessage (panel_world p')
     = lit "Failed to initialize Gemini Client: " ++ e
  /\ errorModal_hidden (panel_world p') = false
  /\ modalOverlay_hidden (panel_world p') = true.
Proof.
  intros Hne He p'.
  destruct (saveApiKeys_keys p) as (A & _).
  pose proof (saveApiKeys_storage p) as S.
  apply truthy_trim in Hne as Ht. fold p' in A, S.
  rewrite Ht in A, S. cbv zeta in S. rewrite A, S.
  assert (Hst : (if truthy (Some (trim (elevenLabsApiKeyInput p)))
                 then <[lit "ELEVENLABS_API_KEY" := trim (elevenLabsApiKeyInput p)]>
                        (<[lit "GEMINI_API_KEY" := trim (geminiApiKeyInput p)]>
                           (localStorage p))
                 else <[lit "GEMINI_API_KEY" := trim (geminiApiKeyInput p)]>
                        (localStorage p))
                !! lit "GEMINI_API_KEY" = Some (trim (geminiApiKeyInput p))).
  { destruct (truthy (Some (trim (elevenLabsApiKeyInput p)))).
    - rewrite lookup_insert_ne by (apply not_eq_sym, key_names_differ).
      apply lookup_insert_eq.
    - apply lookup_insert_eq. }
  rewrite Hst. clear A S Hst.
  subst p'. unfold saveApiKeys. rewrite Ht.
  set (q := with_geminiApiKey _ _).
  rewrite (initializeGenAI_rejected q _ e eq_refl Hne He).
  remember (lit "Failed to initialize Gemini Client: " ++ e) as message.
  destruct (truthy (Some (trim (elevenLabsApiKeyInput p)))); simpl; auto 10.
Qed.

(** ** The entry to generation *)

Lemma in_world_stop (p : Panel) :
  in_world stopSlideshow p = with_panel_world (stop_result (panel_world p)) p.
Proof. unfold in_world. now rewrite stopSlideshow_done. Qed.

Lemma admitted_dec (p : Panel) : {admitted p} + {~ admitted p}.
Proof.
  unfold admitted.
  destruct (trim (userInput p)) as [|c s]; [right; intros (H & _); congruence|].
  destruct (isGenerating p); [right; intros (_ & H & _); congruence|].
  destruct (truthy (geminiApiKey p)); [|right; intros (_ & _ & H & _); congruence].
  destruct (ai p); [|right; intros (_ & _ & _ & _ & H); congruence].
  destruct (decide (voiceSelector p = lit "elevenlabs")) as [E|E].
  - destruct (truthy (elevenLabsApiKey p)).
    + left. repeat split; congruence.
    + right. intros (_ & _ & _ & H & _). specialize (H E). congruence.
  - left. repeat split; congruence.
Qed.

Lemma generate_admitted (p : Panel) :
  admitted p ->
  generate getInstructionsForSong p
  = if truthy (Some (trim (characterInput p)))
    then Awaiting
           (trim (userInput p) ++ [10%N]
              ++ getInstructionsForSong (trim (characterInput p)))
           (generation_started p)
    else Returned
           (generate_finally
              (with_panel_world
                 (popup (lit "Please enter or select a narrator.")
                    (stop_result (panel_world p)))
                 (generation_started p))).
Proof.
  intros (Hm & Hg & Hk & He & Ha). unfold generate.
  apply truthy_trim in Hm. rewrite Hm, Hg, Hk. simpl.
  assert (Hel : bool_decide (voiceSelector p = lit "elevenlabs")
                && negb (truthy (elevenLabsApiKey p)) = false).
  { destruct (decide (voiceSelector p = lit "elevenlabs")) as [E|E].
    - rewrite (He E). apply andb_false_r.
    - now rewrite bool_decide_eq_false_2. }
  rewrite Hel. destruct (ai p) as [client|]; [|congruence].
  rewrite in_world_stop. simpl.
  destruct (trim (characterInput p)); reflexivity.
Qed.

Lemma generate_refused (p : Panel) :
  ~ admitted p ->
  exists p',
    generate getInstructionsForSong p = Returned p'
    /\ playback_state (panel_world p') = playback_state (panel_world p)
    /\ calls (panel_world p') = calls (panel_world p)
    /\ isGenerating p' = isGenerating p
    /\ generateBtn_disabled p' = generateBtn_disabled p
    /\ initialMessage_hidden p' = initialMessage_hidden p.
Proof.
  intros Hn. unfold generate.
  destruct (truthy (Some (trim (userInput p)))) eqn:Hm; simpl;
    [|exists p; auto 10].
  destruct (isGenerating p) eqn:Hg; simpl; [exists p; rewrite Hg; auto 10|].
  destruct (truthy (geminiApiKey p)) eqn:Hk; simpl;
    [|eexists; split; [reflexivity|]; simpl; auto 10].
  destruct (bool_decide (voiceSelector p = lit "elevenlabs")
            && negb (truthy (elevenLabsApiKey p))) eqn:Hel;
    [eexists; split; [reflexivity|]; simpl; auto 10|].
  destruct (ai p) as [client|] eqn:Ha;
    [|eexists; split; [reflexivity|]; simpl; auto 10].
  exfalso. apply Hn. unfold admitted. apply truthy_trim in Hm.
  repeat split; try congruence.
  intros E. rewrite bool_decide_eq_true_2 in Hel by exact E.
  simpl in Hel. now destruct (truthy (elevenLabsApiKey p)).
Qed.

(** X25 — [generate] sends a request exactly when there is a prompt, no
    generation is in progress, the Gemini key and (for the ElevenLabs voice)
    the ElevenLabs key are set, the client exists and a narrator is named;
    the request then carries the trimmed prompt, a line break and the
    instructions for the trimmed narrator, and the page is locked for the
    time of the generation with playback stopped. *)
Theorem generate_requests_iff (p : Panel) :
  ((exists contents p', generate getInstructionsForSong p = Awaiting contents p')
   <-> admitted p /\ trim (characterInput p) <> [])
  /\ forall contents p',
       generate getInstructionsForSong p = Awaiting contents p' ->
       contents
       = trim (userInput p) ++ [10%N]
           ++ getInstructionsForSong (trim (characterInput p))
       /\ isGenerating p' = true
       /\ generateBtn_disabled p' = true
       /\ generateBtn_textContent p' = lit "Generating..."
       /\ stopped (panel_world p')
       /\ initialMessage_hidden p' = true
       /\ slideshow_hidden p' = false.
Proof.
  destruct (admitted_dec p) as [Ha|Hn].
  - rewrite (generate_admitted p Ha).
    destruct (truthy (Some (trim (characterInput p)))) eqn:Hc.
    + apply truthy_trim in Hc. split.
      * split; [auto|]. intros _. eauto.
      * intros contents p' H. injection H as <- <-. simpl.
        repeat split; try reflexivity; apply stop_result_stopped.
    + apply truthy_blank in Hc. split.
      * split; [intros (c & p' & H); discriminate H|].
        intros (_ & H). contradiction.
      * intros contents p' H. discriminate H.
  - destruct (generate_refused p Hn) as (p1 & -> & _). split.
    + split; [intros (c & p' & H); discriminate H|].
      intros (H & _). contradiction.
    + intros contents p' H. discriminate H.
Qed.

(** X26 — [generate] interrupts playback only when it passes its key and
    client checks: then the session is stopped whether or not a request
    follows; otherwise the call returns with playback, the calls made on the
    media, the generation lock, the button and the initial message all as
    they were. *)
Theorem generate_interrupts_when_admitted (p : Panel) :
  (admitted p ->
   stopped (panel_world (panel_of (generate getInstructionsForSong p)))
   /\ (handles_cover (panel_world p) ->
       quiet (panel_world (panel_of (generate getInstructionsForSong p)))))
  /\ (~ admitted p ->
      exists p',
        generate getInstructionsForSong p = Returned p'
        /\ playback_state (panel_world p') = playback_state (panel_world p)
        /\ calls (panel_world p') = calls (panel_world p)
        /\ isGenerating p' = isGenerating p
        /\ generateBtn_disabled p' = generateBtn_disabled p
        /\ initialMessage_hidden p' = initialMessage_hidden p).
Proof.
  split; [|apply generate_refused].
  intros Ha. rewrite (generate_admitted p Ha).
  destruct (truthy (Some (trim (characterInput p)))); simpl.
  - split; [apply stop_result_stopped|apply stop_result_quiet].
  - split; [apply (stop_result_stopped (panel_world p))|].
    intros Hc. apply (stop_result_quiet _ Hc).
Qed.

(** X27 — A blank narrator is found only after the page has been prepared:
    with all checks passed but no narrator named, [generate] returns without
    a request, but the session has been stopped, the initial message hidden
    and the feed revealed; the error modal names the problem, and the
    [finally] block unlocks generation, restores the button and focuses the
    prompt. *)
Theorem blank_narrator_refused_late (p : Panel) :
  admitted p ->
  trim (characterInput p) = [] ->
  exists p',
    generate getInstructionsForSong p = Returned p'
    /\ stopped (panel_world p')
    /\ errorModalMessage (panel_world p')
       = lit "Please enter or select a narrator."
    /\ errorModal_hidden (panel_world p') = false
    /\ modalOverlay_hidden (panel_world p') = false
    /\ initialMessage_hidden p' = true
    /\ slideshow_hidden p' = false
    /\ isGenerating p' = false
    /\ generateBtn_disabled p' = false
    /\ generateBtn_textContent p' = lit "Generate TikTok"
    /\ userInput_focus p' = S (userInput_focus p).
Proof.
  intros Ha Hc. rewrite (generate_admitted p Ha).
  apply truthy_blank in Hc. rewrite Hc.
  eexists. split; [reflexivity|]. simpl.
  split; [apply (stop_result_stopped (panel_world p))|]. auto 12.
Qed.

(** X28 — With a key missing, [generate] opens the key form and asks for
    exactly the keys it misses: the Gemini group is shown when no Gemini key
    is set, the ElevenLabs group when the ElevenLabs voice is chosen and its
    key is not set, and the message names those keys, joined by "and". *)
Theorem missing_keys_prompt (p : Panel) :
  trim (userInput p) <> [] ->
  isGenerating p = false ->
  gemini_key_missing p || elevenLabs_key_missing p = true ->
  exists p',
    generate getInstructionsForSong p = Returned p'
    /\ apiKeyModal_hidden p' = false
    /\ modalOverlay_hidden (panel_world p') = false
    /\ geminiFormGroup_hidden p' = negb (gemini_key_missing p)
    /\ elevenLabsFormGroup_hidden p' = negb (elevenLabs_key_missing p)
    /\ apiModalMessage p'
       = lit "Please enter your "
           ++ join (lit " and ")
                ((if gemini_key_missing p then [lit "Gemini API Key"] else [])
                   ++ (if elevenLabs_key_missing p
                       then [lit "ElevenLabs API Key"] else []))
           ++ lit " to proceed.".
Proof.
  intros Hm Hg Hmiss. unfold generate.
  apply truthy_trim in Hm. rewrite Hm, Hg. simpl.
  fold (gemini_key_missing p). fold (elevenLabs_key_missing p).
  rewrite Hmiss. eexists. split; [reflexivity|].
  unfold showApiKeyModalWithContext.
  destruct (gemini_key_missing p), (elevenLabs_key_missing p); simpl;
    rewrite <- ?app_assoc; auto 10.
Qed.

(** X30 — Saving a Gemini key that the client library accepts is what it
    takes to generate: on a page with a prompt and a narrator and no
    generation in progress, and with an ElevenLabs key typed or already
    bound if that voice is chosen, [generate] after [saveApiKeys] sends a
    request, through a client made with the trimmed key. *)
Theorem saved_key_admits_generate (p : Panel) :
  trim (geminiApiKeyInput p) <> [] ->
  GoogleGenAI_throws (trim (geminiApiKeyInput p)) = None ->
  trim (userInput p) <> [] ->
  trim (characterInput p) <> [] ->
  isGenerating p = false ->
  (voiceSelector p = lit "elevenlabs" ->
   trim (elevenLabsApiKeyInput p) <> [] \/ truthy (elevenLabsApiKey p) = true) ->
  exists contents p',
    generate getInstructionsForSong (saveApiKeys GoogleGenAI_throws p)
    = Awaiting contents p'
    /\ ai p' = Some (mkGoogleGenAI (trim (geminiApiKeyInput p))).
Proof.
  intros Hk Hok Hm Hc Hg He.
  destruct (saveApiKeys_keys p) as (A & B & C & D & E & F & _).
  assert (Hai : ai (saveApiKeys GoogleGenAI_throws p)
                = Some (mkGoogleGenAI (trim (geminiApiKeyInput p)))).
  { unfold saveApiKeys. apply truthy_trim in Hk as Ht. rewrite Ht.
    set (q := with_geminiApiKey _ _).
    assert (Hq : ai (initializeGenAI GoogleGenAI_throws q)
                 = Some (mkGoogleGenAI (trim (geminiApiKeyInput p)))).
    { rewrite (initializeGenAI_ai q (trim (geminiApiKeyInput p)) eq_refl Hk).
      now rewrite Hok. }
    destruct (truthy (Some (trim (elevenLabsApiKeyInput p)))); simpl;
      exact Hq. }
  assert (Ha : admitted (saveApiKeys GoogleGenAI_throws p)).
  { unfold admitted. rewrite A, B, C, D, F, Hai.
    apply truthy_trim in Hk as Ht. rewrite Ht.
    split; [exact Hm|]. split; [exact Hg|].
    split; [now apply truthy_trim|]. split; [|discriminate].
    intros Hv. destruct (truthy (Some (trim (elevenLabsApiKeyInput p)))) eqn:Hte.
    - now apply truthy_trim, truthy_trim.
    - destruct (He Hv) as [H|H]; [|exact H].
      apply truthy_trim in H. congruence. }
  rewrite (generate_admitted _ Ha), E.
  apply truthy_trim in Hc. rewrite Hc.
  do 2 eexists. split; [reflexivity|]. simpl. exact Hai.
Qed.

(** X29 — With the keys set but no client, [generate] reveals the error
    modal and the key form together and leaves playback alone; closing the
    error modal then hides the overlay the two share, while the key form
    stays revealed. *)
Theorem missing_client_opens_both_modals (p : Panel) :
  trim (userInput p) <> [] ->
  isGenerating p = false ->
  gemini_key_missing p || elevenLabs_key_missing p = false ->
  ai p = None ->
  exists p' w',
    generate getInstructionsForSong p = Returned p'
    /\ errorModalMessage (panel_world p')
       = lit "The Gemini client is not initialized. Please check your API key."
    /\ errorModal_hidden (panel_world p') = false
    /\ apiKeyModal_hidden p' = false
    /\ modalOverlay_hidden (panel_world p') = false
    /\ playback_state (panel_world p') = playback_state (panel_world p)
    /\ closeErrorPopup (panel_world p') = Done tt w'
    /\ errorModal_hidden w' = true
    /\ modalOverlay_hidden w' = true.
Proof.
  intros Hm Hg Hmiss Ha. unfold generate.
  apply truthy_trim in Hm. rewrite Hm, Hg. simpl.
  fold (gemini_key_missing p). fold (elevenLabs_key_missing p).
  rewrite Hmiss, Ha. do 2 eexists. split; [reflexivity|]. simpl.
  repeat split; reflexivity.
Qed.

End ClientProofs.

Lemma api_keys_round_trip_witness :
  let p := with_geminiApiKeyInput (lit "  key-1 ") sample_panel in
  let q := with_localStorage (localStorage (saveApiKeys (fun _ => None) p))
             sample_panel in
  geminiApiKey (loadApiKeys q) = Some (lit "key-1")
  /\ geminiApiKeyInput (loadApiKeys q) = lit "key-1".
Proof.
  intros p q.
  destruct (api_keys_round_trip (fun _ => None) p q eq_refl) as [H _].
  apply H. vm_compute. discriminate.
Defined.

Lemma blank_field_keeps_key_witness :
  let p := with_geminiApiKeyInput (lit "   ")
             (with_geminiApiKey (Some (lit "key-1"))
                (with_localStorage
                   (<[lit "GEMINI_API_KEY" := lit "key-1"]> ∅) sample_panel)) in
  localStorage (saveApiKeys (fun _ => None) p) !! lit "GEMINI_API_KEY"
  = Some (lit "key-1")
  /\ geminiApiKey (saveApiKeys (fun _ => None) p) = Some (lit "key-1").
Proof.
  intros p.
  destruct (blank_field_keeps_key (fun _ => None) p) as [H _].
  destruct H as (A & B & _); [vm_compute; reflexivity|].
  rewrite A, B. split; reflexivity.
Defined.

Lemma rejected_key_is_kept_witness :
  let p := with_geminiApiKeyInput (lit " key-1") sample_panel in
  let p' := saveApiKeys (fun _ => Some (lit "Error: bad key")) p in
  ai p' = None
  /\ localStorage p' !! lit "GEMINI_API_KEY" = Some (lit "key-1")
  /\ modalOverlay_hidden (panel_world p') = true.
Proof.
  intros p p'.
  destruct (rejected_key_is_kept (fun _ => Some (lit "Error: bad key")) p
              (lit "Error: bad key"))
    as (A & _ & B & _ & _ & C);
    [vm_compute; discriminate | reflexivity |].
  split; [exact A|]. split; [|exact C].
  etransitivity; [exact B|]. vm_compute. reflexivity.
Defined.

Lemma generate_interrupts_when_admitted_witness :
  let p := with_panel_world speech_playing
             (with_userInput (lit "Why is the sky blue?")
                (with_characterInput (lit "Simba")
                   (with_geminiApiKey (Some (lit "key-1"))
                      (with_ai (Some (mkGoogleGenAI (lit "key-1")))
                         sample_panel)))) in
  isPlaying (panel_world p) = true
  /\ stopped (panel_world (panel_of (generate (fun c => c) p))).
Proof.
  intros p. split; [vm_compute; reflexivity|].
  destruct (generate_interrupts_when_admitted (fun c => c) p) as [H _].
  apply H. unfold admitted.
  repeat split; vm_compute; congruence.
Defined.

Lemma blank_narrator_refused_late_witness :
  let p := with_userInput (lit "Why is the sky blue?")
             (with_characterInput (lit "  ")
                (with_geminiApiKey (Some (lit "key-1"))
                   (with_ai (Some (mkGoogleGenAI (lit "key-1")))
                      sample_panel))) in
  exists p',
    generate (fun c => c) p = Returned p'
    /\ initialMessage_hidden p' = true
    /\ isGenerating p' = false.
Proof.
  intros p.
  destruct (blank_narrator_refused_late (fun c => c) p)
    as (p' & A & _ & _ & _ & _ & B & _ & C & _).
  - unfold admitted. repeat split; vm_compute; congruence.
  - vm_compute. reflexivity.
  - exists p'. auto.
Defined.

Lemma missing_keys_prompt_witness :
  let p := with_userInput (lit "Why is the sky blue?")
             (with_voiceSelector (lit "elevenlabs") sample_panel) in
  exists p',
    generate (fun c => c) p = Returned p'
    /\ apiModalMessage p'
       = lit "Please enter your Gemini API Key and ElevenLabs API Key to proceed.".
Proof.
  intros p.
  destruct (missing_keys_prompt (fun c => c) p)
    as (p' & A & _ & _ & _ & _ & B);
    [vm_compute; discriminate | reflexivity | vm_compute; reflexivity |].
  exists p'. split; [exact A|]. rewrite B. vm_compute. reflexivity.
Defined.

Lemma saved_key_admits_generate_witness :
  let p := with_geminiApiKeyInput (lit " key-1 ")
             (with_userInput (lit "Why is the sky blue?")
                (with_characterInput (lit "Simba") sample_panel)) in
  exists contents p',
    generate (fun c => c) (saveApiKeys (fun _ => None) p) = Awaiting contents p'
    /\ ai p' = Some (mkGoogleGenAI (lit "key-1")).
Proof.
  intros p.
  destruct (saved_key_admits_generate (fun _ => None) (fun c => c) p)
    as (contents & p' & A & B);
    [vm_compute; discriminate | reflexivity | vm_compute; discriminate
     | vm_compute; discriminate | reflexivity
     | intros E; vm_compute in E; discriminate E |].
  exists contents, p'. split; [exact A|]. rewrite B. reflexivity.
Defined.

Lemma missing_client_opens_both_modals_witness :
  let p := with_userInput (lit "Why is the sky blue?")
             (with_geminiApiKey (Some (lit "key-1")) sample_panel) in
  exists p',
    generate (fun c => c) p = Returned p'
    /\ errorModal_hidden (panel_world p') = false
    /\ apiKeyModal_hidden p' = false.
Proof.
  intros p.
  destruct (missing_client_opens_both_modals (fun c => c) p)
    as (p' & w' & A & _ & B & C & _);
    [vm_compute; discriminate | reflexivity | vm_compute; reflexivity
     | reflexivity |].
  exists p'. auto.
Defined.
